(** * Block metadata synchronisation and block upload: a shallow embedding

    This development embeds in Rocq the parts of
    [pkg/storage/tsdb/block/fetcher.go] and [pkg/compactor/block_upload.go]
    that the properties of the specification speak about, and settles each
    property on the embedding.

    Layout: library models (strings, [path], [regexp], [ulid], errors),
    then the upload handlers, then the metadata fetcher and its filters,
    then the job readiness gate, then the theorems. *)

From Stdlib Require Import Ascii String ZArith Lia.
From stdpp Require Import gmap strings list fin_maps.

Local Open Scope string_scope.

#[local] Set Warnings "-clear-no-such-hyp,-register-all".

(** ** Strings *)

Definition slash : ascii := "/"%char.

Definition is_slash (c : ascii) : bool := Ascii.eqb c slash.

(** [strings.Join(l, sep)]. *)
Fixpoint strings_Join (l : list string) (sep : string) : string :=
  match l with
  | [] => ""
  | [x] => x
  | x :: rest => x +:+ sep +:+ strings_Join rest sep
  end.

Fixpoint has_slash (s : string) : bool :=
  match s with
  | EmptyString => false
  | String c s' => is_slash c || has_slash s'
  end.

(** ** Go's [path] package: [Base], [Clean], [Join] *)

Module path.

(** The loop [for len(path) > 0 && path[len(path)-1] == '/'] of [Base]. *)
Fixpoint strip_trailing_slashes (s : string) : string :=
  match s with
  | EmptyString => EmptyString
  | String c s' =>
      match strip_trailing_slashes s' with
      | EmptyString => if is_slash c then EmptyString else String c EmptyString
      | r => String c r
      end
  end.

(** [path[lastSlash(path)+1:]], the whole string when it has no slash. *)
Fixpoint after_last_slash (s : string) : string :=
  match s with
  | EmptyString => EmptyString
  | String c s' =>
      if has_slash s' then after_last_slash s'
      else if is_slash c then s' else String c s'
  end.

Definition Base (p : string) : string :=
  if String.eqb p "" then "."
  else
    let p1 := strip_trailing_slashes p in
    let p2 := after_last_slash p1 in
    if String.eqb p2 "" then "/" else p2.

(** The slash-separated elements of a path; [split "a//b" = ["a"; ""; "b"]]. *)
Fixpoint split (s : string) : list string :=
  match s with
  | EmptyString => [EmptyString]
  | String c s' =>
      if is_slash c then EmptyString :: split s'
      else
        match split s' with
        | [] => [String c EmptyString]
        | w :: ws => String c w :: ws
        end
  end.

(** One element of [Clean]'s scan.  [out] is the output so far, last element
    first.  Empty and [.] elements are dropped; [..] removes the element
    before it, is dropped at the root, and is kept where a relative path has
    nothing left to remove. *)
Definition clean_step (rooted : bool) (out : list string) (e : string)
  : list string :=
  if String.eqb e "" || String.eqb e "." then out
  else if String.eqb e ".." then
    match out with
    | [] => if rooted then [] else [".."]
    | top :: rest => if String.eqb top ".." then e :: out else rest
    end
  else e :: out.

Definition Clean (p : string) : string :=
  if String.eqb p "" then "."
  else
    let rooted := match p with String c _ => is_slash c | _ => false end in
    let out := rev (fold_left (clean_step rooted) (split p) []) in
    let body := strings_Join out "/" in
    if rooted then "/" +:+ body
    else if String.eqb body "" then "." else body.

(** [path.Join] of two elements. *)
Definition Join (a b : string) : string :=
  if String.eqb a "" && String.eqb b "" then ""
  else if String.eqb a "" then Clean b
  else Clean (a +:+ "/" +:+ b).

End path.

#[global] Arguments path.Base : simpl never.
#[global] Arguments path.Clean : simpl never.
#[global] Arguments path.Join : simpl never.

(** ** Go's [regexp], for the expressions the handlers use *)

Module regexp.

Inductive re : Type :=
  | Void
  | Eps
  | Chr (c : ascii)
  | Digit                       (* \d : the ASCII digits *)
  | Cat (r1 r2 : re)
  | Alt (r1 r2 : re).

Definition is_digit (c : ascii) : bool :=
  let n := nat_of_ascii c in (48 <=? n)%nat && (n <=? 57)%nat.

Fixpoint Lit (s : string) : re :=
  match s with
  | EmptyString => Eps
  | String c s' => Cat (Chr c) (Lit s')
  end.

(** [r{n}] *)
Fixpoint Rep (n : nat) (r : re) : re :=
  match n with
  | O => Eps
  | S n' => Cat r (Rep n' r)
  end.

Fixpoint nullable (r : re) : bool :=
  match r with
  | Void => false
  | Eps => true
  | Chr _ => false
  | Digit => false
  | Cat r1 r2 => nullable r1 && nullable r2
  | Alt r1 r2 => nullable r1 || nullable r2
  end.

Fixpoint deriv (c : ascii) (r : re) : re :=
  match r with
  | Void => Void
  | Eps => Void
  | Chr d => if Ascii.eqb c d then Eps else Void
  | Digit => if is_digit c then Eps else Void
  | Cat r1 r2 =>
      Alt (Cat (deriv c r1) r2) (if nullable r1 then deriv c r2 else Void)
  | Alt r1 r2 => Alt (deriv c r1) (deriv c r2)
  end.

(** [MatchString] of the anchored expression [^(r)$]: the whole text has to
    match [r]. *)
Fixpoint MatchString (r : re) (s : string) : bool :=
  match s with
  | EmptyString => nullable r
  | String c s' => MatchString (deriv c r) s'
  end.

(** The words of an expression. *)
Inductive lang : re -> string -> Prop :=
  | lang_eps : lang Eps ""
  | lang_chr c : lang (Chr c) (String c "")
  | lang_digit c : is_digit c = true -> lang Digit (String c "")
  | lang_cat r1 r2 s1 s2 : lang r1 s1 -> lang r2 s2 -> lang (Cat r1 r2) (s1 +:+ s2)
  | lang_alt_l r1 r2 s : lang r1 s -> lang (Alt r1 r2) s
  | lang_alt_r r1 r2 s : lang r2 s -> lang (Alt r1 r2) s.

Fixpoint all_digits (s : string) : bool :=
  match s with
  | EmptyString => true
  | String c s' => is_digit c && all_digits s'
  end.

End regexp.

(** ** [github.com/oklog/ulid] *)

Module ulid.

(** A ULID is 16 bytes; it is read here as the 128-bit big-endian number they
    spell.  The first 48 bits are a millisecond timestamp. *)
Abbreviation ULID := N (only parsing).

Definition Encoding : list ascii :=
  list_ascii_of_string "0123456789ABCDEFGHJKMNPQRSTVWXYZ".

(** The [i]-th of the 26 Crockford base-32 digits, most significant first. *)
Definition digit (id : ULID) (i : nat) : ascii :=
  nth (N.to_nat (N.land (N.shiftr id (N.of_nat (5 * (25 - i)))) 31))
      Encoding "0"%char.

Definition String (id : ULID) : string :=
  string_of_list_ascii (map (digit id) (seq 0 26)).

(** [id.Time()]: the timestamp, a uint64 of milliseconds. *)
Definition Time (id : ULID) : Z := Z.of_N (N.shiftr id 80).

(** Whether [ulid.Parse] returns no error: the text has the encoded size and
    its first digit does not overflow 128 bits.  ([Parse], unlike
    [ParseStrict], does not look at the other characters.) *)
Definition Parse_ok (s : string) : bool :=
  (String.length s =? 26)%nat &&
  match s with
  | String.String c _ => (nat_of_ascii c <=? nat_of_ascii "7"%char)%nat
  | String.EmptyString => false
  end.

End ulid.

#[global] Arguments ulid.String : simpl never.
#[global] Arguments ulid.Parse_ok : simpl never.

(** ** Errors

    Errors are values built the way [github.com/pkg/errors] builds them.  A
    format string is kept with its arguments instead of being rendered. *)

Inductive sentinel : Type :=
  | SyncMetaNotFound            (* block.ErrorSyncMetaNotFound *)
  | SyncMetaCorrupted           (* block.ErrorSyncMetaCorrupted *)
  | MarkerNotFound              (* metadata.ErrorMarkerNotFound *)
  | UnmarshalMarker.            (* metadata.ErrorUnmarshalMarker *)

Inductive Err : Type :=
  | Sentinel (k : sentinel)
      (* a package-level [errors.New] value, recognised by identity *)
  | Foreign (notFound : bool) (text : string)
      (* a root error made outside this code (bucket, file system, context);
         [notFound] is what the bucket's [IsObjNotFoundErr] answers on it *)
  | Errorf (format : string) (args : list Arg)
  | Wrapf (cause : Err) (format : string) (args : list Arg)
  | Multi (errs : list Err)            (* multierror.MultiError.Err() *)
with Arg : Type :=
  | AStr (s : string)
  | AInt (n : Z)
  | AErr (e : Err).

(** [errors.Cause]: the innermost error of a chain of wrappers. *)
Fixpoint Cause (e : Err) : Err :=
  match e with
  | Wrapf c _ _ => Cause c
  | _ => e
  end.

(** [errors.Is(errors.Cause(err), s)] for a sentinel [s]. *)
Definition cause_is (k : sentinel) (e : Err) : bool :=
  match Cause e with
  | Sentinel k' =>
      match k, k' with
      | SyncMetaNotFound, SyncMetaNotFound
      | SyncMetaCorrupted, SyncMetaCorrupted
      | MarkerNotFound, MarkerNotFound
      | UnmarshalMarker, UnmarshalMarker => true
      | _, _ => false
      end
  | _ => false
  end.

(** [bkt.IsObjNotFoundErr]: the implementations look at the cause. *)
Definition IsObjNotFoundErr (e : Err) : bool :=
  match Cause e with
  | Foreign nf _ => nf
  | _ => false
  end.

(** ** Block descriptors *)

Module metadata.

Definition TSDBVersion1 : Z := 1.

(** [metadata.Meta]: the fields of [tsdb.BlockMeta] and of the [Thanos]
    section that the code at hand reads or writes. *)
Record Meta : Type := {
  ULID : ulid.ULID;
  MinTime : Z;
  MaxTime : Z;
  Version : Z;
  Level : Z;                                  (* Compaction.Level *)
  Sources : list ulid.ULID;                   (* Compaction.Sources *)
  Labels : option (gmap string string);       (* Thanos.Labels; [None] is nil *)
  Source : string;                            (* Thanos.Source *)
  Files : list (string * Z);                  (* Thanos.Files *)
}.

(** The [SourceType] values the consistency-delay filter exempts; they are
    declared with the type, outside the files at hand. *)
Record SourceTypes : Type := {
  BucketRepairSource : string;
  CompactorSource : string;
  CompactorRepairSource : string;
}.

(** [metadata.DeletionMark]; [DeletionTime] is in Unix seconds. *)
Record DeletionMark : Type := {
  ID : ulid.ULID;
  DeletionTime : Z;
}.

End metadata.

Abbreviation Meta := metadata.Meta.

(** ** The object store, as the upload handlers use it *)

Module objstore.

(** What is stored under a key, or sent as a request body: bytes, told apart
    by what [json.Decoder.Decode] into a [metadata.Meta] makes of them. *)
Inductive Payload : Type :=
  | JSONMeta (m : Meta)         (* the JSON encoding of [m] *)
  | Blob (b : string).          (* bytes that do not decode to a meta *)

Inductive Op : Type :=
  | OpExists (key : string)
  | OpGet (key : string)
  | OpUpload (key : string)
  | OpDelete (key : string).

#[global] Instance Op_eq_dec : EqDecision Op.
Proof. solve_decision. Defined.

(** A bucket: its objects, the calls that will fail with an error other than
    not-found, and the calls made so far, oldest first. *)
Record Bucket : Type := {
  objects : gmap string Payload;
  faults : list Op;
  calls : list Op;
}.

Definition fails (b : Bucket) (o : Op) : bool := bool_decide (o ∈ faults b).

Definition called (b : Bucket) (o : Op) : Bucket :=
  {| objects := objects b; faults := faults b; calls := calls b ++ [o] |}.

Definition Exists (b : Bucket) (key : string) : Bucket * (Err + bool) :=
  let b' := called b (OpExists key) in
  if fails b (OpExists key) then (b', inl (Foreign false "exists failed"))
  else (b', inr (bool_decide (is_Some (objects b !! key)))).

Definition Get (b : Bucket) (key : string) : Bucket * (Err + Payload) :=
  let b' := called b (OpGet key) in
  if fails b (OpGet key) then (b', inl (Foreign false "get failed"))
  else match objects b !! key with
       | Some p => (b', inr p)
       | None => (b', inl (Foreign true "object not found"))
       end.

(** A failed upload or delete leaves the objects as they were. *)
Definition Upload (b : Bucket) (key : string) (p : Payload)
  : Bucket * option Err :=
  let b' := called b (OpUpload key) in
  if fails b (OpUpload key) then (b', Some (Foreign false "upload failed"))
  else ({| objects := <[key := p]> (objects b');
           faults := faults b'; calls := calls b' |}, None).

Definition Delete (b : Bucket) (key : string) : Bucket * option Err :=
  let b' := called b (OpDelete key) in
  if fails b (OpDelete key) then (b', Some (Foreign false "delete failed"))
  else ({| objects := delete key (objects b');
           faults := faults b'; calls := calls b' |}, None).

End objstore.


(** ** [net/http], as far as the handlers go *)

Module http.

Definition StatusOK : Z := 200.
Definition StatusBadRequest : Z := 400.
Definition StatusConflict : Z := 409.
Definition StatusInternalServerError : Z := 500.
Definition StatusBadGateway : Z := 502.

(** A request, by what the handlers read from it. *)
Record Request : Type := {
  block : string;                       (* mux.Vars(r)["block"] *)
  query_path : string;                  (* r.URL.Query().Get("path") *)
  tenant : option string;
    (* tenant.ExtractTenantIDFromHTTPRequest(r); [None] when it fails *)
  Body : option objstore.Payload;       (* r.Body; [None] is nil *)
  ContentLength : Z;                    (* r.ContentLength; -1 is unknown *)
}.

(** What the handler did to the response writer: [http.Error(w, msg, code)]
    or [w.WriteHeader(code)], the message kept as format and arguments.  A
    handler that dereferences a nil body panics instead. *)
Inductive Response : Type :=
  | Replied (status : Z) (format : string) (args : list Arg)
  | Panicked.

Definition Error (msg : string) (code : Z) : Response := Replied code msg [].

Definition WriteHeader (code : Z) : Response := Replied code "" [].

Definition status_of (r : Response) : option Z :=
  match r with
  | Replied s _ _ => Some s
  | Panicked => None
  end.

End http.

(** ** [pkg/compactor/block_upload.go] *)

Module mimir_tsdb.

(** The names of the external labels; the constants are declared in
    [pkg/storage/tsdb], outside the files at hand, so the handlers take
    them as a parameter. *)
Record ExternalLabels : Type := {
  TenantIDExternalLabel : string;
  CompactorShardIDExternalLabel : string;
  IngesterIDExternalLabel : string;
  DeprecatedShardIDExternalLabel : string;
}.

End mimir_tsdb.

Module compactor.
Import objstore http metadata.

Section Upload.
Context (L : mimir_tsdb.ExternalLabels).

(** The three arms of the [switch l] of [sanitizeMeta]; the first arm that
    lists the label is taken. *)
Inductive label_class : Type := Preserved | Unused | Rejected.

Definition classify (l : string) : label_class :=
  if String.eqb l (mimir_tsdb.TenantIDExternalLabel L)
     || String.eqb l (mimir_tsdb.CompactorShardIDExternalLabel L) then Preserved
  else if String.eqb l (mimir_tsdb.IngesterIDExternalLabel L)
          || String.eqb l (mimir_tsdb.DeprecatedShardIDExternalLabel L) then Unused
  else Rejected.

Definition is_unused (l : string) : bool :=
  match classify l with Unused => true | _ => false end.

Definition is_rejected (l : string) : bool :=
  match classify l with Rejected => true | _ => false end.

(** [errBadRequest]: the message, as format and arguments. *)
Record errBadRequest : Type := { message : string * list Arg }.

(** [sanitizeMeta] changes the meta in place and returns an error or nil;
    here it returns the meta as it leaves it, and the error.  The [range]
    over the labels deletes the unused labels as it meets them and collects
    the others that are not preserved; Go leaves the order of a [range] over
    a map open, here it is the order of [map_to_list]. *)
Definition sanitizeMeta (tenantID : string) (blockID : ulid.ULID) (meta : Meta)
  : Meta * option errBadRequest :=
  let labels0 := default ∅ (Labels meta) in
  let labels1 := <[mimir_tsdb.TenantIDExternalLabel L := tenantID]> labels0 in
  let rejLbls := filter (λ l, is_rejected l = true) (map_to_list labels1).*1 in
  let labels2 := filter (λ kv, is_unused kv.1 = false) labels1 in
  let meta1 :=
    {| ULID := blockID; MinTime := MinTime meta; MaxTime := MaxTime meta;
       Version := Version meta; Level := Level meta; Sources := Sources meta;
       Labels := Some labels2; Source := Source meta; Files := Files meta |} in
  if (0 <? length rejLbls)%nat then
    (meta1,
     Some {| message := ("unsupported external label(s): %s",
                         [AStr (strings_Join rejLbls ",")]) |})
  else
    ({| ULID := ULID meta1; MinTime := MinTime meta1; MaxTime := MaxTime meta1;
        Version := Version meta1; Level := Level meta1;
        Sources := Sources meta1; Labels := Labels meta1;
        Source := "upload"; Files := Files meta1 |}, None).

#[global] Arguments sanitizeMeta : simpl never.

(** The labels a sanitised meta carries: the tenant label, set to the tenant,
    and no unused label. *)
Definition sanitized_labels (tenantID : string) (m : gmap string string)
  : gmap string string :=
  filter (λ kv, is_unused kv.1 = false)
         (<[mimir_tsdb.TenantIDExternalLabel L := tenantID]> m).

(** [uploadMeta]: encode the meta and upload it as [<blockID>/<name>].
    ([json.Encoder.Encode] has no failure on this type.) *)
Definition uploadMeta (meta : Meta) (blockID : ulid.ULID) (name : string)
    (bkt : Bucket) : Bucket * option Err :=
  let dst := path.Join (ulid.String blockID) name in
  match Upload bkt dst (JSONMeta meta) with
  | (bkt', Some err) =>
      (bkt', Some (Wrapf err "failed uploading %s to bucket" [AStr name]))
  | (bkt', None) => (bkt', None)
  end.

(** [createBlockUpload].  [bkt] is the client that
    [bucket.NewUserBucketClient] returns for the tenant.  The only error
    [sanitizeMeta] returns is an [errBadRequest], so the branch for other
    errors has no counterpart here. *)
Definition createBlockUpload (bkt : Bucket) (r : Request)
    (tenantID : string) (blockID : ulid.ULID) : Bucket * Response :=
  match Exists bkt (path.Join (ulid.String blockID) "meta.json") with
  | (bkt, inl _) =>
      (bkt, Error "internal server error" StatusInternalServerError)
  | (bkt, inr true) =>
      (bkt, Error "block already exists in object storage" StatusConflict)
  | (bkt, inr false) =>
      match Body r with
      | None => (bkt, Panicked)
      | Some (Blob _) => (bkt, Error "malformed request body" StatusBadRequest)
      | Some (JSONMeta meta) =>
          match sanitizeMeta tenantID blockID meta with
          | (_, Some eBadReq) =>
              (bkt, Replied StatusBadRequest
                      (message eBadReq).1 (message eBadReq).2)
          | (meta, None) =>
              match uploadMeta meta blockID "meta.json.temp" bkt with
              | (bkt, Some _) =>
                  (bkt, Error "internal server error" StatusInternalServerError)
              | (bkt, None) => (bkt, WriteHeader StatusOK)
              end
          end
      end
  end.

(** The expression compiled in [UploadBlockFile]:
    [^(index|chunks/\d{6})$]. *)
Definition rePath : regexp.re :=
  regexp.Alt (regexp.Lit "index")
             (regexp.Cat (regexp.Lit "chunks/") (regexp.Rep 6 regexp.Digit)).

(** [UploadBlockFile]. *)
Definition UploadBlockFile (bkt : Bucket) (r : Request) : Bucket * Response :=
  let blockID := block r in
  if String.eqb blockID "" then
    (bkt, Error "missing block ID" StatusBadRequest)
  else if negb (ulid.Parse_ok blockID) then
    (bkt, Error "invalid block ID" StatusBadRequest)
  else
  let pth := query_path r in
  if String.eqb pth "" then
    (bkt, Error "missing or invalid file path" StatusBadRequest)
  else
  match tenant r with
  | None => (bkt, Error "invalid tenant ID" StatusBadRequest)
  | Some tenantID =>
  if String.eqb (path.Base pth) "meta.json" then
    (bkt, Error "meta.json is not allowed" StatusBadRequest)
  else if negb (regexp.MatchString rePath pth) then
    (bkt, Replied StatusBadRequest "invalid path: %q" [AStr pth])
  else
  match Body r with
  | None => (bkt, Error "file cannot be empty" StatusBadRequest)
  | Some body =>
  if (ContentLength r =? 0)%Z then
    (bkt, Error "file cannot be empty" StatusBadRequest)
  else
  let metaPath := path.Join blockID "meta.json.temp" in
  match Exists bkt metaPath with
  | (bkt, inl _) =>
      (bkt, Error "internal server error" StatusInternalServerError)
  | (bkt, inr false) =>
      (bkt, Replied StatusBadRequest "upload of block %s not started yet"
              [AStr blockID])
  | (bkt, inr true) =>
  match Get bkt metaPath with
  | (bkt, inl _) =>
      (bkt, Error "internal server error" StatusInternalServerError)
  | (bkt, inr (Blob _)) =>
      (bkt, Error "internal server error" StatusInternalServerError)
  | (bkt, inr (JSONMeta _)) =>
  let dst := path.Join blockID pth in
  match Upload bkt dst body with
  | (bkt, Some _) =>
      (bkt, Error "failed uploading block file to bucket" StatusBadGateway)
  | (bkt, None) => (bkt, WriteHeader StatusOK)
  end end end end end.

(** [completeBlockUpload]. *)
Definition completeBlockUpload (bkt : Bucket) (r : Request)
    (tenantID : string) (blockID : ulid.ULID) : Bucket * Response :=
  match Get bkt (path.Join (ulid.String blockID) "meta.json.temp") with
  | (bkt, inl _) =>
      (bkt, Error "internal server error" StatusInternalServerError)
  | (bkt, inr (Blob _)) =>
      (bkt, Error "internal server error" StatusInternalServerError)
  | (bkt, inr (JSONMeta meta)) =>
      match uploadMeta meta blockID "meta.json" bkt with
      | (bkt, Some _) =>
          (bkt, Error "internal server error" StatusInternalServerError)
      | (bkt, None) =>
          match Delete bkt (path.Join (ulid.String blockID) "meta.json.temp") with
          | (bkt, Some _) =>
              (bkt, Error "internal server error" StatusInternalServerError)
          | (bkt, None) => (bkt, WriteHeader StatusOK)
          end
      end
  end.

End Upload.

(** A block is visible when its [meta.json] is in the bucket. *)
Definition visible (bkt : Bucket) (blockID : ulid.ULID) : Prop :=
  is_Some (objects bkt !! path.Join (ulid.String blockID) "meta.json").

(** The uploads a handler made: the [OpUpload] calls it added to the
    bucket's record of calls. *)
Definition uploads_of (ops : list Op) : list string :=
  omap (λ o, match o with OpUpload k => Some k | _ => None end) ops.

End compactor.


(** ** Instances for the worked examples *)

Module examples.

Definition labels : mimir_tsdb.ExternalLabels :=
  {| mimir_tsdb.TenantIDExternalLabel := "__org_id__";
     mimir_tsdb.CompactorShardIDExternalLabel := "__compactor_shard_id__";
     mimir_tsdb.IngesterIDExternalLabel := "__ingester_id__";
     mimir_tsdb.DeprecatedShardIDExternalLabel := "__shard_id__" |}.

(** A level-1 block descriptor with the given id, labels and source. *)
Definition meta_of (id : ulid.ULID) (version : Z)
    (lbls : option (gmap string string)) (src : string) : Meta :=
  {| metadata.ULID := id; metadata.MinTime := 0; metadata.MaxTime := 7200000;
     metadata.Version := version; metadata.Level := 1;
     metadata.Sources := [id]; metadata.Labels := lbls;
     metadata.Source := src; metadata.Files := [] |}.

End examples.


(** ** Vocabulary of the upload properties *)

Module upload_spec.
Import objstore.

(** The allow-list in words: exactly [index], or [chunks/] and six digits. *)
Definition allowed_path (p : string) : Prop :=
  p = "index" \/
  exists d, p = "chunks/" +:+ d /\ String.length d = 6%nat
            /\ regexp.all_digits d = true.

(** The calls a handler made on the bucket it was given. *)
Definition calls_made (before after : Bucket) : list Op :=
  drop (length (calls before)) (calls after).

End upload_spec.


(** An element that [Clean] keeps as it is. *)
Definition normal_elem (e : string) : Prop :=
  e <> "" /\ e <> "." /\ e <> ".." /\ has_slash e = false.


(** ** A bucket and requests for the examples on [UploadBlockFile] *)

Module upload_examples.
Import objstore http.

Definition block_text : string := "01ARZ3NDEKTSV4RRFFQ69G5FAV".

(** A tenant's bucket in which the upload of the block has been started. *)
Definition staged : Bucket :=
  {| objects :=
       {[ "01ARZ3NDEKTSV4RRFFQ69G5FAV/meta.json.temp" :=
            JSONMeta (examples.meta_of 7 1 (Some ∅) "upload") ]};
     faults := []; calls := [] |}.

(** A request to upload three bytes as [pth], with the given content
    length. *)
Definition file_request (pth : string) (len : Z) : Request :=
  {| block := block_text; query_path := pth; tenant := Some "user-1";
     Body := Some (Blob "abc"); ContentLength := len |}.

End upload_examples.


(** ** The three operations of the upload protocol, as steps on a bucket *)

Module protocol.
Import objstore http compactor.

Inductive Step : Type :=
  | Begin (r : Request) (tenantID : string) (blockID : ulid.ULID)
  | File (r : Request)
  | Commit (r : Request) (tenantID : string) (blockID : ulid.ULID).

Definition step (L : mimir_tsdb.ExternalLabels) (bkt : Bucket) (s : Step)
  : Bucket * Response :=
  match s with
  | Begin r tenantID blockID => createBlockUpload L bkt r tenantID blockID
  | File r => UploadBlockFile bkt r
  | Commit r tenantID blockID => completeBlockUpload bkt r tenantID blockID
  end.

(** The key of a block's [meta.json]. *)
Definition meta_json (blockID : ulid.ULID) : string :=
  path.Join (ulid.String blockID) "meta.json".

Definition meta_json_temp (blockID : ulid.ULID) : string :=
  path.Join (ulid.String blockID) "meta.json.temp".

End protocol.


(** ** Transactional gauges *)

Module extprom.

(** Modelled from the spec: [extprom.TxGaugeVec], whose code is outside the
    files at hand.  Mutations between [ResetTx] and [Submit] go to a staging
    buffer; [Submit] publishes the staging buffer; readers see the published
    values.  A gauge that was never set reads 0. *)
Record TxGaugeVec : Type := {
  tx : gmap string nat;
  published : gmap string nat;
}.

Definition ResetTx (g : TxGaugeVec) : TxGaugeVec :=
  {| tx := ∅; published := published g |}.

Definition Submit (g : TxGaugeVec) : TxGaugeVec :=
  {| tx := tx g; published := tx g |}.

(** [WithLabelValues(l).Set(v)] and [WithLabelValues(l).Inc()] on the staging
    buffer, which is what a [GaugeVec] handed to a filter reaches. *)
Definition Set_ (l : string) (v : nat) (b : gmap string nat) : gmap string nat :=
  <[l := v]> b.

Definition Inc (l : string) (b : gmap string nat) : gmap string nat :=
  <[l := S (default 0%nat (b !! l))]> b.

Definition with_tx (g : TxGaugeVec) (b : gmap string nat) : TxGaugeVec :=
  {| tx := b; published := published g |}.

End extprom.

(** ** [pkg/storage/tsdb/block/fetcher.go] *)

Module block.
Import metadata.

Definition CorruptedMeta : string := "corrupted-meta-json".
Definition NoMeta : string := "no-meta-json".
Definition LoadedMeta : string := "loaded".
Definition FailedMeta : string := "failed".
Definition tooFreshMeta : string := "too-fresh".
Definition MarkedForDeletionMeta : string := "marked-for-deletion".

(** Modelled from the spec: [MetaFilename], declared in another file of the
    package; the descriptor of a block is at [<BlockID>/meta.json]. *)
Definition MetaFilename : string := "meta.json".

Record FetcherMetrics : Type := {
  Syncs : nat;
  SyncFailures : nat;
  Synced : extprom.TxGaugeVec;
  Modified : extprom.TxGaugeVec;
}.

(** *** Go maps of type [map[ulid.ULID]*metadata.Meta]

    Such a map is a reference: the fetcher's cache, the map of a response
    and the map handed to the filters are three map objects.  The heap holds
    the map objects by address; [make] allocates at a fresh address.  The
    descriptors the maps point to are never written by the code at hand and
    are kept by value. *)
Abbreviation MetaMap := (gmap ulid.ULID Meta) (only parsing).
Abbreviation Heap := (gmap positive (gmap ulid.ULID Meta)) (only parsing).

Definition deref (h : Heap) (a : positive) : MetaMap := default ∅ (h !! a).

Definition make (h : Heap) (m : MetaMap) : positive * Heap :=
  let a := fresh (dom h) in (a, <[a := m]> h).

(** *** What one sync sees of the bucket and of the file system *)

(** The object behind [<id>/meta.json], by what reading and decoding it
    gives. *)
Inductive MetaObject : Type :=
  | Unreadable (err : Err)      (* [io.ReadAll] fails *)
  | Garbled (err : Err)         (* [json.Unmarshal] fails *)
  | Parsed (m : Meta).

Record Env : Type := {
  (** the ids [Iter] sent to the workers before it returned, in the order in
      which the workers merged their results, and what [Iter] returned (a
      bucket error, or the context's error when the caller cancelled) *)
  iter_ids : list ulid.ULID;
  iter_err : option Err;
  (** [bkt.Exists] and [bkt.Get] on [<id>/meta.json]; the two need not agree,
      the object may go between the calls *)
  exists_meta : ulid.ULID -> Err + bool;
  get_meta : ulid.ULID -> Err + MetaObject;
  (** [metadata.ReadMarker] on [<id>/deletion-mark.json] *)
  read_marker : ulid.ULID -> Err + DeletionMark;
  (** whether writes and removals under the cache directory of a block work,
      and whether [os.ReadDir] of the cache directory does *)
  disk_ok : ulid.ULID -> bool;
  readdir_ok : bool;
}.

(** A directory of the disk cache, by what [metadata.ReadFromDir] gives on
    it; a block with no directory has no entry ([os.ErrNotExist]). *)
Inductive CachedDir : Type :=
  | DirMeta (m : Meta)
  | DirBroken.

Record BaseFetcher : Type := {
  cacheDir : option (gmap ulid.ULID CachedDir);   (* [None]: no cache dir *)
  syncs : nat;
  cached : positive;
}.

Definition with_dir (f : BaseFetcher) (d : gmap ulid.ULID CachedDir)
  : BaseFetcher :=
  {| cacheDir := Some d; syncs := syncs f; cached := cached f |}.

(** [NewBaseFetcher]: the cache starts as a new, empty map. *)
Definition NewBaseFetcher (h : Heap) (dir : option (gmap ulid.ULID CachedDir))
  : Heap * BaseFetcher :=
  let '(a, h') := make h ∅ in
  (h', {| cacheDir := dir; syncs := 0; cached := a |}).

(** The best-effort load from the local directory in [loadMeta]: the meta
    when it can be read; a directory that cannot be read is removed. *)
Definition load_from_dir (env : Env) (f : BaseFetcher) (id : ulid.ULID)
  : BaseFetcher * option Meta :=
  match cacheDir f with
  | None => (f, None)
  | Some d =>
      match d !! id with
      | Some (DirMeta m) => (f, Some m)
      | Some DirBroken =>
          (if disk_ok env id then with_dir f (delete id d) else f, None)
      | None => (f, None)
      end
  end.

(** The best-effort save to the local directory in [loadMeta]. *)
Definition save_to_dir (env : Env) (f : BaseFetcher) (id : ulid.ULID) (m : Meta)
  : BaseFetcher :=
  match cacheDir f with
  | None => f
  | Some d => if disk_ok env id then with_dir f (<[id := DirMeta m]> d) else f
  end.

(** [loadMeta]. *)
Definition loadMeta (env : Env) (h : Heap) (f : BaseFetcher) (id : ulid.ULID)
  : BaseFetcher * (Err + Meta) :=
  let metaFile := path.Join (ulid.String id) MetaFilename in
  match exists_meta env id with
  | inl err =>
      (f, inl (Wrapf err "meta.json file exists: %v" [AStr metaFile]))
  | inr false => (f, inl (Sentinel SyncMetaNotFound))
  | inr true =>
      match deref h (cached f) !! id with
      | Some m => (f, inr m)
      | None =>
          match load_from_dir env f id with
          | (f, Some m) => (f, inr m)
          | (f, None) =>
              match get_meta env id with
              | inl err =>
                  if IsObjNotFoundErr err then
                    (f, inl (Wrapf (Sentinel SyncMetaNotFound) "%v" [AErr err]))
                  else
                    (f, inl (Wrapf err "get meta file: %v" [AStr metaFile]))
              | inr (Unreadable err) =>
                  (f, inl (Wrapf err "read meta file: %v" [AStr metaFile]))
              | inr (Garbled err) =>
                  (f, inl (Wrapf (Sentinel SyncMetaCorrupted)
                             "meta.json %v unmarshal: %v"
                             [AStr metaFile; AErr err]))
              | inr (Parsed m) =>
                  if negb (Version m =? TSDBVersion1)%Z then
                    (f, inl (Errorf "unexpected meta file: %s version: %d"
                               [AStr metaFile; AInt (Version m)]))
                  else (save_to_dir env f id m, inr m)
              end
          end
      end
  end.

Record response : Type := {
  metas : positive;                     (* the address of the map *)
  partial : gmap ulid.ULID Err;
  metaErrs : list Err;
  noMetas : nat;
  corruptedMetas : nat;
}.

(** What a worker of [fetchMetadata] does with one id: load the meta and
    merge the outcome into the response. *)
Definition worker_step (env : Env)
    (st : Heap * BaseFetcher * response) (id : ulid.ULID)
  : Heap * BaseFetcher * response :=
  let '(h, f, resp) := st in
  let '(f, res) := loadMeta env h f id in
  match res with
  | inr meta =>
      (<[metas resp := <[id := meta]> (deref h (metas resp))]> h, f, resp)
  | inl err =>
      if cause_is SyncMetaNotFound err then
        (h, f, {| metas := metas resp; partial := <[id := err]> (partial resp);
                  metaErrs := metaErrs resp; noMetas := S (noMetas resp);
                  corruptedMetas := corruptedMetas resp |})
      else if cause_is SyncMetaCorrupted err then
        (h, f, {| metas := metas resp; partial := <[id := err]> (partial resp);
                  metaErrs := metaErrs resp; noMetas := noMetas resp;
                  corruptedMetas := S (corruptedMetas resp) |})
      else
        (h, f, {| metas := metas resp; partial := partial resp;
                  metaErrs := metaErrs resp ++ [err]; noMetas := noMetas resp;
                  corruptedMetas := corruptedMetas resp |})
  end.

(** [fetchMetadata] up to [eg.Wait()]: the counter, the new response and
    the workers' passes over the ids.  The workers run side by side and merge
    what they load under a mutex; the merges are taken here in the order of
    [iter_ids].  (The fetcher has at least one worker: with a concurrency
    of 0 nothing would read the channel.) *)
Definition sync_workers (env : Env) (h : Heap) (f : BaseFetcher)
  : Heap * BaseFetcher * response :=
  let f := {| cacheDir := cacheDir f; syncs := S (syncs f); cached := cached f |} in
  let '(a, h) := make h ∅ in
  let resp := {| metas := a; partial := ∅; metaErrs := [];
                 noMetas := 0; corruptedMetas := 0 |} in
  foldl (worker_step env) (h, f, resp) (iter_ids env).

(** The best-effort cleanup of the disk cache: the directories of the blocks
    that are not in the fresh map are removed. *)
Definition cleanup_dirs (env : Env) (loaded : MetaMap) (f : BaseFetcher)
  : BaseFetcher :=
  match cacheDir f with
  | None => f
  | Some d =>
      if readdir_ok env then
        with_dir f
          (filter (λ kv, is_Some (loaded !! kv.1) \/ disk_ok env kv.1 = false) d)
      else f
  end.

(** [fetchMetadata]. *)
Definition fetchMetadata (env : Env) (h : Heap) (f : BaseFetcher)
  : Heap * BaseFetcher * (Err + response) :=
  let '(h, f, resp) := sync_workers env h f in
  match iter_err env with
  | Some err => (h, f, inl (Wrapf err "BaseFetcher: iter bucket" []))
  | None =>
      if (0 <? length (metaErrs resp))%nat then (h, f, inr resp)
      else
        let '(a, h) := make h (deref h (metas resp)) in
        let f := {| cacheDir := cacheDir f; syncs := syncs f; cached := a |} in
        (h, cleanup_dirs env (deref h (metas resp)) f, inr resp)
  end.

(** *** Filters *)

(** A [MetadataFilter], by what one call of [Filter] does: it is handed the
    map and the two gauge vectors, may delete entries of the map and move the
    gauges, and returns an error or nil. *)
Record FilterOut : Type := {
  out_metas : MetaMap;
  out_synced : gmap string nat;
  out_modified : gmap string nat;
  out_err : option Err;
}.

Definition MetadataFilter : Type :=
  MetaMap -> gmap string nat -> gmap string nat -> FilterOut.

(** The loop over the filters in [fetch]; it stops at the first error. *)
Fixpoint run_filters (filters : list MetadataFilter)
    (m : MetaMap) (synced modified : gmap string nat) : FilterOut :=
  match filters with
  | [] => {| out_metas := m; out_synced := synced; out_modified := modified;
             out_err := None |}
  | flt :: rest =>
      let o := flt m synced modified in
      match out_err o with
      | Some err => o
      | None => run_filters rest (out_metas o) (out_synced o) (out_modified o)
      end
  end.

(** What [Fetch] returns: the metas (the address of a map, or nil), the
    partial map (or nil) and the error (or nil). *)
Record FetchResult : Type := {
  res_metas : option positive;
  res_partial : option (gmap ulid.ULID Err);
  res_err : option Err;
}.

Definition failed (metrics : FetcherMetrics) : FetcherMetrics :=
  {| Syncs := Syncs metrics; SyncFailures := S (SyncFailures metrics);
     Synced := Synced metrics; Modified := Modified metrics |}.

(** [fetch], from the return of [f.g.Do] on.  [v] is what [Do] returned:
    the outcome of the one [fetchMetadata] in flight, which this caller ran
    itself or shares with the caller that did. *)
Definition fetch_after (v : Err + response) (h : Heap)
    (metrics : FetcherMetrics) (filters : list MetadataFilter)
  : Heap * FetcherMetrics * FetchResult :=
  match v with
  | inl err =>
      (h, failed metrics,
       {| res_metas := None; res_partial := None; res_err := Some err |})
  | inr resp =>
      (* Copy as same response might be reused by different goroutines. *)
      let '(a, h) := make h (deref h (metas resp)) in
      let synced :=
        extprom.Set_ CorruptedMeta (corruptedMetas resp)
          (extprom.Set_ NoMeta (noMetas resp)
             (extprom.Set_ FailedMeta (length (metaErrs resp))
                (extprom.tx (Synced metrics)))) in
      let o := run_filters filters (deref h a) synced
                 (extprom.tx (Modified metrics)) in
      let h := <[a := out_metas o]> h in
      match out_err o with
      | Some err =>
          (h,
           failed
             {| Syncs := Syncs metrics; SyncFailures := SyncFailures metrics;
                Synced := extprom.with_tx (Synced metrics) (out_synced o);
                Modified := extprom.with_tx (Modified metrics) (out_modified o) |},
           {| res_metas := None; res_partial := None;
              res_err := Some (Wrapf err "filter metas" []) |})
      | None =>
          let synced := extprom.Set_ LoadedMeta (size (out_metas o)) (out_synced o) in
          let metrics :=
            {| Syncs := Syncs metrics; SyncFailures := SyncFailures metrics;
               Synced := extprom.Submit (extprom.with_tx (Synced metrics) synced);
               Modified :=
                 extprom.Submit
                   (extprom.with_tx (Modified metrics) (out_modified o)) |} in
          if (0 <? length (metaErrs resp))%nat then
            (h, failed metrics,
             {| res_metas := Some a; res_partial := Some (partial resp);
                res_err := Some (Wrapf (Multi (metaErrs resp)) "incomplete view" []) |})
          else
            (h, metrics,
             {| res_metas := Some a; res_partial := Some (partial resp);
                res_err := None |})
      end
  end.

Definition begin_fetch (metrics : FetcherMetrics) : FetcherMetrics :=
  {| Syncs := S (Syncs metrics); SyncFailures := SyncFailures metrics;
     Synced := extprom.ResetTx (Synced metrics);
     Modified := extprom.ResetTx (Modified metrics) |}.

(** [fetch], for the caller whose [f.g.Do] runs [fetchMetadata]. *)
Definition fetch (env : Env) (h : Heap) (f : BaseFetcher)
    (metrics : FetcherMetrics) (filters : list MetadataFilter)
  : Heap * BaseFetcher * FetcherMetrics * FetchResult :=
  let metrics := begin_fetch metrics in
  let '(h, f, v) := fetchMetadata env h f in
  let '(h, metrics, res) := fetch_after v h metrics filters in
  (h, f, metrics, res).

(** [fetch], for a caller whose [f.g.Do] finds a [fetchMetadata] in flight
    and is handed its outcome [v]; [h] is the heap as that run left it. *)
Definition fetch_shared (v : Err + response) (h : Heap)
    (metrics : FetcherMetrics) (filters : list MetadataFilter)
  : Heap * FetcherMetrics * FetchResult :=
  fetch_after v h (begin_fetch metrics) filters.

Record MetaFetcher : Type := {
  wrapped : BaseFetcher;
  metrics_of : FetcherMetrics;
  filters_of : list MetadataFilter;
}.

(** [MetaFetcher.Fetch]. *)
Definition Fetch (env : Env) (h : Heap) (mf : MetaFetcher)
  : Heap * MetaFetcher * FetchResult :=
  let '(h, f, metrics, res) :=
    fetch env h (wrapped mf) (metrics_of mf) (filters_of mf) in
  (h, {| wrapped := f; metrics_of := metrics; filters_of := filters_of mf |}, res).

(** *** [ConsistencyDelayMetaFilter] *)

(** Conversion to [uint64]. *)
Definition uint64 (z : Z) : Z := z mod 2 ^ 64.

(** The condition of the [if] in [ConsistencyDelayMetaFilter.Filter].
    [now] is [ulid.Now()], in milliseconds; [consistencyDelay] is a
    [time.Duration], in nanoseconds; the subtraction is one of [uint64]s. *)
Definition too_fresh (S : SourceTypes) (now consistencyDelay : Z)
    (id : ulid.ULID) (meta : Meta) : bool :=
  (uint64 (now - ulid.Time id) <? uint64 (Z.quot consistencyDelay 1000000))%Z
  && negb (String.eqb (Source meta) (BucketRepairSource S))
  && negb (String.eqb (Source meta) (CompactorSource S))
  && negb (String.eqb (Source meta) (CompactorRepairSource S)).

Definition ConsistencyDelayMetaFilter_Filter (S : SourceTypes)
    (now consistencyDelay : Z) : MetadataFilter :=
  λ metas synced modified,
    let fresh := filter (λ kv, too_fresh S now consistencyDelay kv.1 kv.2 = true) metas in
    {| out_metas :=
         filter (λ kv, too_fresh S now consistencyDelay kv.1 kv.2 = false) metas;
       out_synced := Nat.iter (size fresh) (extprom.Inc tooFreshMeta) synced;
       out_modified := modified;
       out_err := None |}.

(** *** [IgnoreDeletionMarkFilter] *)

Record IgnoreDeletionMarkFilter : Type := {
  delay : Z;                                    (* nanoseconds *)
  deletionMarkMap : gmap ulid.ULID DeletionMark;
}.

(** [DeletionMarkBlocks]: a copy of the published map. *)
Definition DeletionMarkBlocks (f : IgnoreDeletionMarkFilter)
  : gmap ulid.ULID DeletionMark := deletionMarkMap f.

(** How one run of [Filter] was scheduled: the ids each worker received, the
    workers in the order in which they returned; what the goroutine that
    distributes the ids returned (the context's error, or nil) and its rank
    in that order.  [eg.Wait()] returns the first error in that order. *)
Record Schedule : Type := {
  work : list (list ulid.ULID);
  sched_err : option Err;
  sched_rank : nat;
}.

(** What the workers share: the local map of marks, the metas, the gauges. *)
Record Shared : Type := {
  marks : gmap ulid.ULID DeletionMark;
  sh_metas : MetaMap;
  sh_synced : gmap string nat;
}.

(** The body of a worker's loop, for one id.  [now] is in nanoseconds since
    the epoch; the comparison of the two durations, which the code makes on
    their values in seconds, is made on the nanoseconds. *)
Definition probe (env : Env) (now : Z) (f : IgnoreDeletionMarkFilter)
    (st : Shared * option Err) (id : ulid.ULID) : Shared * option Err :=
  let '(sh, lastErr) := st in
  match read_marker env id with
  | inl err =>
      if cause_is MarkerNotFound err then (sh, lastErr)
      else if cause_is UnmarshalMarker err then (sh, lastErr)
      else (sh, Some err)
  | inr m =>
      if (delay f <? now - DeletionTime m * 1000000000)%Z then
        ({| marks := <[id := m]> (marks sh);
            sh_metas := delete id (sh_metas sh);
            sh_synced := extprom.Inc MarkedForDeletionMeta (sh_synced sh) |},
         lastErr)
      else
        ({| marks := <[id := m]> (marks sh); sh_metas := sh_metas sh;
            sh_synced := sh_synced sh |}, lastErr)
  end.

(** A worker: it drains its ids and returns the last error it met. *)
Definition worker (env : Env) (now : Z) (f : IgnoreDeletionMarkFilter)
    (sh : Shared) (ids : list ulid.ULID) : Shared * option Err :=
  foldl (probe env now f) (sh, None) ids.

(** The workers, in the order in which they return, with their results. *)
Fixpoint workers (env : Env) (now : Z) (f : IgnoreDeletionMarkFilter)
    (sh : Shared) (w : list (list ulid.ULID)) : Shared * list (option Err) :=
  match w with
  | [] => (sh, [])
  | ids :: rest =>
      let '(sh, e) := worker env now f sh ids in
      let '(sh, errs) := workers env now f sh rest in
      (sh, e :: errs)
  end.

(** [eg.Wait()]: the first error among the goroutines' results. *)
Fixpoint first_error (results : list (option Err)) : option Err :=
  match results with
  | [] => None
  | Some err :: _ => Some err
  | None :: rest => first_error rest
  end.

(** [IgnoreDeletionMarkFilter.Filter]. *)
Definition IgnoreDeletionMarkFilter_Filter (env : Env) (now : Z) (sch : Schedule)
    (f : IgnoreDeletionMarkFilter)
    (metas : MetaMap) (synced modified : gmap string nat)
  : IgnoreDeletionMarkFilter * FilterOut :=
  let '(sh, errs) :=
    workers env now f {| marks := ∅; sh_metas := metas; sh_synced := synced |}
            (work sch) in
  let results :=
    (take (sched_rank sch) errs ++ [sched_err sch] ++ drop (sched_rank sch) errs)%list in
  match first_error results with
  | Some err =>
      (f, {| out_metas := sh_metas sh; out_synced := sh_synced sh;
             out_modified := modified;
             out_err := Some (Wrapf err "filter blocks marked for deletion" []) |})
  | None =>
      ({| delay := delay f; deletionMarkMap := marks sh |},
       {| out_metas := sh_metas sh; out_synced := sh_synced sh;
          out_modified := modified; out_err := None |})
  end.

(** The filter as an element of a filter chain. *)
Definition deletion_mark_filter (env : Env) (now : Z) (sch : Schedule)
    (f : IgnoreDeletionMarkFilter) : MetadataFilter :=
  λ metas synced modified,
    (IgnoreDeletionMarkFilter_Filter env now sch f metas synced modified).2.

End block.

(** ** The job readiness gate *)

Module job.
Import metadata.

(** Modelled from the spec: [jobWaitPeriodElapsed], whose code is outside the
    files at hand (its test is among them).  A job is given by its metas, in
    order; [attributes id] is what the probe of [<id>/meta.json] returns, an
    error or the time of the last modification; times and durations are in
    nanoseconds.  With no wait period the job is ready.  Otherwise the metas
    of level 1 are probed in order: a probe that fails ends the scan with the
    error and that meta; a meta modified within the wait period ends it
    with that meta and no error; with none of either, the job is ready.
    The second component is the list of the blocks probed. *)
Fixpoint scan (attributes : ulid.ULID -> Err + Z) (now waitPeriod : Z)
    (metas : list Meta) (probed : list ulid.ULID)
  : (bool * option Meta * option Err) * list ulid.ULID :=
  match metas with
  | [] => ((true, None, None), probed)
  | meta :: rest =>
      if (Level meta =? 1)%Z then
        match attributes (ULID meta) with
        | inl err => ((false, Some meta, Some err), (probed ++ [ULID meta])%list)
        | inr lastModified =>
            if (now - lastModified <? waitPeriod)%Z then
              ((false, Some meta, None), (probed ++ [ULID meta])%list)
            else scan attributes now waitPeriod rest (probed ++ [ULID meta])%list
        end
      else scan attributes now waitPeriod rest probed
  end.

Definition jobWaitPeriodElapsed (attributes : ulid.ULID -> Err + Z)
    (now : Z) (metas : list Meta) (waitPeriod : Z)
  : (bool * option Meta * option Err) * list ulid.ULID :=
  if (waitPeriod =? 0)%Z then ((true, None, None), [])
  else scan attributes now waitPeriod metas [].

End job.



(** ** The blocks and buckets of the examples on the readiness gate *)

Module job_examples.
Import metadata.

Definition minute : Z := 60000000000.

(** The blocks of [TestJobWaitPeriodElapsed]: two of level 1, two of
    level 2. *)
Definition meta_at (id : ulid.ULID) (level : Z) : Meta :=
  {| ULID := id; MinTime := 0; MaxTime := 0; Version := 1; Level := level;
     Sources := []; Labels := None; Source := ""; Files := [] |}.

Definition meta1 : Meta := meta_at 1 1.
Definition meta2 : Meta := meta_at 2 1.
Definition meta3 : Meta := meta_at 3 2.
Definition meta4 : Meta := meta_at 4 2.

Definition now : Z := 100 * minute.

(** A bucket in which block [id] was last modified [ago id] minutes ago. *)
Definition modified (ago : ulid.ULID -> Z) : ulid.ULID -> Err + Z :=
  λ id, inr (now - ago id * minute)%Z.


End job_examples.


(** ** Vocabulary of the fetcher properties *)

Module fetch_spec.
Import block.

(** The probe of the deletion mark of [id] fails with an error that is
    neither not-found nor unmarshal. *)
Definition probe_fails (env : Env) (id : ulid.ULID) : Prop :=
  exists err, read_marker env id = inl err
              /\ cause_is MarkerNotFound err = false
              /\ cause_is UnmarshalMarker err = false.

(** The mark that the probe of [id] found, if it found one. *)
Definition probed_mark (env : Env) (id : ulid.ULID)
  : option metadata.DeletionMark :=
  match read_marker env id with
  | inr m => Some m
  | inl _ => None
  end.

End fetch_spec.


(** ** A run of the deletion-mark filter, for the examples *)

Module mark_examples.
Import block metadata.

(** Block 1 carries a deletion mark of second 1000; the probe of block 2
    fails with a bucket error; no other block is marked. *)
Definition env : Env :=
  {| iter_ids := []; iter_err := None;
     exists_meta := λ _, inr false;
     get_meta := λ _, inl (Foreign true "not found");
     read_marker := λ id,
       if (id =? 1)%N then inr {| ID := 1; DeletionTime := 1000 |}
       else if (id =? 2)%N then inl (Foreign false "bucket timeout")
       else inl (Wrapf (Sentinel MarkerNotFound) "%v" [AStr "deletion-mark.json"]);
     disk_ok := λ _, true; readdir_ok := true |}.

Definition two_metas : gmap ulid.ULID Meta :=
  {[ 1%N := examples.meta_of 1 1 None "" ;
     2%N := examples.meta_of 2 1 None "" ]}.

(** One worker receives both ids; the context is not cancelled. *)
Definition one_worker : Schedule :=
  {| work := [[1%N; 2%N]]; sched_err := None; sched_rank := 1 |}.

Definition new_filter : IgnoreDeletionMarkFilter :=
  {| delay := 0; deletionMarkMap := ∅ |}.

(** Second 2000, in nanoseconds. *)
Definition now : Z := 2000 * 1000000000.

End mark_examples.


(** ** Vocabulary of the cache properties *)

Module cache_spec.
Import block.

(** The fetcher's cache is a map of the heap. *)
Definition wf (h : Heap) (f : BaseFetcher) : Prop := cached f ∈ dom h.

(** The block is in neither cache, memory or disk, so that [loadMeta] goes
    to the bucket for it. *)
Definition not_cached (h : Heap) (f : BaseFetcher) (id : ulid.ULID) : Prop :=
  deref h (cached f) !! id = None
  /\ forall d m, cacheDir f = Some d -> d !! id <> Some (DirMeta m).

(** The staging gauges with which [fetch] enters the filter chain. *)
Definition synced_before_filters (metrics : FetcherMetrics) (resp : response)
  : gmap string nat :=
  extprom.Set_ CorruptedMeta (corruptedMetas resp)
    (extprom.Set_ NoMeta (noMetas resp)
       (extprom.Set_ FailedMeta (length (metaErrs resp))
          (extprom.tx (Synced (begin_fetch metrics))))).

(** The filter chain, on the map of a response. *)
Definition filtered (filters : list MetadataFilter) (metrics : FetcherMetrics)
    (h : Heap) (resp : response) : FilterOut :=
  run_filters filters (deref h (metas resp))
    (synced_before_filters metrics resp)
    (extprom.tx (Modified (begin_fetch metrics))).

(** The [meta.json] of the block is there for [Exists] and gone for [Get]. *)
Definition vanishes (env : Env) (id : ulid.ULID) (err : Err) : Prop :=
  exists_meta env id = inr true /\ get_meta env id = inl err
  /\ IsObjNotFoundErr err = true.

(** The [meta.json] of the block parses and carries another version than the
    one recognised. *)
Definition other_version (env : Env) (id : ulid.ULID) (m : Meta) : Prop :=
  exists_meta env id = inr true /\ get_meta env id = inr (Parsed m)
  /\ metadata.Version m <> metadata.TSDBVersion1.

(** The error [loadMeta] makes for such a block. *)
Definition version_error (id : ulid.ULID) (m : Meta) : Err :=
  Errorf "unexpected meta file: %s version: %d"
    [AStr (path.Join (ulid.String id) MetaFilename); AInt (metadata.Version m)].

End cache_spec.


(** ** The components of the outcome of [fetch] *)

Module fetch_out.
Import block.

(** The components of what [fetch] leaves. *)
Definition heap_of (out : Heap * BaseFetcher * FetcherMetrics * FetchResult)
  : Heap := out.1.1.1.
Definition fetcher_of (out : Heap * BaseFetcher * FetcherMetrics * FetchResult)
  : BaseFetcher := out.1.1.2.
Definition metrics_of_out (out : Heap * BaseFetcher * FetcherMetrics * FetchResult)
  : FetcherMetrics := out.1.2.
Definition result_of (out : Heap * BaseFetcher * FetcherMetrics * FetchResult)
  : FetchResult := out.2.

End fetch_out.


(** ** Buckets for the examples on the sync *)

Module sync_examples.
Import block metadata.

Definition no_metrics : FetcherMetrics :=
  {| Syncs := 0; SyncFailures := 0;
     Synced := {| extprom.tx := ∅; extprom.published := ∅ |};
     Modified := {| extprom.tx := ∅; extprom.published := ∅ |} |}.

(** A new fetcher with no cache directory, and the heap with its cache. *)
Definition heap0 : gmap positive (gmap ulid.ULID Meta) := (NewBaseFetcher ∅ None).1.
Definition fetcher0 : BaseFetcher := (NewBaseFetcher ∅ None).2.

Definition good (id : ulid.ULID) : Meta := examples.meta_of id 1 None "".

Definition marker_absent : Err :=
  Wrapf (Sentinel MarkerNotFound) "%v" [AStr "deletion-mark.json"].

(** A bucket with block 1 alone, whose [meta.json] is in order and which
    carries a deletion mark of second 1000. *)
Definition marked_block : Env :=
  {| iter_ids := [1%N]; iter_err := None;
     exists_meta := λ _, inr true;
     get_meta := λ id, inr (Parsed (good id));
     read_marker := λ id, inr {| ID := id; DeletionTime := 1000 |};
     disk_ok := λ _, true; readdir_ok := true |}.

(** A bucket with blocks 1 and 2: [Exists] fails on the [meta.json] of
    block 2 with a bucket error, and so does the probe of the deletion mark
    of block 1. *)
Definition failing_bucket : Env :=
  {| iter_ids := [1%N; 2%N]; iter_err := None;
     exists_meta := λ id,
       if (id =? 2)%N then inl (Foreign false "bucket timeout") else inr true;
     get_meta := λ id, inr (Parsed (good id));
     read_marker := λ _, inl (Foreign false "bucket timeout");
     disk_ok := λ _, true; readdir_ok := true |}.

(** A bucket with block 3 alone, whose [meta.json] parses and has
    version 2. *)
Definition version2_block : Env :=
  {| iter_ids := [3%N]; iter_err := None;
     exists_meta := λ _, inr true;
     get_meta := λ id, inr (Parsed (examples.meta_of id 2 None ""));
     read_marker := λ _, inl marker_absent;
     disk_ok := λ _, true; readdir_ok := true |}.

(** A bucket with block 4 alone, whose [meta.json] is there for [Exists] and
    gone for [Get]. *)
Definition vanishing_block : Env :=
  {| iter_ids := [4%N]; iter_err := None;
     exists_meta := λ _, inr true;
     get_meta := λ _, inl (Foreign true "object not found");
     read_marker := λ _, inl marker_absent;
     disk_ok := λ _, true; readdir_ok := true |}.

(** The deletion-mark filter, with no delay, run at second 2000 by one
    worker that receives block 1. *)
Definition mark_filter (env : Env) : MetadataFilter :=
  deletion_mark_filter env (2000 * 1000000000)
    {| work := [[1%N]]; sched_err := None; sched_rank := 1 |}
    {| delay := 0; deletionMarkMap := ∅ |}.

End sync_examples.


(** ** A run of the upload protocol, for the examples *)

Module protocol_examples.
Import objstore http protocol.

Definition empty_bucket : Bucket := {| objects := ∅; faults := []; calls := [] |}.

(** The request that begins the upload of block 7, with a descriptor that
    carries the label of an ingester. *)
Definition begin_request : Request :=
  {| block := ulid.String 7; query_path := ""; tenant := Some "user-1";
     Body := Some (JSONMeta
                     (examples.meta_of 7 1
                        (Some {[ "__ingester_id__" := "ingester-1" ]}) ""));
     ContentLength := 200 |}.

Definition file_request (pth : string) : Request :=
  {| block := ulid.String 7; query_path := pth; tenant := Some "user-1";
     Body := Some (Blob "abc"); ContentLength := 3 |}.

Definition commit_request : Request :=
  {| block := ulid.String 7; query_path := ""; tenant := Some "user-1";
     Body := Some (Blob ""); ContentLength := 0 |}.

(** The bucket after begin, and after begin and the upload of the index. *)
Definition begun : Bucket :=
  (step examples.labels empty_bucket (Begin begin_request "user-1" 7)).1.

Definition with_index : Bucket :=
  (step examples.labels begun (File (file_request "index"))).1.

End protocol_examples.


(** ** The entry point of the begin and commit requests *)

Module handlers.
Import objstore http compactor.

Section HandleBlockUpload.
Context (L : mimir_tsdb.ExternalLabels).
(** [ulid.Parse] of the library, [None] when it returns an error. *)
Context (Parse : string -> option ulid.ULID).

(** [HandleBlockUpload]; [uploadComplete] is what
    [r.URL.Query().Get("uploadComplete")] returns. *)
Definition HandleBlockUpload (bkt : Bucket) (r : Request)
    (uploadComplete : string) : Bucket * Response :=
  let blockID := block r in
  if String.eqb blockID "" then
    (bkt, Error "missing block ID" StatusBadRequest)
  else
  match Parse blockID with
  | None => (bkt, Error "invalid block ID" StatusBadRequest)
  | Some bULID =>
  match tenant r with
  | None => (bkt, Error "invalid tenant ID" StatusBadRequest)
  | Some tenantID =>
  if String.eqb uploadComplete "true" then
    completeBlockUpload bkt r tenantID bULID
  else
    createBlockUpload L bkt r tenantID bULID
  end end.

End HandleBlockUpload.

End handlers.

(** ** Buckets for the examples on failed and repeated operations *)

Module commit_examples.
Import objstore http protocol.

(** The bucket of [protocol_examples.with_index], on which deleting the
    staged descriptor of block 7 fails. *)
Definition delete_fails : Bucket :=
  {| objects := objects protocol_examples.with_index;
     faults := [OpDelete "00000000000000000000000007/meta.json.temp"];
     calls := [] |}.

(** The bucket after the upload of block 7 was begun, its index uploaded and
    the upload completed. *)
Definition committed : Bucket :=
  (step examples.labels protocol_examples.with_index
        (Commit protocol_examples.commit_request "user-1" 7)).1.

(** A parser that knows the text of block 7 only. *)
Definition parse7 (s : string) : option ulid.ULID :=
  if String.eqb s "00000000000000000000000007" then Some 7%N else None.

End commit_examples.


(** ** Vocabulary of the filter properties *)

Module filter_spec.
Import block metadata.

(** The meta has one of the three sources that the consistency delay does
    not apply to. *)
Definition exempt (S : SourceTypes) (meta : Meta) : Prop :=
  Source meta = BucketRepairSource S \/ Source meta = CompactorSource S
  \/ Source meta = CompactorRepairSource S.

(** The probe of [id] finds a deletion mark that is older than the delay of
    the filter. *)
Definition expired (env : Env) (now : Z) (f : IgnoreDeletionMarkFilter)
    (id : ulid.ULID) : bool :=
  match read_marker env id with
  | inr m => (delay f <? now - DeletionTime m * 1000000000)%Z
  | inl _ => false
  end.

(** The filters of this file, as elements of a filter chain. *)
Inductive standard_filter : MetadataFilter -> Prop :=
  | standard_delay S now consistencyDelay :
      standard_filter (ConsistencyDelayMetaFilter_Filter S now consistencyDelay)
  | standard_marks env now sch f :
      standard_filter (deletion_mark_filter env now sch f).

End filter_spec.


(** ** [ParseRelabelConfig] *)

Module relabel_config.

(** [relabel.Keep], [relabel.Drop] and [relabel.HashMod] of the Prometheus
    library; an action is a string. *)
Definition Keep : string := "keep".
Definition Drop : string := "drop".
Definition HashMod : string := "hashmod".

Definition SelectorSupportedRelabelActions : gset string :=
  {[ Keep; Drop; HashMod ]}.

Section Parse.
(** A [relabel.Config], of which the code at hand reads the action. *)
Context {Config : Type} (Action : Config -> string).

(** [ParseRelabelConfig]; [unmarshal] is what [yaml.Unmarshal] makes of the
    content, [supportedActions] is [None] for a nil map. *)
Definition ParseRelabelConfig (unmarshal : Err + list Config)
    (supportedActions : option (gset string)) : Err + list Config :=
  match unmarshal with
  | inl err => inl (Wrapf err "parsing relabel configuration" [])
  | inr relabelConfig =>
      match supportedActions with
      | None => inr relabelConfig
      | Some supported =>
          match List.find (λ cfg, bool_decide (Action cfg ∉ supported))
                          relabelConfig with
          | Some cfg =>
              inl (Errorf "unsupported relabel action: %v" [AStr (Action cfg)])
          | None => inr relabelConfig
          end
      end
  end.

End Parse.

End relabel_config.


(** ** Buckets and fetchers for the examples on the caches *)

Module cache_examples.
Import block metadata.

(** A bucket with four blocks: the [meta.json] of block 1 is in order, that
    of block 2 is gone when it is fetched, that of block 3 does not parse,
    and [Exists] fails on that of block 4. *)
Definition mixed_bucket : Env :=
  {| iter_ids := [1%N; 2%N; 3%N; 4%N]; iter_err := None;
     exists_meta := λ id,
       if (id =? 4)%N then inl (Foreign false "bucket timeout") else inr true;
     get_meta := λ id,
       if (id =? 1)%N then inr (Parsed (sync_examples.good id))
       else if (id =? 2)%N then inl (Foreign true "object not found")
       else inr (Garbled (Foreign false "unexpected end of JSON input"));
     read_marker := λ _, inl sync_examples.marker_absent;
     disk_ok := λ _, true; readdir_ok := true |}.

(** A bucket that lists block 1 and finds its [meta.json], and fails every
    [Get]. *)
Definition bucket_down : Env :=
  {| iter_ids := [1%N]; iter_err := None;
     exists_meta := λ _, inr true;
     get_meta := λ _, inl (Foreign false "bucket timeout");
     read_marker := λ _, inl sync_examples.marker_absent;
     disk_ok := λ _, true; readdir_ok := true |}.

(** The heap and the fetcher after a first sync of the bucket with block 1
    alone. *)
Definition synced_heap : gmap positive (gmap ulid.ULID Meta) :=
  (fetchMetadata sync_examples.marked_block sync_examples.heap0
     sync_examples.fetcher0).1.1.
Definition synced_fetcher : BaseFetcher :=
  (fetchMetadata sync_examples.marked_block sync_examples.heap0
     sync_examples.fetcher0).1.2.

(** A new fetcher with an empty cache directory, and the heap with its
    cache. *)
Definition dir_heap : gmap positive (gmap ulid.ULID Meta) :=
  (NewBaseFetcher ∅ (Some ∅)).1.
Definition dir_fetcher : BaseFetcher := (NewBaseFetcher ∅ (Some ∅)).2.

End cache_examples.


(** ** Vocabulary of the version invariant *)

Module version_spec.
Import block metadata.

(** Every meta of the map has the version that [loadMeta] accepts. *)
Definition metas_v1 (M : gmap ulid.ULID Meta) : Prop :=
  forall id m, M !! id = Some m -> Version m = TSDBVersion1.

(** Every meta that can be read from the disk cache has that version. *)
Definition disk_v1 (f : BaseFetcher) : Prop :=
  forall d id m,
    cacheDir f = Some d -> d !! id = Some (DirMeta m) ->
    Version m = TSDBVersion1.

End version_spec.


(** * Properties *)

Example Base_ex1 : path.Base "a/b/meta.json" = "meta.json". Proof. reflexivity. Qed.
Example Base_ex2 : path.Base "meta.json///" = "meta.json". Proof. reflexivity. Qed.
Example Base_ex3 : path.Base "///" = "/". Proof. reflexivity. Qed.
Example Base_ex4 : path.Base "" = ".". Proof. reflexivity. Qed.
Example Clean_ex1 : path.Clean "a//b/./c/../d/" = "a/b/d". Proof. reflexivity. Qed.
Example Clean_ex2 : path.Clean "/../a/.." = "/". Proof. reflexivity. Qed.
Example Clean_ex3 : path.Clean "../../a" = "../../a". Proof. reflexivity. Qed.
Example Clean_ex4 : path.Clean "a/.." = ".". Proof. reflexivity. Qed.
Example Join_ex1 : path.Join "01ABC" "chunks/000001" = "01ABC/chunks/000001".
Proof. reflexivity. Qed.

(** ** The matcher decides the language of the expression *)

Section RegexpFacts.
Import regexp.

Lemma append_nil_l (s : string) : "" +:+ s = s.
Proof. reflexivity. Qed.

Lemma append_cons (c : ascii) (s1 s2 : string) :
  String c s1 +:+ s2 = String c (s1 +:+ s2).
Proof. reflexivity. Qed.

Lemma append_assoc (a b c : string) : a +:+ (b +:+ c) = (a +:+ b) +:+ c.
Proof. induction a as [|x a IH]; [done|]. by rewrite !append_cons, IH. Qed.

Lemma app_empty_inv (s1 s2 : string) : s1 +:+ s2 = "" -> s1 = "" /\ s2 = "".
Proof. destruct s1; [rewrite append_nil_l; auto | discriminate]. Qed.

Lemma nullable_lang r : nullable r = true <-> lang r "".
Proof.
  split.
  - induction r; simpl; intros H; try discriminate.
    + constructor.
    + apply andb_prop in H as [H1 H2].
      change "" with ("" +:+ ""). constructor; auto.
    + apply orb_prop in H as [H|H]; [apply lang_alt_l | apply lang_alt_r]; auto.
  - intros H. remember "" as s eqn:Es. induction H; simpl; try discriminate; auto.
    + apply app_empty_inv in Es as [-> ->]. rewrite IHlang1, IHlang2; auto.
    + rewrite IHlang; auto.
    + rewrite IHlang; auto. apply orb_true_r.
Qed.

Lemma lang_deriv_intro r c s : lang r (String c s) -> lang (deriv c r) s.
Proof.
  intros H. remember (String c s) as w eqn:Ew. revert c s Ew.
  induction H; intros a w Ew; simpl; try discriminate.
  - injection Ew as -> <-. rewrite Ascii.eqb_refl. constructor.
  - injection Ew as -> <-. rewrite H. constructor.
  - destruct s1 as [|b s1]; [rewrite append_nil_l in Ew|rewrite append_cons in Ew].
    + subst s2. apply lang_alt_r.
      apply nullable_lang in H as ->. eauto.
    + injection Ew as -> <-. apply lang_alt_l. constructor; eauto.
  - apply lang_alt_l; eauto.
  - apply lang_alt_r; eauto.
Qed.

Lemma lang_deriv_elim r c s : lang (deriv c r) s -> lang r (String c s).
Proof.
  revert s. induction r; simpl; intros s H.
  - inversion H.
  - inversion H.
  - destruct (Ascii.eqb_spec c c0) as [->|]; inversion H; subst. constructor.
  - destruct (is_digit c) eqn:Ed; inversion H; subst. by constructor.
  - inversion H as [| | | | ? ? ? H1 | ? ? ? H1]; subst.
    + inversion H1; subst.
      change (String c (s1 +:+ s2)) with (String c s1 +:+ s2).
      constructor; auto.
    + destruct (nullable r1) eqn:En; [|inversion H1].
      change (String c s) with ("" +:+ String c s).
      constructor; [by apply nullable_lang | auto].
  - inversion H; subst; [apply lang_alt_l | apply lang_alt_r]; auto.
Qed.

Lemma MatchString_lang r s : MatchString r s = true <-> lang r s.
Proof.
  revert r. induction s as [|c s IH]; intros r; simpl.
  - apply nullable_lang.
  - rewrite IH. split; [apply lang_deriv_elim | apply lang_deriv_intro].
Qed.

Lemma lang_Lit s w : lang (Lit s) w <-> w = s.
Proof.
  revert w. induction s as [|c s IH]; intros w; simpl.
  - split; [by inversion 1 | intros ->; constructor].
  - split.
    + inversion 1 as [| | |? ? ? ? H1 H2| |]; subst.
      inversion H1; subst. apply IH in H2 as ->. reflexivity.
    + intros ->. change (String c s) with (String c "" +:+ s).
      constructor; [constructor | by apply IH].
Qed.

Lemma lang_Rep_Digit n w :
  lang (Rep n Digit) w <-> String.length w = n /\ all_digits w = true.
Proof.
  revert w. induction n as [|n IH]; intros w; simpl.
  - split.
    + by inversion 1.
    + intros [Hl _]. destruct w; [constructor | discriminate].
  - split.
    + inversion 1 as [| | |? ? ? ? H1 H2| |]; subst.
      inversion H1; subst. apply IH in H2 as [<- Hd].
      rewrite append_cons, append_nil_l. simpl.
      split; [done | by rewrite Hd, andb_true_r].
    + intros [Hl Hd]. destruct w as [|c w]; [discriminate|].
      simpl in *. apply andb_prop in Hd as [Hc Hd].
      change (String c w) with (String c "" +:+ w).
      constructor; [by constructor | apply IH; split; [lia | done]].
Qed.

End RegexpFacts.

(** ** [sanitizeMeta] *)

Section SanitizeFacts.
Import compactor metadata.
Context (L : mimir_tsdb.ExternalLabels).

Lemma classify_tenant :
  classify L (mimir_tsdb.TenantIDExternalLabel L) = Preserved.
Proof. unfold classify. by rewrite String.eqb_refl. Qed.

Lemma is_unused_tenant :
  is_unused L (mimir_tsdb.TenantIDExternalLabel L) = false.
Proof. unfold is_unused. by rewrite classify_tenant. Qed.

Lemma sanitized_labels_tenant tenantID m :
  sanitized_labels L tenantID m !! mimir_tsdb.TenantIDExternalLabel L
  = Some tenantID.
Proof.
  unfold sanitized_labels. apply map_lookup_filter_Some. split.
  - apply lookup_insert_eq.
  - apply is_unused_tenant.
Qed.

Lemma sanitized_labels_idem tenantID m :
  sanitized_labels L tenantID (sanitized_labels L tenantID m)
  = sanitized_labels L tenantID m.
Proof.
  unfold sanitized_labels at 1.
  rewrite (insert_id _ _ _ (sanitized_labels_tenant tenantID m)).
  unfold sanitized_labels. apply map_eq. intros k.
  rewrite !map_lookup_filter.
  destruct (<[_ := tenantID]> m !! k) as [v|]; simpl; [|done].
  destruct (is_unused L k) eqn:E; simpl; done.
Qed.

Lemma sanitized_labels_keys tenantID m k :
  is_Some (sanitized_labels L tenantID m !! k) ->
  is_Some (<[mimir_tsdb.TenantIDExternalLabel L := tenantID]> m !! k).
Proof.
  unfold sanitized_labels. intros [v Hv].
  apply map_lookup_filter_Some in Hv as [Hv _]. eauto.
Qed.

Lemma filter_length_0 {A} (P : A -> Prop) `{!∀ x, Decision (P x)} (l : list A) :
  (0 <? length (filter P l))%nat = false <-> Forall (λ x, ¬ P x) l.
Proof.
  rewrite Nat.ltb_ge. split.
  - intros Hlen.
    assert (filter P l = []) as E
      by (destruct (filter P l); simpl in *; [done|lia]).
    apply Forall_forall. intros x Hx HP.
    assert (x ∈ filter P l) as Hin by (apply list_elem_of_filter; done).
    rewrite E in Hin. by apply not_elem_of_nil in Hin.
  - intros Hall. induction Hall as [|x l Hx _ IH]; simpl; [lia|].
    rewrite filter_cons_False by done. done.
Qed.

Lemma rejected_none_keys (m : gmap string string) :
  (0 <? length (filter (λ l, is_rejected L l = true) (map_to_list m).*1))%nat = false
  <-> ∀ k, is_Some (m !! k) -> is_rejected L k = false.
Proof.
  rewrite filter_length_0, Forall_forall. split.
  - intros H k [v Hv]. specialize (H k).
    destruct (is_rejected L k); [|done]. exfalso. apply H; [|done].
    apply list_elem_of_fmap. exists (k, v). split; [done|].
    by apply elem_of_map_to_list.
  - intros H k Hk. apply list_elem_of_fmap in Hk as [[k' v] [-> Hkv]].
    apply elem_of_map_to_list in Hkv. simpl.
    rewrite (H k') by eauto. done.
Qed.

End SanitizeFacts.

Section SanitizeIdempotent.
Import compactor metadata.
Context (L : mimir_tsdb.ExternalLabels).

Lemma sanitizeMeta_success tenantID blockID meta meta' :
  sanitizeMeta L tenantID blockID meta = (meta', None) ->
  meta' =
    {| ULID := blockID; MinTime := MinTime meta; MaxTime := MaxTime meta;
       Version := Version meta; Level := Level meta; Sources := Sources meta;
       Labels := Some (sanitized_labels L tenantID (default ∅ (Labels meta)));
       Source := "upload"; Files := Files meta |}
  /\ ∀ k, is_Some (<[mimir_tsdb.TenantIDExternalLabel L := tenantID]>
                     (default ∅ (Labels meta)) !! k) ->
          is_rejected L k = false.
Proof.
  unfold sanitizeMeta. intros H.
  destruct (0 <? length _)%nat eqn:E in H; [discriminate|].
  pose proof (proj1 (rejected_none_keys L _) E) as Hrej. simpl in H.
  injection H as <-. split; [reflexivity | exact Hrej].
Qed.

(** C9.  [sanitizeMeta] is idempotent: when it succeeds on a meta, for a
    tenant and a block id, it succeeds again on the meta it left, for the same
    tenant and block id, and leaves it as it is. *)
Theorem sanitizeMeta_idempotent tenantID blockID meta meta' :
  sanitizeMeta L tenantID blockID meta = (meta', None) ->
  sanitizeMeta L tenantID blockID meta' = (meta', None).
Proof.
  intros H. apply sanitizeMeta_success in H as [-> Hrej].
  set (m := default ∅ (Labels meta)) in *.
  unfold sanitizeMeta. simpl.
  fold (sanitized_labels L tenantID (sanitized_labels L tenantID m)).
  rewrite sanitized_labels_idem.
  rewrite (insert_id _ _ _ (sanitized_labels_tenant L tenantID m)).
  assert ((0 <? length (filter (λ l, is_rejected L l = true)
             (map_to_list (sanitized_labels L tenantID m)).*1))%nat = false)
    as ->.
  { apply rejected_none_keys. intros k Hk. apply Hrej.
    by apply sanitized_labels_keys. }
  reflexivity.
Qed.

End SanitizeIdempotent.

Lemma sanitizeMeta_idempotent_witness :
  let ingester := {[ "__ingester_id__" := "ingester-1" ]} : gmap string string in
  let m := examples.meta_of 7 1 (Some ingester) "" in
  let m' := (compactor.sanitizeMeta examples.labels "user-1" 7 m).1 in
  compactor.sanitizeMeta examples.labels "user-1" 7 m' = (m', None).
Proof.
  intros ingester m m'.
  apply (sanitizeMeta_idempotent examples.labels "user-1" 7 m m').
  vm_compute. reflexivity.
Defined.

(** ** [UploadBlockFile] *)

Section UploadFileFacts.
Import compactor objstore http upload_spec.

Lemma rePath_allowed p :
  regexp.MatchString rePath p = true <-> allowed_path p.
Proof.
  rewrite MatchString_lang. unfold rePath, allowed_path. split.
  - inversion 1 as [| | | | ? ? ? H1 | ? ? ? H1]; subst.
    + left. by apply (lang_Lit "index").
    + right.
      change (regexp.lang (regexp.Cat (regexp.Lit "chunks/")
                (regexp.Rep 6 regexp.Digit)) p) in H1.
      remember (regexp.Lit "chunks/") as lit eqn:El.
      remember (regexp.Rep 6 regexp.Digit) as rep eqn:Er.
      inversion H1 as [| | |? ? s1 s2 Ha Hb| |]; subst.
      apply lang_Lit in Ha as ->. apply lang_Rep_Digit in Hb as [Hl Hd].
      eauto.
  - intros [->|(d & -> & Hl & Hd)].
    + apply regexp.lang_alt_l. by apply lang_Lit.
    + apply regexp.lang_alt_r. constructor; [by apply lang_Lit|].
      apply lang_Rep_Digit. done.
Qed.

Lemma calls_made_refl bkt : calls_made bkt bkt = [].
Proof. unfold calls_made. by rewrite drop_all. Qed.

Lemma calls_made_called bkt0 bkt o :
  (length (calls bkt0) <= length (calls bkt))%nat ->
  calls_made bkt0 (called bkt o) = (calls_made bkt0 bkt ++ [o])%list.
Proof. intros Hle. unfold calls_made, called. simpl. by rewrite drop_app_le. Qed.

End UploadFileFacts.

(** ** Facts about [path]: the last element of a joined path *)

Section PathFacts.
Import path.

Lemma is_slash_digit c : regexp.is_digit c = true -> is_slash c = false.
Proof.
  unfold regexp.is_digit, is_slash. intros H.
  destruct (Ascii.eqb_spec c slash) as [->|]; [discriminate H | done].
Qed.

Lemma has_slash_digits d : regexp.all_digits d = true -> has_slash d = false.
Proof.
  induction d as [|c d IH]; simpl; [done|].
  intros [Hc Hd]%andb_prop. by rewrite (is_slash_digit c Hc), IH.
Qed.

Lemma has_slash_app a b : has_slash (a +:+ b) = has_slash a || has_slash b.
Proof.
  induction a as [|c a IH]; [done|].
  rewrite append_cons. simpl. by rewrite IH, orb_assoc.
Qed.

Lemma strip_keeps a e :
  e <> "" -> has_slash e = false ->
  strip_trailing_slashes (a +:+ e) = a +:+ e.
Proof.
  intros Hne Hs. induction a as [|c a IH].
  - rewrite append_nil_l. clear Hne. induction e as [|c e IH]; [done|].
    simpl in *. apply orb_false_elim in Hs as [Hc He].
    rewrite (IH He), Hc. by destruct e.
  - rewrite append_cons. simpl. rewrite IH.
    destruct (a +:+ e) eqn:E; [|done].
    apply app_empty_inv in E as [_ ->]. done.
Qed.

Lemma after_last_slash_noslash e :
  has_slash e = false -> after_last_slash e = e.
Proof.
  destruct e as [|c e]; [done|]. simpl.
  intros [Hc He]%orb_false_elim. by rewrite He, Hc.
Qed.

Lemma after_last_slash_app a e :
  has_slash e = false -> after_last_slash (a +:+ "/" +:+ e) = e.
Proof.
  intros He. induction a as [|c a IH].
  - rewrite append_nil_l. change ("/" +:+ e) with (String slash e).
    simpl. by rewrite He.
  - rewrite append_cons. simpl. rewrite IH.
    rewrite has_slash_app. change ("/" +:+ e) with (String slash e).
    simpl. by rewrite orb_true_r.
Qed.

(** The base of a path that ends in a slash-free, non-empty element. *)
Lemma Base_last pre e :
  e <> "" -> has_slash e = false ->
  pre = "" \/ (exists q, pre = q +:+ "/") ->
  Base (pre +:+ e) = e.
Proof.
  intros Hne Hs Hpre. unfold Base.
  assert (pre +:+ e <> "") as Hnz.
  { intros [_ ?]%app_empty_inv. done. }
  apply String.eqb_neq in Hnz as ->.
  rewrite strip_keeps by done.
  assert (after_last_slash (pre +:+ e) = e) as ->.
  { destruct Hpre as [->|[q ->]].
    - rewrite append_nil_l. by apply after_last_slash_noslash.
    - rewrite <- append_assoc. by apply after_last_slash_app. }
  by apply String.eqb_neq in Hne as ->.
Qed.

Lemma split_nonempty s : split s <> [].
Proof. destruct s as [|c s]; simpl; [done|]. by repeat case_match. Qed.

Lemma split_noslash s : has_slash s = false -> split s = [s].
Proof.
  induction s as [|c s IH]; simpl; [done|].
  intros [Hc Hs]%orb_false_elim. by rewrite Hc, (IH Hs).
Qed.

Lemma split_app a b : split (a +:+ "/" +:+ b) = (split a ++ split b)%list.
Proof.
  induction a as [|c a IH].
  - rewrite append_nil_l. change ("/" +:+ b) with (String slash b). done.
  - rewrite append_cons. simpl. rewrite IH.
    destruct (is_slash c); [done|].
    pose proof (split_nonempty a). by destruct (split a).
Qed.

Lemma strings_Join_snoc l e :
  strings_Join (l ++ [e]) "/" =
  match l with [] => e | _ => strings_Join l "/" +:+ "/" +:+ e end.
Proof.
  induction l as [|x l IH]; [done|].
  destruct l as [|y l]; [done|].
  change (strings_Join ((x :: y :: l) ++ [e]) "/")
    with (x +:+ "/" +:+ strings_Join ((y :: l) ++ [e]) "/").
  rewrite IH.
  change (strings_Join (x :: y :: l) "/")
    with (x +:+ "/" +:+ strings_Join (y :: l) "/").
  by rewrite <- !append_assoc.
Qed.

Lemma clean_step_normal rooted out e :
  normal_elem e -> clean_step rooted out e = e :: out.
Proof.
  intros (H1 & H2 & H3 & _). unfold clean_step.
  apply String.eqb_neq in H1 as ->. apply String.eqb_neq in H2 as ->.
  by apply String.eqb_neq in H3 as ->.
Qed.

(** [Clean] keeps a normal last element last. *)
Lemma Clean_last p es e :
  split p = (es ++ [e])%list -> normal_elem e ->
  exists pre, Clean p = pre +:+ e /\ (pre = "" \/ exists q, pre = q +:+ "/").
Proof.
  intros Hsp Hn. unfold Clean.
  destruct (String.eqb_spec p "") as [->|Hp].
  { simpl in Hsp. destruct es as [|? [|? ?]]; simplify_eq/=.
    by destruct Hn. }
  rewrite Hsp, fold_left_app. simpl.
  rewrite clean_step_normal by done. simpl.
  rewrite strings_Join_snoc.
  set (out := rev (fold_left _ es [])).
  destruct (match p with "" => false | String c _ => is_slash c end).
  - destruct out as [|x out].
    + exists "/". split; [done|]. right. by exists "".
    + exists ("/" +:+ strings_Join (x :: out) "/" +:+ "/").
      split; [by rewrite <- !append_assoc|]. right.
      exists ("/" +:+ strings_Join (x :: out) "/").
      by rewrite <- !append_assoc.
  - assert (match out with [] => e | _ :: _ => strings_Join out "/" +:+ "/" +:+ e end <> "")
      as Hne.
    { destruct Hn as [Hne _]. destruct out; [done|].
      intros [_ [_ ?]%app_empty_inv]%app_empty_inv. done. }
    apply String.eqb_neq in Hne as ->.
    destruct out as [|x out].
    + exists "". split; [done | by left].
    + exists (strings_Join (x :: out) "/" +:+ "/").
      split; [by rewrite <- !append_assoc|]. right. eauto.
Qed.

Lemma Join_last a b es e :
  split b = (es ++ [e])%list -> normal_elem e ->
  exists pre, Join a b = pre +:+ e /\ (pre = "" \/ exists q, pre = q +:+ "/").
Proof.
  intros Hsp Hn. unfold Join.
  assert (b <> "") as Hb.
  { intros ->. destruct es as [|? [|? ?]]; simplify_eq/=. by destruct Hn. }
  apply String.eqb_neq in Hb as ->. rewrite andb_false_r.
  destruct (String.eqb a "").
  - by apply (Clean_last b es e).
  - apply (Clean_last _ (split a ++ es) e); [|done].
    by rewrite split_app, Hsp, app_assoc.
Qed.

(** The base of a joined path is the last element of the second part, when
    that element is a normal one. *)
Lemma Base_Join a b es e :
  split b = (es ++ [e])%list -> normal_elem e -> Base (Join a b) = e.
Proof.
  intros Hsp Hn. destruct (Join_last a b es e Hsp Hn) as (pre & -> & Hpre).
  destruct Hn as (Hne & _ & _ & Hs). by apply Base_last.
Qed.

Lemma Base_Join_name a e : normal_elem e -> Base (Join a e) = e.
Proof.
  intros Hn. apply (Base_Join a e []); [|done].
  destruct Hn as (_ & _ & _ & Hs). by rewrite split_noslash.
Qed.

End PathFacts.

Section UploadFileChecks.
Import compactor objstore http upload_spec.

Lemma calls_made_app bkt l o f :
  calls_made bkt {| objects := o; faults := f; calls := (calls bkt ++ l)%list |} = l.
Proof. unfold calls_made. simpl. by rewrite drop_app_length. Qed.

Lemma digits_normal d :
  String.length d = 6%nat -> regexp.all_digits d = true -> normal_elem d.
Proof.
  intros Hl Hd. repeat split; try (intros ->; discriminate Hl).
  by apply has_slash_digits.
Qed.

(** The last element of an allowed path is [index] or six digits. *)
Lemma allowed_path_last p :
  allowed_path p ->
  exists es e, path.split p = (es ++ [e])%list /\ normal_elem e /\
    (e = "index" \/ (String.length e = 6%nat /\ regexp.all_digits e = true)).
Proof.
  intros [->|(d & -> & Hl & Hd)].
  - exists [], "index". split; [done|]. split; [by repeat split | by left].
  - exists ["chunks"], d. split.
    + change ("chunks/" +:+ d) with ("chunks" +:+ "/" +:+ d).
      rewrite split_app, (split_noslash d) by (by apply has_slash_digits).
      done.
    + split; [by apply digits_normal | by right].
Qed.

Lemma allowed_path_Base p : allowed_path p -> path.Base p <> "meta.json".
Proof.
  intros [->|(d & -> & Hl & Hd)]; [by vm_compute|].
  rewrite (Base_last "chunks/" d).
  - intros ->. discriminate Hl.
  - intros ->. discriminate Hl.
  - by apply has_slash_digits.
  - right. by exists "chunks".
Qed.

(** C6, as the code has it.  [UploadBlockFile] answers 400 and leaves the
    bucket alone when the path is not exactly [index] or [chunks/] and six
    digits (so, when its base is [meta.json]), when the body is nil and when
    the content length is zero; an upload is only made for a request that
    passed these checks, and under the block's own prefix.  A content length
    that is not known (-1) is not zero and is let through. *)
Theorem UploadBlockFile_checks (bkt : Bucket) (r : Request) :
  (~ allowed_path (query_path r) \/ path.Base (query_path r) = "meta.json"
     \/ Body r = None \/ ContentLength r = 0%Z ->
   status_of (UploadBlockFile bkt r).2 = Some StatusBadRequest
   /\ (UploadBlockFile bkt r).1 = bkt)
  /\ (forall key,
        OpUpload key ∈ calls_made bkt (UploadBlockFile bkt r).1 ->
        allowed_path (query_path r)
        /\ path.Base (query_path r) <> "meta.json"
        /\ is_Some (Body r) /\ ContentLength r <> 0%Z
        /\ key = path.Join (block r) (query_path r)).
Proof.
  unfold UploadBlockFile.
  destruct (String.eqb (block r) "") eqn:Eb.
  { simpl. rewrite calls_made_refl. split; [done|]. by intros ? ?%elem_of_nil. }
  destruct (negb (ulid.Parse_ok (block r))) eqn:Ep.
  { simpl. rewrite calls_made_refl. split; [done|]. by intros ? ?%elem_of_nil. }
  destruct (String.eqb (query_path r) "") eqn:Eq.
  { simpl. rewrite calls_made_refl. split; [done|]. by intros ? ?%elem_of_nil. }
  destruct (tenant r) as [tenantID|].
  2:{ simpl. rewrite calls_made_refl. split; [done|]. by intros ? ?%elem_of_nil. }
  destruct (String.eqb_spec (path.Base (query_path r)) "meta.json") as [Em|Em].
  { simpl. rewrite calls_made_refl. split; [done|]. by intros ? ?%elem_of_nil. }
  destruct (regexp.MatchString rePath (query_path r)) eqn:Er; simpl.
  2:{ rewrite calls_made_refl. split; [done|]. by intros ? ?%elem_of_nil. }
  apply rePath_allowed in Er.
  destruct (Body r) as [body|] eqn:Ebody.
  2:{ simpl. rewrite calls_made_refl. split; [done|]. by intros ? ?%elem_of_nil. }
  destruct (Z.eqb_spec (ContentLength r) 0) as [Ec|Ec].
  { simpl. rewrite calls_made_refl. split; [done|]. by intros ? ?%elem_of_nil. }
  split.
  { intros [H|[H|[H|H]]]; done. }
  intros key. unfold Exists, Get, Upload, called, fails. simpl.
  repeat (case_bool_decide || case_match); simplify_eq/=;
    rewrite <- ?app_assoc, calls_made_app;
    intros Hin; repeat (apply elem_of_cons in Hin as [Hin|Hin]; simplify_eq);
    try (by apply elem_of_nil in Hin); eauto 10.
Qed.

End UploadFileChecks.

Lemma UploadBlockFile_checks_witness :
  let r := upload_examples.file_request "meta.json" 3 in
  http.status_of (compactor.UploadBlockFile upload_examples.staged r).2
    = Some http.StatusBadRequest
  /\ (compactor.UploadBlockFile upload_examples.staged r).1
     = upload_examples.staged.
Proof.
  intros r.
  apply (proj1 (UploadBlockFile_checks upload_examples.staged r)).
  right. left. vm_compute. reflexivity.
Defined.

(** C6, as stated, fails: a request whose content length is not known (-1)
    and that is otherwise in order is not answered 400; its body is uploaded. *)
Lemma UploadBlockFile_unknown_length_uploaded :
  let r := upload_examples.file_request "index" (-1) in
  let out := compactor.UploadBlockFile upload_examples.staged r in
  http.ContentLength r = (-1)%Z
  /\ http.status_of out.2 = Some http.StatusOK
  /\ http.status_of out.2 <> Some http.StatusBadRequest
  /\ objstore.OpUpload "01ARZ3NDEKTSV4RRFFQ69G5FAV/index"
       ∈ upload_spec.calls_made upload_examples.staged out.1.
Proof.
  vm_compute. repeat split; [discriminate|]. repeat constructor.
Qed.

(** ** The upload protocol and [meta.json] *)

Section ProtocolFacts.
Import compactor objstore http upload_spec protocol.
Context (L : mimir_tsdb.ExternalLabels).

Lemma Base_meta_json a : path.Base (path.Join a "meta.json") = "meta.json".
Proof. apply Base_Join_name. by repeat split. Qed.

Lemma Base_meta_json_temp a :
  path.Base (path.Join a "meta.json.temp") = "meta.json.temp".
Proof. apply Base_Join_name. by repeat split. Qed.

Lemma Base_allowed a p :
  allowed_path p -> path.Base (path.Join a p) <> "meta.json".
Proof.
  intros (es & e & Hsp & Hn & He)%allowed_path_last.
  rewrite (Base_Join a p es e Hsp Hn).
  destruct He as [->|[Hl _]]; [done|]. intros ->. discriminate Hl.
Qed.

Ltac handler_cases :=
  unfold uploadMeta, Exists, Get, Upload, Delete, called, fails;
  cbn [fst snd objects faults calls];
  repeat (case_bool_decide || case_match); simplify_eq;
  cbn [fst snd objects faults calls];
  rewrite <- ?app_assoc, ?calls_made_app, ?calls_made_refl.



Lemma createBlockUpload_objects bkt r tenantID blockID k :
  k <> meta_json_temp blockID ->
  objects (createBlockUpload L bkt r tenantID blockID).1 !! k = objects bkt !! k.
Proof.
  unfold meta_json_temp. intros Hk. unfold createBlockUpload.
  handler_cases; rewrite ?lookup_insert_ne by congruence; reflexivity.
Qed.

Lemma createBlockUpload_visible bkt r tenantID blockID id' :
  objects (createBlockUpload L bkt r tenantID blockID).1 !! meta_json id'
  = objects bkt !! meta_json id'.
Proof.
  apply createBlockUpload_objects. intros E.
  pose proof (Base_meta_json (ulid.String id')) as H1.
  pose proof (Base_meta_json_temp (ulid.String blockID)) as H2.
  unfold meta_json, meta_json_temp in E. rewrite E, H2 in H1. discriminate.
Qed.


Lemma UploadBlockFile_objects bkt r k :
  k <> path.Join (block r) (query_path r) ->
  objects (UploadBlockFile bkt r).1 !! k = objects bkt !! k.
Proof.
  intros Hk. unfold UploadBlockFile.
  handler_cases; rewrite ?lookup_insert_ne by congruence; reflexivity.
Qed.

Lemma UploadBlockFile_unchanged bkt r :
  ~ allowed_path (query_path r) ->
  objects (UploadBlockFile bkt r).1 = objects bkt.
Proof.
  intros Hn. unfold UploadBlockFile.
  destruct (regexp.MatchString rePath (query_path r)) eqn:Er;
    [by apply rePath_allowed in Er|].
  handler_cases; done.
Qed.

Lemma UploadBlockFile_visible bkt r id' :
  objects (UploadBlockFile bkt r).1 !! meta_json id' = objects bkt !! meta_json id'.
Proof.
  destruct (regexp.MatchString rePath (query_path r)) eqn:Er.
  - apply rePath_allowed in Er. apply UploadBlockFile_objects. intros E.
    apply (Base_allowed (block r)) in Er. rewrite <- E in Er.
    unfold meta_json in Er. by rewrite Base_meta_json in Er.
  - rewrite UploadBlockFile_unchanged; [done|].
    intros Ha%rePath_allowed. congruence.
Qed.

(** [completeBlockUpload] uploads [meta.json] and nothing else, at most
    once, and exactly once when it answers 200. *)
Lemma completeBlockUpload_uploads bkt r tenantID blockID :
  let out := completeBlockUpload bkt r tenantID blockID in
  (uploads_of (calls_made bkt out.1) = []
   \/ uploads_of (calls_made bkt out.1) = [meta_json blockID])
  /\ (status_of out.2 = Some StatusOK ->
      uploads_of (calls_made bkt out.1) = [meta_json blockID]
      /\ exists meta,
          objects bkt !! meta_json_temp blockID = Some (JSONMeta meta)
          /\ objects out.1 =
             delete (meta_json_temp blockID)
                    (<[meta_json blockID := JSONMeta meta]> (objects bkt))).
Proof.
  unfold completeBlockUpload.
  handler_cases; (split; [by (left + right)|]); intros Hst; try discriminate Hst.
  split; [done|]. eauto.
Qed.

Lemma completeBlockUpload_objects bkt r tenantID blockID k :
  k <> meta_json blockID -> k <> meta_json_temp blockID ->
  objects (completeBlockUpload bkt r tenantID blockID).1 !! k = objects bkt !! k.
Proof.
  unfold meta_json, meta_json_temp. intros Hk1 Hk2. unfold completeBlockUpload.
  handler_cases;
    rewrite ?lookup_delete_ne, ?lookup_insert_ne by congruence; reflexivity.
Qed.

Lemma meta_json_ne_temp id id' : meta_json id' <> meta_json_temp id.
Proof.
  intros E.
  pose proof (Base_meta_json (ulid.String id')) as H1.
  pose proof (Base_meta_json_temp (ulid.String id)) as H2.
  unfold meta_json, meta_json_temp in E. rewrite E, H2 in H1. discriminate.
Qed.

Lemma meta_json_temp_ne id id' : meta_json_temp id <> meta_json id'.
Proof. intros E. by apply (meta_json_ne_temp id id'). Qed.



End ProtocolFacts.

Section TwoPhaseUpload.
Import compactor objstore http upload_spec protocol.
Context (L : mimir_tsdb.ExternalLabels).

Lemma step_visible bkt s id' :
  (forall r tenantID blockID, s <> Commit r tenantID blockID) ->
  objects (step L bkt s).1 !! meta_json id' = objects bkt !! meta_json id'.
Proof.
  intros Hs. destruct s as [r t b|r|r t b]; cbn [step].
  - apply createBlockUpload_visible.
  - apply UploadBlockFile_visible.
  - by destruct (Hs r t b).
Qed.


(** X11.  No sequence of begin and file operations makes a block visible. *)
Lemma no_commit_no_visibility (bkt : Bucket) (steps : list Step) id' :
  Forall (λ s, forall r tenantID blockID, s <> Commit r tenantID blockID) steps ->
  objects (foldl (λ b s, (step L b s).1) bkt steps) !! meta_json id'
  = objects bkt !! meta_json id'.
Proof.
  intros H. revert bkt.
  induction H as [|s steps Hs _ IH]; intros bkt; [reflexivity|].
  cbn [foldl]. rewrite IH. by apply step_visible.
Qed.

End TwoPhaseUpload.

(** ** The readiness gate *)

Section JobFacts.
Import job metadata.
Context (attributes : ulid.ULID -> Err + Z) (now waitPeriod : Z).





End JobFacts.


(** The scenarios of [TestJobWaitPeriodElapsed]. *)
Example wait_period_disabled :
  job.jobWaitPeriodElapsed
    (job_examples.modified (λ id, if (id =? 1)%N then 20 else 5)%Z)
    job_examples.now [job_examples.meta1; job_examples.meta2] 0
  = ((true, None, None), []).
Proof. reflexivity. Qed.

Example uploaded_before_the_wait_period :
  (job.jobWaitPeriodElapsed
     (job_examples.modified (λ id, if (id =? 1)%N then 20 else 25)%Z)
     job_examples.now [job_examples.meta1; job_examples.meta2]
     (10 * job_examples.minute)).1
  = (true, None, None).
Proof. reflexivity. Qed.

Example level_2_exempt :
  job.jobWaitPeriodElapsed
    (job_examples.modified (λ id, if (id =? 3)%N then 4 else 5)%Z)
    job_examples.now [job_examples.meta3; job_examples.meta4]
    (10 * job_examples.minute)
  = ((true, None, None), []).
Proof. reflexivity. Qed.


(** ** [IgnoreDeletionMarkFilter.Filter] *)

Section DeletionMarkFacts.
Import block fetch_spec.
Context (env : Env) (now : Z) (f : IgnoreDeletionMarkFilter).

Lemma first_error_None results :
  first_error results = None <-> Forall (λ r, r = None) results.
Proof.
  induction results as [|[e|] results IH]; simpl.
  - split; [constructor | done].
  - split; [done | by inversion 1].
  - rewrite IH. split; [by constructor | by inversion 1].
Qed.

Lemma first_error_elem results err :
  first_error results = Some err -> Some err ∈ results.
Proof.
  induction results as [|[e|] results IH]; simpl; [done| |].
  - intros [= ->]. apply elem_of_cons. by left.
  - intros H. apply elem_of_cons. right. by apply IH.
Qed.

(** The error a worker returns: it has one as soon as one of its probes
    fails, and the one it has comes from a failed probe. *)
Lemma worker_fold_err ids sh e0 :
  let out := foldl (probe env now f) (sh, e0) ids in
  ((is_Some e0 \/ exists id, id ∈ ids /\ probe_fails env id) -> is_Some out.2)
  /\ (forall err, out.2 = Some err ->
        e0 = Some err \/ exists id, id ∈ ids /\ read_marker env id = inl err
                                    /\ cause_is MarkerNotFound err = false
                                    /\ cause_is UnmarshalMarker err = false).
Proof.
  revert sh e0. induction ids as [|id ids IH]; intros sh e0; cbn [foldl].
  - split.
    + intros [H|(id & []%elem_of_nil & _)]. exact H.
    + intros err H. by left.
  - destruct (IH (probe env now f (sh, e0) id).1 (probe env now f (sh, e0) id).2)
      as [IH1 IH2].
    rewrite <- surjective_pairing in IH1, IH2.
    assert (probe_fails env id -> is_Some (probe env now f (sh, e0) id).2) as Hf.
    { intros (err & Hr & H1 & H2). unfold probe. rewrite Hr, H1, H2. eauto. }
    assert (is_Some e0 -> is_Some (probe env now f (sh, e0) id).2) as Hk.
    { intros He. unfold probe. repeat case_match; eauto. }
    assert (forall err, (probe env now f (sh, e0) id).2 = Some err ->
              e0 = Some err \/ (read_marker env id = inl err
                                /\ cause_is MarkerNotFound err = false
                                /\ cause_is UnmarshalMarker err = false)) as Hb.
    { intros err. unfold probe. repeat case_match; cbn [snd]; intros; simplify_eq; auto. }
    split.
    + intros [He|(id' & [->|Hin]%elem_of_cons & Hp)]; apply IH1; eauto.
    + intros err [He|(id' & Hin & Hp)]%IH2.
      * destruct (Hb err He) as [?|?]; [by left|].
        right. exists id. split; [apply elem_of_cons; by left | done].
      * right. exists id'. split; [apply elem_of_cons; by right | done].
Qed.

(** The marks a worker leaves: those it was given, and the marks of the
    blocks it probed with success. *)
Lemma worker_fold_marks ids sh e0 id :
  marks (foldl (probe env now f) (sh, e0) ids).1 !! id
  = if decide (id ∈ ids) then
      match probed_mark env id with Some m => Some m | None => marks sh !! id end
    else marks sh !! id.
Proof.
  revert sh e0. induction ids as [|x ids IH]; intros sh e0; cbn [foldl].
  - by rewrite decide_False by apply not_elem_of_nil.
  - rewrite (surjective_pairing (probe env now f (sh, e0) x)), IH.
    assert (marks (probe env now f (sh, e0) x).1 !! id
            = if decide (id = x) then
                match probed_mark env id with
                | Some m => Some m | None => marks sh !! id end
              else marks sh !! id) as Hx.
    { unfold probe, probed_mark.
      destruct (decide (id = x)) as [->|Hne].
      - repeat case_match; cbn [fst marks]; simplify_eq;
          rewrite ?lookup_insert_eq; reflexivity.
      - repeat case_match; cbn [fst marks]; simplify_eq;
          rewrite ?lookup_insert_ne by congruence; reflexivity. }
    rewrite Hx.
    destruct (decide (id = x)) as [->|Hne].
    + rewrite (decide_True (P := x ∈ x :: ids)) by (apply elem_of_cons; by left).
      destruct (decide (x ∈ ids)); by destruct (probed_mark env x).
    + destruct (decide (id ∈ ids)) as [Hin|Hin].
      * by rewrite decide_True by (apply elem_of_cons; by right).
      * rewrite decide_False; [done|]. by intros [?|?]%elem_of_cons.
Qed.

Lemma workers_spec w sh :
  (forall id, marks (workers env now f sh w).1 !! id
      = if decide (id ∈ concat w) then
          match probed_mark env id with Some m => Some m | None => marks sh !! id end
        else marks sh !! id)
  /\ ((exists ids id, ids ∈ w /\ id ∈ ids /\ probe_fails env id) ->
      exists err, Some err ∈ (workers env now f sh w).2)
  /\ (forall err, Some err ∈ (workers env now f sh w).2 ->
      exists id, id ∈ concat w /\ read_marker env id = inl err
                 /\ cause_is MarkerNotFound err = false
                 /\ cause_is UnmarshalMarker err = false).
Proof.
  revert sh. induction w as [|ids w IH]; intros sh; cbn [workers].
  - split; [|split].
    + intros id. by rewrite decide_False by apply not_elem_of_nil.
    + intros (ids & id & []%elem_of_nil & _).
    + intros err []%elem_of_nil.
  - unfold worker.
    destruct (foldl (probe env now f) (sh, None) ids) as [sh' e] eqn:Ew.
    destruct (IH sh') as (IHm & IHe & IHk).
    destruct (workers env now f sh' w) as [sh'' errs].
    pose proof (worker_fold_marks ids sh None) as Hm. rewrite Ew in Hm.
    pose proof (worker_fold_err ids sh None) as [He Hb]. rewrite Ew in He, Hb.
    cbn [fst snd] in *.
    split; [|split].
    + intros id. rewrite IHm, Hm. cbn [concat].
      destruct (decide (id ∈ (ids ++ concat w)%list)) as [Ha|Ha].
      * apply elem_of_app in Ha.
        destruct (decide (id ∈ concat w)), (decide (id ∈ ids));
          try (by destruct (probed_mark env id)); exfalso; tauto.
      * destruct (decide (id ∈ concat w)) as [Hc|Hc];
          [exfalso; apply Ha, elem_of_app; by right|].
        destruct (decide (id ∈ ids)) as [Hi|Hi];
          [exfalso; apply Ha, elem_of_app; by left|].
        reflexivity.
    + intros (ids' & id & [->|Hin]%elem_of_cons & Hid & Hp).
      * destruct He as [err ->]; [right; eauto|].
        exists err. apply elem_of_cons. by left.
      * destruct IHe as [err Herr]; [eauto|].
        exists err. apply elem_of_cons. by right.
    + intros err [Herr|Herr]%elem_of_cons.
      * destruct (Hb err) as [?|(id & Hid & Hp)]; [by symmetry|done|].
        exists id. split; [|done]. cbn [concat]. apply elem_of_app. by left.
      * destruct (IHk err Herr) as (id & Hid & Hp).
        exists id. split; [|done]. cbn [concat]. apply elem_of_app. by right.
Qed.

End DeletionMarkFacts.

Section DeletionMarkFilter.
Import block fetch_spec.

Lemma elem_of_insert_middle {A} (x y : A) (n : nat) (l : list A) :
  x ∈ (take n l ++ [y] ++ drop n l)%list <-> x = y \/ x ∈ l.
Proof.
  rewrite !elem_of_app, list_elem_of_singleton.
  assert (x ∈ l <-> x ∈ take n l \/ x ∈ drop n l) as ->; [|tauto].
  by rewrite <- elem_of_app, take_drop.
Qed.

(** C7, as the code has it.  When some probe of a run fails with an error
    that is neither not-found nor unmarshal, [Filter] returns an error,
    wrapped, which is the error of such a failed probe or the error of the
    context, and the published map of deletion marks stays as it was before
    the run.  When [Filter] returns no error, the published map is replaced
    by the marks of the blocks probed with success in the run. *)
Theorem Filter_error_keeps_published_marks
    (env : Env) (now : Z) (sch : Schedule) (f : IgnoreDeletionMarkFilter)
    (metas : gmap ulid.ULID Meta) (synced modified : gmap string nat) :
  ((exists ids id, ids ∈ work sch /\ id ∈ ids /\ probe_fails env id) ->
   exists err,
     out_err (IgnoreDeletionMarkFilter_Filter env now sch f metas synced modified).2
     = Some (Wrapf err "filter blocks marked for deletion" [])
     /\ (sched_err sch = Some err
         \/ exists id, id ∈ concat (work sch) /\ read_marker env id = inl err
                       /\ cause_is MarkerNotFound err = false
                       /\ cause_is UnmarshalMarker err = false)
     /\ DeletionMarkBlocks
          (IgnoreDeletionMarkFilter_Filter env now sch f metas synced modified).1
        = DeletionMarkBlocks f)
  /\ (out_err (IgnoreDeletionMarkFilter_Filter env now sch f metas synced modified).2
      = None ->
      forall id,
        DeletionMarkBlocks
          (IgnoreDeletionMarkFilter_Filter env now sch f metas synced modified).1
        !! id
        = if decide (id ∈ concat (work sch)) then probed_mark env id else None).
Proof.
  unfold IgnoreDeletionMarkFilter_Filter, DeletionMarkBlocks.
  pose proof (workers_spec env now f (work sch)
                {| marks := ∅; sh_metas := metas; sh_synced := synced |})
    as (Hm & He & Hk).
  destruct (workers env now f _ (work sch)) as [sh errs].
  cbn [fst snd marks] in *.
  destruct (first_error _) as [err|] eqn:Ef; cbn [fst snd out_err deletionMarkMap].
  - split; [|discriminate].
    intros _. exists err. split; [reflexivity|]. split; [|reflexivity].
    apply first_error_elem, elem_of_insert_middle in Ef as [Ef|Ef].
    + left. by symmetry.
    + right. by apply Hk.
  - split.
    + intros [err Herr]%He. exfalso.
      apply first_error_None in Ef. rewrite Forall_forall in Ef.
      specialize (Ef (Some err)). discriminate Ef.
      apply elem_of_insert_middle. by right.
    + intros _ id. rewrite Hm, lookup_empty.
      destruct (decide (id ∈ concat (work sch))); [|reflexivity].
      by destruct (probed_mark env id).
Qed.

End DeletionMarkFilter.

Lemma Filter_error_keeps_published_marks_witness :
  exists err,
    block.out_err
      (block.IgnoreDeletionMarkFilter_Filter mark_examples.env mark_examples.now
         mark_examples.one_worker mark_examples.new_filter
         mark_examples.two_metas ∅ ∅).2
    = Some (Wrapf err "filter blocks marked for deletion" [])
    /\ (block.sched_err mark_examples.one_worker = Some err
        \/ exists id, id ∈ concat (block.work mark_examples.one_worker)
             /\ block.read_marker mark_examples.env id = inl err
             /\ cause_is MarkerNotFound err = false
             /\ cause_is UnmarshalMarker err = false)
    /\ block.DeletionMarkBlocks
         (block.IgnoreDeletionMarkFilter_Filter mark_examples.env
            mark_examples.now mark_examples.one_worker mark_examples.new_filter
            mark_examples.two_metas ∅ ∅).1
       = block.DeletionMarkBlocks mark_examples.new_filter.
Proof.
  apply (proj1 (Filter_error_keeps_published_marks mark_examples.env
                  mark_examples.now mark_examples.one_worker
                  mark_examples.new_filter mark_examples.two_metas ∅ ∅)).
  exists [1%N; 2%N], 2%N. split; [|split].
  - apply list_elem_of_singleton. reflexivity.
  - apply elem_of_cons. right. apply list_elem_of_singleton. reflexivity.
  - exists (Foreign false "bucket timeout"). by vm_compute.
Defined.

(** C7, as stated, fails: the probe of block 2 fails with a bucket error,
    [Filter] returns the error, and the published map is not updated with
    the mark of block 1, whose probe succeeded in the same run. *)
Lemma Filter_error_drops_probed_marks :
  let out :=
    block.IgnoreDeletionMarkFilter_Filter mark_examples.env mark_examples.now
      mark_examples.one_worker mark_examples.new_filter
      mark_examples.two_metas ∅ ∅ in
  fetch_spec.probe_fails mark_examples.env 2%N
  /\ fetch_spec.probed_mark mark_examples.env 1%N
     = Some {| metadata.ID := 1; metadata.DeletionTime := 1000 |}
  /\ block.out_err out.2
     = Some (Wrapf (Foreign false "bucket timeout")
               "filter blocks marked for deletion" [])
  /\ block.DeletionMarkBlocks out.1 !! 1%N = None.
Proof.
  split; [|split; [|split]].
  - exists (Foreign false "bucket timeout"). by vm_compute.
  - reflexivity.
  - by vm_compute.
  - by vm_compute.
Qed.

(** ** The fetcher: maps and the cache *)

Section HeapFacts.
Import block cache_spec.

Lemma make_spec (h : Heap) (m : gmap ulid.ULID Meta) :
  ((make h m).1 ∉ dom h) /\ ((make h m).2 = <[(make h m).1 := m]> h)
  /\ ((make h m).1 = fresh (dom h)).
Proof. unfold make. cbn [fst snd]. split; [apply is_fresh | done]. Qed.

Lemma deref_insert_eq (h : Heap) a m : deref (<[a := m]> h) a = m.
Proof. unfold deref. by rewrite lookup_insert_eq. Qed.

Lemma deref_insert_ne (h : Heap) a b m :
  a <> b -> deref (<[a := m]> h) b = deref h b.
Proof. intros. unfold deref. by rewrite lookup_insert_ne. Qed.

Lemma loadMeta_fetcher env h f id :
  cached (loadMeta env h f id).1 = cached f
  /\ syncs (loadMeta env h f id).1 = syncs f
  /\ (cacheDir f = None -> cacheDir (loadMeta env h f id).1 = None)
  /\ (forall d, cacheDir f = Some d ->
        exists d', cacheDir (loadMeta env h f id).1 = Some d'
                   /\ forall k, k <> id -> d' !! k = d !! k).
Proof.
  unfold loadMeta, load_from_dir, save_to_dir, with_dir.
  repeat case_match; simplify_eq; cbn [fst cached syncs cacheDir] in *;
    simplify_eq;
    (split; [reflexivity|]); (split; [reflexivity|]);
    (split; [try done|]); intros d' ?; simplify_eq;
    eexists; (split; [first [reflexivity | eassumption]|]); intros k Hk;
    rewrite ?lookup_insert_ne, ?lookup_delete_ne by congruence; reflexivity.
Qed.

Lemma worker_step_spec env h f resp id :
  let st := worker_step env (h, f, resp) id in
  metas st.2 = metas resp
  /\ cached st.1.2 = cached f
  /\ (forall a, a <> metas resp -> st.1.1 !! a = h !! a)
  /\ (metas resp ∈ dom h -> dom st.1.1 = dom h).
Proof.
  unfold worker_step.
  pose proof (loadMeta_fetcher env h f id) as (Hc & _).
  destruct (loadMeta env h f id) as [f' [err|m]]; cbn [fst] in Hc.
  - repeat case_match; cbn [fst snd metas]; auto.
  - cbn [fst snd metas]. repeat split; [done| |].
    + intros a Ha. by rewrite lookup_insert_ne.
    + intros Hin. rewrite dom_insert_L. set_solver.
Qed.

Lemma workers_fold_spec env ids h f resp :
  let st := foldl (worker_step env) (h, f, resp) ids in
  metas st.2 = metas resp
  /\ cached st.1.2 = cached f
  /\ (forall a, a <> metas resp -> st.1.1 !! a = h !! a)
  /\ (metas resp ∈ dom h -> dom st.1.1 = dom h).
Proof.
  revert h f resp. induction ids as [|id ids IH]; intros h f resp; cbn [foldl].
  - done.
  - pose proof (worker_step_spec env h f resp id) as (H1 & H2 & H3 & H4).
    destruct (worker_step env (h, f, resp) id) as [[h' f'] resp'].
    cbn [fst snd] in *.
    destruct (IH h' f' resp') as (I1 & I2 & I3 & I4).
    rewrite H1 in *. repeat split.
    + congruence.
    + congruence.
    + intros a Ha. rewrite I3 by done. by apply H3.
    + intros Hin. rewrite I4; [by apply H4|]. by rewrite H4.
Qed.

(** The passes of the workers leave every map that was there before the
    sync as it was, and the cache where it was. *)
Lemma sync_workers_spec env h f :
  let st := sync_workers env h f in
  metas st.2 = fresh (dom h)
  /\ cached st.1.2 = cached f
  /\ (forall a, a ∈ dom h -> st.1.1 !! a = h !! a)
  /\ dom st.1.1 = dom h ∪ {[fresh (dom h)]}.
Proof.
  unfold sync_workers, make.
  match goal with |- context [foldl _ (?h0, ?f0, ?r0) _] =>
    pose proof (workers_fold_spec env (iter_ids env) h0 f0 r0) as (H1 & H2 & H3 & H4)
  end.
  cbn [metas cached] in *.
  repeat split; [done|done| |].
  - intros b Hb.
    assert (b <> fresh (dom h)) as Hne
      by (intros ->; by apply (is_fresh (dom h))).
    rewrite H3 by exact Hne. apply lookup_insert_ne. congruence.
  - rewrite H4; rewrite dom_insert_L; set_solver.
Qed.

End HeapFacts.

Section FetchFacts.
Import block cache_spec fetch_out.

Lemma cleanup_dirs_cached env loaded f : cached (cleanup_dirs env loaded f) = cached f.
Proof. unfold cleanup_dirs, with_dir. by repeat case_match. Qed.

(** The three ways [fetchMetadata] ends. *)
Lemma fetchMetadata_cases env h f :
  let st := sync_workers env h f in
  (exists err, iter_err env = Some err
     /\ fetchMetadata env h f
        = (st.1.1, st.1.2, inl (Wrapf err "BaseFetcher: iter bucket" [])))
  \/ (iter_err env = None /\ metaErrs st.2 <> []
      /\ fetchMetadata env h f = (st.1.1, st.1.2, inr st.2))
  \/ (iter_err env = None /\ metaErrs st.2 = []
      /\ exists f1,
           cached f1 = fresh (dom st.1.1)
           /\ fetchMetadata env h f
              = (<[fresh (dom st.1.1) := deref st.1.1 (metas st.2)]> st.1.1,
                 f1, inr st.2)).
Proof.
  unfold fetchMetadata.
  destruct (sync_workers env h f) as [[h0 f0] resp]. cbn [fst snd].
  destruct (iter_err env) as [err|]; [left; eauto|right].
  destruct (metaErrs resp) as [|e errs] eqn:Ee; cbn [length Nat.ltb Nat.leb].
  - right. repeat split; try done. unfold make.
    eexists. split; [|reflexivity]. by rewrite cleanup_dirs_cached.
  - left. by repeat split.
Qed.

(** What [fetch] does once [Do] has returned a response. *)
Lemma fetch_after_response resp h metrics filters :
  let a := fresh (dom h) in
  let o := run_filters filters (deref h (metas resp))
             (extprom.Set_ CorruptedMeta (corruptedMetas resp)
                (extprom.Set_ NoMeta (noMetas resp)
                   (extprom.Set_ FailedMeta (length (metaErrs resp))
                      (extprom.tx (Synced metrics)))))
             (extprom.tx (Modified metrics)) in
  (fetch_after (inr resp) h metrics filters).1.1
  = <[a := out_metas o]> (<[a := deref h (metas resp)]> h)
  /\ (fetch_after (inr resp) h metrics filters).2
     = match out_err o with
       | Some err =>
           {| res_metas := None; res_partial := None;
              res_err := Some (Wrapf err "filter metas" []) |}
       | None =>
           {| res_metas := Some a; res_partial := Some (partial resp);
              res_err :=
                if (0 <? length (metaErrs resp))%nat
                then Some (Wrapf (Multi (metaErrs resp)) "incomplete view" [])
                else None |}
       end.
Proof.
  unfold fetch_after, make. rewrite deref_insert_eq.
  destruct (out_err _); [done|].
  by destruct (0 <? length (metaErrs resp))%nat.
Qed.

Lemma fetch_eq env h f metrics filters :
  fetch env h f metrics filters
  = ((fetch_after (fetchMetadata env h f).2 (fetchMetadata env h f).1.1
        (begin_fetch metrics) filters).1.1,
     (fetchMetadata env h f).1.2,
     (fetch_after (fetchMetadata env h f).2 (fetchMetadata env h f).1.1
        (begin_fetch metrics) filters).1.2,
     (fetch_after (fetchMetadata env h f).2 (fetchMetadata env h f).1.1
        (begin_fetch metrics) filters).2).
Proof.
  unfold fetch. destruct (fetchMetadata env h f) as [[h1 f1] v].
  cbn [fst snd]. by destruct (fetch_after v h1 (begin_fetch metrics) filters) as [[? ?] ?].
Qed.

End FetchFacts.

Section FreshCopy.
Import block cache_spec fetch_out.

Lemma fresh_ne (h : Heap) a : a ∈ dom h -> a <> fresh (dom h).
Proof. intros Ha ->. by apply (is_fresh (dom h)). Qed.

(** [fetch], after [Do], leaves every map that was there as it was. *)
Lemma fetch_after_old v (h : Heap) metrics filters a :
  a ∈ dom h -> (fetch_after v h metrics filters).1.1 !! a = h !! a.
Proof.
  intros Ha. destruct v as [err|resp]; [done|].
  rewrite (proj1 (fetch_after_response resp h metrics filters)).
  pose proof (fresh_ne h a Ha).
  by rewrite !lookup_insert_ne by congruence.
Qed.

(** The map [fetch] returns is the new map it made, as the filters left
    it. *)
Lemma fetch_after_returned v (h : Heap) metrics filters a :
  res_metas (fetch_after v h metrics filters).2 = Some a ->
  exists resp,
    v = inr resp /\ a = fresh (dom h)
    /\ deref (fetch_after v h metrics filters).1.1 a
       = out_metas
           (run_filters filters (deref h (metas resp))
              (extprom.Set_ CorruptedMeta (corruptedMetas resp)
                 (extprom.Set_ NoMeta (noMetas resp)
                    (extprom.Set_ FailedMeta (length (metaErrs resp))
                       (extprom.tx (Synced metrics)))))
              (extprom.tx (Modified metrics))).
Proof.
  destruct v as [err|resp]; [discriminate|].
  destruct (fetch_after_response resp h metrics filters) as [Hh Hr].
  rewrite Hh, Hr. clear Hh Hr.
  destruct (out_err _); [discriminate|]. cbn [res_metas].
  intros [= <-]. exists resp. repeat split. apply deref_insert_eq.
Qed.

Lemma deref_old (h h' : Heap) a : h' !! a = h !! a -> deref h' a = deref h a.
Proof. unfold deref. by intros ->. Qed.

End FreshCopy.

Section SyncFacts.
Import block cache_spec fetch_out.

(** What a sync does to the heap and to the cache. *)
Lemma fetchMetadata_facts env (h : Heap) f :
  wf h f ->
  (forall a, a ∈ dom h -> (fetchMetadata env h f).1.1 !! a = h !! a)
  /\ (dom h ⊆ dom (fetchMetadata env h f).1.1)
  /\ wf (fetchMetadata env h f).1.1 (fetchMetadata env h f).1.2
  /\ (forall resp,
        (fetchMetadata env h f).2 = inr resp ->
        resp = (sync_workers env h f).2
        /\ iter_err env = None
        /\ (metas resp ∈ dom (fetchMetadata env h f).1.1)
        /\ (metas resp ∉ dom h)
        /\ metas resp <> cached (fetchMetadata env h f).1.2)
  /\ ((cached (fetchMetadata env h f).1.2 = cached f
       /\ (is_Some (iter_err env) \/ metaErrs (sync_workers env h f).2 <> [])
       /\ (fetchMetadata env h f).1.1 = (sync_workers env h f).1.1)
      \/ (iter_err env = None
          /\ metaErrs (sync_workers env h f).2 = []
          /\ (fetchMetadata env h f).2 = inr (sync_workers env h f).2
          /\ (cached (fetchMetadata env h f).1.2 ∉ dom h)
          /\ deref (fetchMetadata env h f).1.1 (cached (fetchMetadata env h f).1.2)
             = deref (fetchMetadata env h f).1.1 (metas (sync_workers env h f).2))).
Proof.
  intros Hwf. unfold wf in *.
  pose proof (sync_workers_spec env h f) as (S1 & S2 & S3 & S4).
  pose proof (fetchMetadata_cases env h f) as Hc.
  destruct (sync_workers env h f) as [[h0 f0] resp0]. cbn [fst snd] in *.
  assert (fresh (dom h) ∉ dom h) as Hfr by apply is_fresh.
  assert (fresh (dom h0) ∉ dom h0) as Hfr0 by apply is_fresh.
  assert (dom h ⊆ dom h0) as Hsub by (rewrite S4; set_solver).
  assert (metas resp0 ∈ dom h0) as Hm0 by (rewrite S1, S4; set_solver).
  destruct Hc as [(err & Hi & ->)|[(Hi & He & ->)|(Hi & He & f1 & Hf1 & ->)]];
    cbn [fst snd].
  - split; [exact S3|]. split; [exact Hsub|].
    split; [rewrite S2; by apply Hsub|]. split; [by intros ? [=]|].
    left. rewrite Hi. eauto.
  - split; [exact S3|]. split; [exact Hsub|].
    split; [rewrite S2; by apply Hsub|].
    split.
    { intros resp [= <-]. repeat split; try done.
      - by rewrite S1.
      - rewrite S1, S2. intros E. rewrite E in Hfr. done. }
    left. auto.
  - assert (forall a, a ∈ dom h0 -> a <> fresh (dom h0)) as Hne
      by (intros a Ha ->; done).
    split.
    { intros a Ha. rewrite lookup_insert_ne; [by apply S3|].
      apply not_eq_sym, Hne. by apply Hsub. }
    split; [rewrite dom_insert_L; set_solver|].
    split; [rewrite Hf1, dom_insert_L; set_solver|].
    split.
    { intros resp [= <-]. repeat split; try done.
      - rewrite dom_insert_L. set_solver.
      - by rewrite S1.
      - rewrite Hf1. by apply Hne. }
    right. repeat split; try done.
    + rewrite Hf1. intros Hin. apply Hfr0. by apply Hsub.
    + rewrite Hf1, deref_insert_eq. symmetry. apply deref_insert_ne.
      apply not_eq_sym, Hne, Hm0.
Qed.

End SyncFacts.

(** ** The map handed to the filters *)

Section FiltersOnFreshCopy.
Import block cache_spec fetch_out.

(** C10.  The map that goes through the filter chain and is returned is a
    map that [fetch] has just made: a copy of the map of the response, at an
    address that is neither that of the response's map nor that of the
    cache.  No map that was there before the call is changed by it, so the
    filters change neither the cache nor the map of the shared response.  The
    cache differs after the call only when the caller's own sync iterated the
    bucket and met no error for any block, and then it is a new map with the
    contents of the response's map.  The first part is for the caller that
    runs the sync, the second for a caller that shares its response. *)
Theorem filters_run_on_fresh_copy :
  (forall env (h : gmap positive (gmap ulid.ULID Meta)) f metrics filters,
     wf h f ->
     (forall a, a ∈ dom h ->
        heap_of (fetch env h f metrics filters) !! a = h !! a)
     /\ (forall a,
           res_metas (result_of (fetch env h f metrics filters)) = Some a ->
           exists resp,
             (fetchMetadata env h f).2 = inr resp
             /\ (a ∉ dom (fetchMetadata env h f).1.1)
             /\ a <> metas resp
             /\ a <> cached (fetcher_of (fetch env h f metrics filters))
             /\ deref (heap_of (fetch env h f metrics filters)) a
                = out_metas (filtered filters metrics
                               (fetchMetadata env h f).1.1 resp))
     /\ deref (heap_of (fetch env h f metrics filters))
              (cached (fetcher_of (fetch env h f metrics filters)))
        = deref (fetchMetadata env h f).1.1 (cached (fetchMetadata env h f).1.2)
     /\ (forall resp,
           (fetchMetadata env h f).2 = inr resp ->
           deref (heap_of (fetch env h f metrics filters)) (metas resp)
           = deref (fetchMetadata env h f).1.1 (metas resp))
     /\ (cached (fetcher_of (fetch env h f metrics filters)) <> cached f ->
         iter_err env = None
         /\ metaErrs (sync_workers env h f).2 = []
         /\ (cached (fetcher_of (fetch env h f metrics filters)) ∉ dom h)
         /\ deref (fetchMetadata env h f).1.1
                  (cached (fetcher_of (fetch env h f metrics filters)))
            = deref (fetchMetadata env h f).1.1
                    (metas (sync_workers env h f).2)))
  /\ (forall resp (h : gmap positive (gmap ulid.ULID Meta)) metrics filters,
        metas resp ∈ dom h ->
        (forall a, a ∈ dom h ->
           (fetch_shared (inr resp) h metrics filters).1.1 !! a = h !! a)
        /\ (forall a,
              res_metas (fetch_shared (inr resp) h metrics filters).2 = Some a ->
              (a ∉ dom h) /\ a <> metas resp
              /\ deref (fetch_shared (inr resp) h metrics filters).1.1 a
                 = out_metas (filtered filters metrics h resp))).
Proof.
  split.
  - intros env h f metrics filters Hwf.
    pose proof (fetchMetadata_facts env h f Hwf) as (F1 & F2 & F3 & F4 & F5).
    rewrite fetch_eq. unfold heap_of, fetcher_of, result_of. cbn [fst snd].
    destruct (fetchMetadata env h f) as [[h1 f1] v]. cbn [fst snd] in *.
    unfold wf in *.
    assert (forall a, a ∈ dom h1 ->
              deref (fetch_after v h1 (begin_fetch metrics) filters).1.1 a
              = deref h1 a) as Hold.
    { intros a Ha. by apply deref_old, fetch_after_old. }
    split; [|split; [|split; [|split]]].
    + intros a Ha. rewrite fetch_after_old by (by apply F2). by apply F1.
    + intros a (resp & -> & -> & Hd)%fetch_after_returned.
      exists resp. destruct (F4 resp eq_refl) as (_ & _ & Hm & _ & _).
      split; [done|]. split; [apply is_fresh|].
      split; [apply not_eq_sym; by apply fresh_ne|].
      split; [apply not_eq_sym; by apply fresh_ne|]. exact Hd.
    + by apply Hold.
    + intros resp ->. destruct (F4 resp eq_refl) as (_ & _ & Hm & _ & _).
      by apply Hold.
    + intros Hne. destruct F5 as [(Hc & _)|(Hi & He & _ & Hn & Hd)]; [done|].
      done.
  - intros resp h metrics filters Hm. unfold fetch_shared. split.
    + intros a Ha. by apply fetch_after_old.
    + intros a (resp' & [= <-] & -> & Hd)%fetch_after_returned.
      split; [apply is_fresh|]. split; [apply not_eq_sym; by apply fresh_ne|].
      exact Hd.
Qed.

End FiltersOnFreshCopy.

Lemma filters_run_on_fresh_copy_witness :
  let out := block.fetch sync_examples.marked_block sync_examples.heap0
               sync_examples.fetcher0 sync_examples.no_metrics
               [sync_examples.mark_filter sync_examples.marked_block] in
  let sync := block.fetchMetadata sync_examples.marked_block
                sync_examples.heap0 sync_examples.fetcher0 in
  block.deref (fetch_out.heap_of out) (block.cached (fetch_out.fetcher_of out))
  = block.deref sync.1.1 (block.cached sync.1.2).
Proof.
  intros out sync.
  refine (proj1 (proj2 (proj2
            (proj1 filters_run_on_fresh_copy sync_examples.marked_block
               sync_examples.heap0 sync_examples.fetcher0
               sync_examples.no_metrics
               [sync_examples.mark_filter sync_examples.marked_block] _)))).
  unfold cache_spec.wf. vm_compute. reflexivity.
Defined.

(** ** The cache after a sync *)

Section CacheAfterSync.
Import block cache_spec fetch_out.

(** C1, as the code has it.  After a sync that iterated the bucket and met
    no error for any block, the cache has the contents of the map of the
    response, the map before the filters.  The map that [Fetch] returns is
    the copy of it that went through the filter chain; with no filter it is
    equal to the cache.  And [Fetch] returns no error only after such a
    sync. *)
Theorem cache_equals_response_map
    env (h : gmap positive (gmap ulid.ULID Meta)) f metrics filters :
  wf h f ->
  (forall resp,
     (fetchMetadata env h f).2 = inr resp -> metaErrs resp = [] ->
     deref (heap_of (fetch env h f metrics filters))
           (cached (fetcher_of (fetch env h f metrics filters)))
     = deref (heap_of (fetch env h f metrics filters)) (metas resp)
     /\ (forall a,
           res_metas (result_of (fetch env h f metrics filters)) = Some a ->
           deref (heap_of (fetch env h f metrics filters)) a
           = out_metas (filtered filters metrics
                          (heap_of (fetch env h f metrics filters)) resp))
     /\ (filters = [] ->
         exists a,
           result_of (fetch env h f metrics filters)
           = {| res_metas := Some a; res_partial := Some (partial resp);
                res_err := None |}
           /\ deref (heap_of (fetch env h f metrics filters)) a
              = deref (heap_of (fetch env h f metrics filters))
                      (cached (fetcher_of (fetch env h f metrics filters)))))
  /\ (res_err (result_of (fetch env h f metrics filters)) = None ->
      exists resp,
        (fetchMetadata env h f).2 = inr resp /\ metaErrs resp = []).
Proof.
  intros Hwf.
  pose proof (fetchMetadata_facts env h f Hwf) as (F1 & F2 & F3 & F4 & F5).
  rewrite fetch_eq. unfold heap_of, fetcher_of, result_of. cbn [fst snd].
  destruct (fetchMetadata env h f) as [[h1 f1] v]. cbn [fst snd] in *.
  unfold wf in *.
  assert (forall a, a ∈ dom h1 ->
            deref (fetch_after v h1 (begin_fetch metrics) filters).1.1 a
            = deref h1 a) as Hold.
  { intros a Ha. by apply deref_old, fetch_after_old. }
  split.
  - intros resp -> He.
    destruct (F4 resp eq_refl) as (Hr & Hi0 & Hm & _ & _).
    destruct F5 as [(_ & [[e Hi]|Hne] & _)|(_ & _ & _ & _ & Hd)];
      [congruence | by rewrite <- Hr in Hne |].
    rewrite <- Hr in Hd.
    split; [|split].
    + rewrite !Hold by done. exact Hd.
    + intros a (resp' & [= <-] & -> & Hda)%fetch_after_returned.
      rewrite Hda. unfold filtered. by rewrite Hold.
    + intros ->.
      destruct (fetch_after_response resp h1 (begin_fetch metrics) []) as [Hh Hres].
      rewrite Hres. cbn [run_filters out_err]. rewrite He. cbn [length Nat.ltb Nat.leb].
      eexists. split; [reflexivity|].
      rewrite (Hold (cached f1)) by done. rewrite Hh. cbn [run_filters out_metas].
      rewrite deref_insert_eq. by symmetry.
  - intros Hnone. destruct v as [err|resp]; [discriminate Hnone|].
    exists resp. split; [done|].
    rewrite (proj2 (fetch_after_response resp h1 (begin_fetch metrics) filters)) in Hnone.
    destruct (out_err _); [discriminate Hnone|]. cbn [res_err] in Hnone.
    destruct (metaErrs resp); [done | discriminate Hnone].
Qed.

End CacheAfterSync.

Lemma cache_equals_response_map_witness :
  let out := block.fetch sync_examples.marked_block sync_examples.heap0
               sync_examples.fetcher0 sync_examples.no_metrics [] in
  exists resp,
    (block.fetchMetadata sync_examples.marked_block sync_examples.heap0
       sync_examples.fetcher0).2 = inr resp
    /\ block.metaErrs resp = [].
Proof.
  intros out.
  refine (proj2 (cache_equals_response_map sync_examples.marked_block
                   sync_examples.heap0 sync_examples.fetcher0
                   sync_examples.no_metrics [] _) _).
  - unfold cache_spec.wf. vm_compute. reflexivity.
  - vm_compute. reflexivity.
Defined.

(** C1, as stated, fails: block 1 is marked for deletion long ago; the sync
    meets no error and [Fetch] returns none; the cache holds block 1, and the
    map returned to the caller, from which the deletion-mark filter removed
    it, is empty. *)
Lemma cache_differs_from_returned_map :
  let out := block.fetch sync_examples.marked_block sync_examples.heap0
               sync_examples.fetcher0 sync_examples.no_metrics
               [sync_examples.mark_filter sync_examples.marked_block] in
  block.res_err (fetch_out.result_of out) = None
  /\ exists a,
       block.res_metas (fetch_out.result_of out) = Some a
       /\ block.deref (fetch_out.heap_of out) a = ∅
       /\ block.deref (fetch_out.heap_of out)
            (block.cached (fetch_out.fetcher_of out))
          = {[ 1%N := sync_examples.good 1 ]}
       /\ block.deref (fetch_out.heap_of out)
            (block.cached (fetch_out.fetcher_of out))
          <> block.deref (fetch_out.heap_of out) a.
Proof.
  split; [by vm_compute|].
  eexists. split; [by vm_compute|].
  split; [by vm_compute|]. split; [by vm_compute|].
  vm_compute. discriminate.
Qed.

(** ** A sync that met an error *)

Section IncompleteSync.
Import block cache_spec fetch_out.

(** C3, as the code has it.  When the load of some block failed with an
    error that is neither [MetaNotFound] nor [MetaCorrupted], the cache is
    not replaced: it is the same map with the same contents.  When moreover
    the iteration of the bucket and every filter succeeded, [Fetch] returns
    the filtered metas and the partial map together with the errors of the
    blocks, aggregated and wrapped as an incomplete view.  When the
    iteration failed, or a filter did, [Fetch] returns that error alone. *)
Theorem incomplete_sync_keeps_cache
    env (h : gmap positive (gmap ulid.ULID Meta)) f metrics filters :
  wf h f ->
  metaErrs (sync_workers env h f).2 <> [] ->
  cached (fetcher_of (fetch env h f metrics filters)) = cached f
  /\ deref (heap_of (fetch env h f metrics filters)) (cached f)
     = deref h (cached f)
  /\ (iter_err env = None ->
      out_err (filtered filters metrics (sync_workers env h f).1.1
                 (sync_workers env h f).2) = None ->
      exists a,
        result_of (fetch env h f metrics filters)
        = {| res_metas := Some a;
             res_partial := Some (partial (sync_workers env h f).2);
             res_err :=
               Some (Wrapf (Multi (metaErrs (sync_workers env h f).2))
                       "incomplete view" []) |}
        /\ deref (heap_of (fetch env h f metrics filters)) a
           = out_metas (filtered filters metrics (sync_workers env h f).1.1
                          (sync_workers env h f).2))
  /\ (forall err,
        iter_err env = Some err ->
        result_of (fetch env h f metrics filters)
        = {| res_metas := None; res_partial := None;
             res_err := Some (Wrapf err "BaseFetcher: iter bucket" []) |})
  /\ (forall err,
        iter_err env = None ->
        out_err (filtered filters metrics (sync_workers env h f).1.1
                   (sync_workers env h f).2) = Some err ->
        result_of (fetch env h f metrics filters)
        = {| res_metas := None; res_partial := None;
             res_err := Some (Wrapf err "filter metas" []) |}).
Proof.
  intros Hwf Hne. unfold wf in Hwf.
  pose proof (sync_workers_spec env h f) as (S1 & S2 & S3 & S4).
  pose proof (fetchMetadata_cases env h f) as Hc.
  rewrite fetch_eq. unfold heap_of, fetcher_of, result_of, filtered. cbn [fst snd].
  destruct (sync_workers env h f) as [[h0 f0] resp0]. cbn [fst snd] in *.
  assert (cached f ∈ dom h0) as Hin by (rewrite S4; set_solver).
  assert (deref h0 (cached f) = deref h (cached f)) as Hd0
    by (by apply deref_old, S3).
  destruct Hc as [(err & Hi & ->)|[(Hi & _ & ->)|(_ & He & _)]];
    [| |done]; cbn [fst snd].
  - split; [done|]. split; [done|].
    split; [by rewrite Hi|]. split; [|by rewrite Hi].
    intros err' Hi'. rewrite Hi in Hi'. by injection Hi' as ->.
  - destruct (fetch_after_response resp0 h0 (begin_fetch metrics) filters)
      as [Hh Hres].
    rewrite Hh, Hres. clear Hh Hres.
    pose proof (fresh_ne h0 (cached f) Hin) as Hfr.
    split; [done|]. split.
    { unfold deref in *. by rewrite !lookup_insert_ne by congruence. }
    assert ((0 <? length (metaErrs resp0))%nat = true) as ->.
    { destruct (metaErrs resp0); [done | reflexivity]. }
    split; [|split].
    + intros _ Ho. unfold synced_before_filters in *. rewrite Ho.
      eexists. split; [reflexivity|]. apply deref_insert_eq.
    + intros err Hi'. congruence.
    + intros err _ Ho. unfold synced_before_filters in Ho. by rewrite Ho.
Qed.

End IncompleteSync.

Lemma incomplete_sync_keeps_cache_witness :
  block.cached
    (fetch_out.fetcher_of
       (block.fetch sync_examples.failing_bucket sync_examples.heap0
          sync_examples.fetcher0 sync_examples.no_metrics []))
  = block.cached sync_examples.fetcher0.
Proof.
  refine (proj1 (incomplete_sync_keeps_cache sync_examples.failing_bucket
                   sync_examples.heap0 sync_examples.fetcher0
                   sync_examples.no_metrics [] _ _)).
  - unfold cache_spec.wf. vm_compute. reflexivity.
  - vm_compute. discriminate.
Defined.

(** C3, as stated, fails: the load of block 2 fails with a bucket error, so
    the sync has met an error for a block; the deletion-mark filter then
    fails on the probe of block 1, and [Fetch] returns that error, with
    neither the aggregated errors of the blocks nor the partial map. *)
Lemma incomplete_sync_filter_error :
  let out := block.fetch sync_examples.failing_bucket sync_examples.heap0
               sync_examples.fetcher0 sync_examples.no_metrics
               [sync_examples.mark_filter sync_examples.failing_bucket] in
  let resp := (block.sync_workers sync_examples.failing_bucket
                 sync_examples.heap0 sync_examples.fetcher0).2 in
  block.metaErrs resp
  = [Wrapf (Foreign false "bucket timeout") "meta.json file exists: %v"
       [AStr "00000000000000000000000002/meta.json"]]
  /\ fetch_out.result_of out
     = {| block.res_metas := None; block.res_partial := None;
          block.res_err :=
            Some (Wrapf (Wrapf (Foreign false "bucket timeout")
                           "filter blocks marked for deletion" [])
                    "filter metas" []) |}
  /\ block.res_err (fetch_out.result_of out)
     <> Some (Wrapf (Multi (block.metaErrs resp)) "incomplete view" [])
  /\ block.res_partial (fetch_out.result_of out)
     <> Some (block.partial resp).
Proof.
  split; [by vm_compute|]. split; [by vm_compute|].
  split; vm_compute; discriminate.
Qed.

(** ** Blocks that [loadMeta] fails on *)

Section LoadFailures.
Import block cache_spec.
Context (env : Env).

(** With the block in no cache, [loadMeta] leaves it in no cache when it
    fails. *)
Lemma load_from_dir_not_cached (h : Heap) f id :
  not_cached h f id ->
  (load_from_dir env f id).2 = None
  /\ not_cached h (load_from_dir env f id).1 id.
Proof.
  intros Hn. pose proof Hn as [Hm Hd]. unfold load_from_dir, with_dir.
  destruct (cacheDir f) as [d|] eqn:Ed; cbn [fst snd]; [|by split].
  destruct (d !! id) as [[m|]|] eqn:Ei; cbn [fst snd].
  - by destruct (Hd d m).
  - split; [done|]. destruct (disk_ok env id); [|done].
    split; [done|]. cbn [cacheDir]. intros d' m [= <-].
    by rewrite lookup_delete_eq.
  - by split.
Qed.

Lemma loadMeta_vanished (h : Heap) f id err :
  not_cached h f id ->
  exists_meta env id = inr true ->
  get_meta env id = inl err -> IsObjNotFoundErr err = true ->
  (loadMeta env h f id).2
  = inl (Wrapf (Sentinel SyncMetaNotFound) "%v" [AErr err])
  /\ not_cached h (loadMeta env h f id).1 id.
Proof.
  intros Hn He Hg Hnf.
  destruct (load_from_dir_not_cached h f id Hn) as [Hl Hn'].
  unfold loadMeta. rewrite He, (proj1 Hn).
  destruct (load_from_dir env f id) as [f1 o]. cbn [fst snd] in *. subst o.
  by rewrite Hg, Hnf.
Qed.

Lemma loadMeta_version (h : Heap) f id m :
  not_cached h f id ->
  exists_meta env id = inr true ->
  get_meta env id = inr (Parsed m) ->
  metadata.Version m <> metadata.TSDBVersion1 ->
  (loadMeta env h f id).2
  = inl (Errorf "unexpected meta file: %s version: %d"
           [AStr (path.Join (ulid.String id) MetaFilename);
            AInt (metadata.Version m)])
  /\ not_cached h (loadMeta env h f id).1 id.
Proof.
  intros Hn He Hg Hv.
  destruct (load_from_dir_not_cached h f id Hn) as [Hl Hn'].
  unfold loadMeta. rewrite He, (proj1 Hn).
  destruct (load_from_dir env f id) as [f1 o]. cbn [fst snd] in *. subst o.
  rewrite Hg. apply Z.eqb_neq in Hv as ->. done.
Qed.

(** The load of another block leaves the block in no cache. *)
Lemma loadMeta_other (h : Heap) f id id' :
  id' <> id -> not_cached h f id -> not_cached h (loadMeta env h f id').1 id.
Proof.
  intros Hne [Hm Hd].
  destruct (loadMeta_fetcher env h f id') as (Hc & _ & Hnone & Hsome).
  split; [by rewrite Hc|].
  intros d' m Hd'. destruct (cacheDir f) as [d|] eqn:Ed.
  - destruct (Hsome d eq_refl) as (d'' & Hd'' & Hk).
    rewrite Hd' in Hd''. injection Hd'' as <-.
    rewrite Hk by congruence. by apply Hd.
  - rewrite Hnone in Hd'; done.
Qed.

(** What a worker's step for another block leaves of this block. *)
Lemma worker_step_other (h : Heap) f resp id id' :
  id' <> id -> metas resp <> cached f -> not_cached h f id ->
  not_cached (worker_step env (h, f, resp) id').1.1
             (worker_step env (h, f, resp) id').1.2 id
  /\ deref (worker_step env (h, f, resp) id').1.1 (metas resp) !! id
     = deref h (metas resp) !! id
  /\ partial (worker_step env (h, f, resp) id').2 !! id = partial resp !! id
  /\ (noMetas resp <= noMetas (worker_step env (h, f, resp) id').2)%nat
  /\ (length (metaErrs (worker_step env (h, f, resp) id').2)
      <= S (length (metaErrs resp)))%nat
  /\ (forall e, e ∈ metaErrs resp ->
        e ∈ metaErrs (worker_step env (h, f, resp) id').2).
Proof.
  intros Hne Ha Hn.
  pose proof (loadMeta_other h f id id' Hne Hn) as Hn'.
  pose proof (loadMeta_fetcher env h f id') as (Hc & _).
  unfold worker_step.
  destruct (loadMeta env h f id') as [f' [err|m]]; cbn [fst snd] in *.
  - repeat case_match; cbn [fst snd partial noMetas metaErrs];
      rewrite ?lookup_insert_ne by congruence; rewrite ?length_app;
      cbn [length]; repeat split; try done; try lia; try apply Hn'.
    intros e He. apply elem_of_app. by left.
  - destruct Hn' as [Hm Hd]. repeat split; try done; try lia.
    + rewrite deref_insert_ne by congruence. done.
    + rewrite deref_insert_eq. by rewrite lookup_insert_ne.
Qed.

End LoadFailures.

Section SyncOfFailingBlock.
Import block cache_spec.
Context (env : Env) (id : ulid.ULID).

Lemma step_metas h f resp x :
  metas (worker_step env (h, f, resp) x).2 = metas resp
  /\ cached (worker_step env (h, f, resp) x).1.2 = cached f.
Proof.
  pose proof (worker_step_spec env h f resp x) as (H1 & H2 & _). by split.
Qed.

Lemma worker_step_vanished err (h : Heap) f resp :
  vanishes env id err -> not_cached h f id ->
  let e := Wrapf (Sentinel SyncMetaNotFound) "%v" [AErr err] in
  not_cached (worker_step env (h, f, resp) id).1.1
             (worker_step env (h, f, resp) id).1.2 id
  /\ (worker_step env (h, f, resp) id).1.1 = h
  /\ (worker_step env (h, f, resp) id).2
     = {| metas := metas resp; partial := <[id := e]> (partial resp);
          metaErrs := metaErrs resp; noMetas := S (noMetas resp);
          corruptedMetas := corruptedMetas resp |}.
Proof.
  intros (He & Hg & Hnf) Hn e.
  destruct (loadMeta_vanished env h f id err Hn He Hg Hnf) as [Hl Hn'].
  unfold worker_step.
  destruct (loadMeta env h f id) as [f1 res]. cbn [fst snd] in *. subst res.
  change (cause_is SyncMetaNotFound
            (Wrapf (Sentinel SyncMetaNotFound) "%v" [AErr err])) with true.
  cbn [fst snd]. split; [exact Hn'|]. split; reflexivity.
Qed.

Lemma workers_fold_vanished err ids (h : Heap) f resp :
  vanishes env id err ->
  metas resp <> cached f -> not_cached h f id ->
  deref h (metas resp) !! id = None ->
  not_cached (foldl (worker_step env) (h, f, resp) ids).1.1
             (foldl (worker_step env) (h, f, resp) ids).1.2 id
  /\ deref (foldl (worker_step env) (h, f, resp) ids).1.1 (metas resp) !! id = None
  /\ partial (foldl (worker_step env) (h, f, resp) ids).2 !! id
     = (if decide (id ∈ ids)
        then Some (Wrapf (Sentinel SyncMetaNotFound) "%v" [AErr err])
        else partial resp !! id)
  /\ (noMetas resp + length (filter (λ x, x = id) ids)
      <= noMetas (foldl (worker_step env) (h, f, resp) ids).2)%nat
  /\ (length (metaErrs (foldl (worker_step env) (h, f, resp) ids).2)
      <= length (metaErrs resp) + length (filter (λ x, x <> id) ids))%nat.
Proof.
  intros Hv. revert h f resp.
  induction ids as [|x ids IH]; intros h f resp Ha Hn Hd; cbn [foldl].
  - rewrite decide_False by apply not_elem_of_nil.
    cbn [filter list_filter length fst snd]. repeat split; try done; try apply Hn; lia.
  - destruct (step_metas h f resp x) as [Hm Hc].
    destruct (decide (x = id)) as [->|Hne].
    + destruct (worker_step_vanished err h f resp Hv Hn) as (Hn1 & Hh1 & Hr1).
      destruct (worker_step env (h, f, resp) id) as [[h1 f1] resp1].
      cbn [fst snd] in *. subst h1.
      destruct (IH h f1 resp1 ltac:(congruence) Hn1 ltac:(congruence))
        as (I1 & I2 & I3 & I4 & I5).
      rewrite Hm in *.
      assert (partial resp1
              = <[id := Wrapf (Sentinel SyncMetaNotFound) "%v" [AErr err]]>
                  (partial resp)) as Hp by (by rewrite Hr1).
      assert (noMetas resp1 = S (noMetas resp)) as Hnm by (by rewrite Hr1).
      assert (metaErrs resp1 = metaErrs resp) as Hme by (by rewrite Hr1).
      rewrite Hp in I3. rewrite Hnm in I4. rewrite Hme in I5.
      rewrite filter_cons_True by done.
      rewrite (filter_cons_False (λ x, x <> id)) by (intros ?; done).
      rewrite (decide_True (P := id ∈ id :: ids)) by (apply elem_of_cons; by left).
      split; [done|]. split; [done|]. split.
      { rewrite I3. by destruct (decide (id ∈ ids)); [|rewrite lookup_insert_eq]. }
      cbn [length]. split; lia.
    + destruct (worker_step_other env h f resp id x Hne Ha Hn)
        as (Hn1 & Hd1 & Hp1 & Hc1 & He1 & _).
      destruct (worker_step env (h, f, resp) x) as [[h1 f1] resp1].
      cbn [fst snd] in *.
      destruct (IH h1 f1 resp1 ltac:(congruence) Hn1
                  ltac:(rewrite Hm; congruence)) as (I1 & I2 & I3 & I4 & I5).
      rewrite Hm in *.
      rewrite filter_cons_False by done.
      rewrite (filter_cons_True (λ x, x <> id)) by done.
      split; [done|]. split; [done|]. split.
      { rewrite I3, Hp1. destruct (decide (id ∈ ids)) as [Hi|Hi].
        - by rewrite decide_True by (apply elem_of_cons; by right).
        - rewrite decide_False; [done|]. intros [?|?]%elem_of_cons; congruence. }
      cbn [length]. split; lia.
Qed.

Lemma worker_step_version m (h : Heap) f resp :
  other_version env id m -> not_cached h f id ->
  not_cached (worker_step env (h, f, resp) id).1.1
             (worker_step env (h, f, resp) id).1.2 id
  /\ (worker_step env (h, f, resp) id).1.1 = h
  /\ (worker_step env (h, f, resp) id).2
     = {| metas := metas resp; partial := partial resp;
          metaErrs := metaErrs resp ++ [version_error id m];
          noMetas := noMetas resp; corruptedMetas := corruptedMetas resp |}.
Proof.
  intros (He & Hg & Hv) Hn.
  destruct (loadMeta_version env h f id m Hn He Hg Hv) as [Hl Hn'].
  unfold worker_step.
  destruct (loadMeta env h f id) as [f1 res]. cbn [fst snd] in *. subst res.
  change (cause_is SyncMetaNotFound (Errorf _ _)) with false.
  change (cause_is SyncMetaCorrupted (Errorf _ _)) with false.
  cbn [fst snd]. split; [exact Hn'|]. split; reflexivity.
Qed.

Lemma workers_fold_version m ids (h : Heap) f resp :
  other_version env id m ->
  metas resp <> cached f -> not_cached h f id ->
  deref h (metas resp) !! id = None ->
  not_cached (foldl (worker_step env) (h, f, resp) ids).1.1
             (foldl (worker_step env) (h, f, resp) ids).1.2 id
  /\ deref (foldl (worker_step env) (h, f, resp) ids).1.1 (metas resp) !! id = None
  /\ partial (foldl (worker_step env) (h, f, resp) ids).2 !! id
     = partial resp !! id
  /\ (forall e, e ∈ metaErrs resp ->
        e ∈ metaErrs (foldl (worker_step env) (h, f, resp) ids).2)
  /\ (id ∈ ids ->
      version_error id m ∈ metaErrs (foldl (worker_step env) (h, f, resp) ids).2).
Proof.
  intros Hv. revert h f resp.
  induction ids as [|x ids IH]; intros h f resp Ha Hn Hd; cbn [foldl].
  - cbn [fst snd]. split; [exact Hn|]. split; [exact Hd|].
    split; [reflexivity|]. split; [by intros e He|by intros ?%elem_of_nil].
  - destruct (step_metas h f resp x) as [Hm Hc].
    destruct (decide (x = id)) as [->|Hne].
    + destruct (worker_step_version m h f resp Hv Hn) as (Hn1 & Hh1 & Hr1).
      destruct (worker_step env (h, f, resp) id) as [[h1 f1] resp1].
      cbn [fst snd] in *. subst h1.
      destruct (IH h f1 resp1 ltac:(congruence) Hn1 ltac:(congruence))
        as (I1 & I2 & I3 & I4 & I5).
      rewrite Hm in *.
      assert (partial resp1 = partial resp) as Hp by (by rewrite Hr1).
      assert (metaErrs resp1 = (metaErrs resp ++ [version_error id m])%list)
        as Hme by (by rewrite Hr1).
      rewrite Hp in I3. rewrite Hme in I4.
      split; [done|]. split; [done|]. split; [done|]. split.
      * intros e He. apply I4. apply elem_of_app. by left.
      * intros _. apply I4. apply elem_of_app. right.
        by apply list_elem_of_singleton.
    + destruct (worker_step_other env h f resp id x Hne Ha Hn)
        as (Hn1 & Hd1 & Hp1 & Hc1 & He1 & Hk1).
      destruct (worker_step env (h, f, resp) x) as [[h1 f1] resp1].
      cbn [fst snd] in *.
      destruct (IH h1 f1 resp1 ltac:(congruence) Hn1
                  ltac:(rewrite Hm; congruence)) as (I1 & I2 & I3 & I4 & I5).
      rewrite Hm in *.
      split; [done|]. split; [done|]. split; [congruence|]. split.
      * intros e He. by apply I4, Hk1.
      * intros [?|Hin]%elem_of_cons; [congruence|]. by apply I5.
Qed.

End SyncOfFailingBlock.

Section SyncLevel.
Import block cache_spec fetch_out.

(** The state in which the workers start. *)
Lemma sync_workers_start env (h : Heap) f id :
  wf h f -> not_cached h f id ->
  exists h0 f0 resp0,
    sync_workers env h f = foldl (worker_step env) (h0, f0, resp0) (iter_ids env)
    /\ metas resp0 <> cached f0 /\ not_cached h0 f0 id
    /\ deref h0 (metas resp0) !! id = None
    /\ partial resp0 = ∅ /\ metaErrs resp0 = [] /\ noMetas resp0 = 0%nat
    /\ metas resp0 = fresh (dom h).
Proof.
  intros Hwf [Hm Hd]. unfold wf in Hwf.
  pose proof (fresh_ne h (cached f) Hwf) as Hne.
  unfold sync_workers, make.
  eexists _, _, _. split; [reflexivity|]. cbn [metas cached partial metaErrs noMetas].
  split; [congruence|]. split.
  { split; cbn [cached cacheDir]; [|exact Hd].
    rewrite deref_insert_ne by congruence. exact Hm. }
  split; [by rewrite deref_insert_eq|]. by repeat split.
Qed.

(** A sync that met an error for a block returns an error and keeps the
    cache. *)
Lemma incomplete_sync_error env (h : Heap) f metrics filters :
  metaErrs (sync_workers env h f).2 <> [] ->
  res_err (result_of (fetch env h f metrics filters)) <> None
  /\ cached (fetcher_of (fetch env h f metrics filters)) = cached f.
Proof.
  intros Hne.
  pose proof (sync_workers_spec env h f) as (_ & S2 & _).
  pose proof (fetchMetadata_cases env h f) as Hc.
  rewrite fetch_eq. unfold fetcher_of, result_of. cbn [fst snd].
  destruct (sync_workers env h f) as [[h0 f0] resp0]. cbn [fst snd] in *.
  destruct Hc as [(err & Hi & ->)|[(Hi & _ & ->)|(_ & He & _)]];
    [| |done]; cbn [fst snd]; (split; [|exact S2]).
  - done.
  - rewrite (proj2 (fetch_after_response resp0 h0 (begin_fetch metrics) filters)).
    destruct (out_err _); [done|]. cbn [res_err].
    destruct (metaErrs resp0); [done|]. done.
Qed.

(** A sync that met no error, with filters that return none, returns no
    error. *)
Lemma complete_sync_no_error env (h : Heap) f metrics filters :
  iter_err env = None ->
  metaErrs (sync_workers env h f).2 = [] ->
  out_err (filtered filters metrics (fetchMetadata env h f).1.1
             (sync_workers env h f).2) = None ->
  res_err (result_of (fetch env h f metrics filters)) = None
  /\ res_partial (result_of (fetch env h f metrics filters))
     = Some (partial (sync_workers env h f).2).
Proof.
  intros Hi He Ho.
  pose proof (fetchMetadata_cases env h f) as Hc.
  rewrite fetch_eq. unfold result_of. cbn [fst snd].
  destruct (sync_workers env h f) as [[h0 f0] resp0]. cbn [fst snd] in *.
  destruct Hc as [(err & Hi' & _)|[(_ & Hne & _)|(_ & _ & f1 & Hf1 & Hfm)]];
    [congruence|done|].
  rewrite Hfm in *. cbn [fst snd] in *.
  rewrite (proj2 (fetch_after_response resp0 _ (begin_fetch metrics) filters)).
  unfold filtered, synced_before_filters in Ho. rewrite Ho, He. done.
Qed.

(** With no filter, the gauge of the blocks without [meta.json] is published
    with the count of the response. *)
Lemma fetch_after_NoMeta_gauge resp (h : Heap) metrics :
  extprom.published (Synced (fetch_after (inr resp) h metrics []).1.2) !! NoMeta
  = Some (noMetas resp).
Proof.
  unfold fetch_after, make, failed, extprom.Submit, extprom.with_tx, extprom.Set_.
  cbn [run_filters out_err out_synced out_metas out_modified].
  destruct (0 <? length (metaErrs resp))%nat;
    cbn [fst snd Synced extprom.published extprom.tx];
    rewrite lookup_insert_ne by discriminate;
    rewrite lookup_insert_ne by discriminate;
    apply lookup_insert_eq.
Qed.

End SyncLevel.

(** ** A [meta.json] deleted between [Exists] and [Get] *)

Section VanishedMeta.
Import block cache_spec fetch_out.

(** C8.  For a block in no cache whose [meta.json] is there for [Exists] and
    gone for [Get], [loadMeta] returns [ErrorSyncMetaNotFound], wrapped.  In
    the response of the sync the block is in the partial map with that error
    and not among the metas, it is counted among the blocks without
    [meta.json], once for each time it was listed, and the errors of the
    sync are no more than the other blocks listed: it adds none.  With no
    filter the count is the published gauge; and when the bucket lists no
    other block, the iteration succeeds and the filters return no error,
    [Fetch] returns no error. *)
Theorem vanished_meta_is_partial
    env (h : gmap positive (gmap ulid.ULID Meta)) f id err :
  wf h f -> not_cached h f id -> vanishes env id err ->
  ((loadMeta env h f id).2
   = inl (Wrapf (Sentinel SyncMetaNotFound) "%v" [AErr err])
   /\ cause_is SyncMetaNotFound
        (Wrapf (Sentinel SyncMetaNotFound) "%v" [AErr err]) = true)
  /\ (id ∈ iter_ids env ->
      partial (sync_workers env h f).2 !! id
      = Some (Wrapf (Sentinel SyncMetaNotFound) "%v" [AErr err]))
  /\ deref (sync_workers env h f).1.1 (metas (sync_workers env h f).2) !! id
     = None
  /\ (length (filter (λ x, x = id) (iter_ids env))
      <= noMetas (sync_workers env h f).2)%nat
  /\ (length (metaErrs (sync_workers env h f).2)
      <= length (filter (λ x, x <> id) (iter_ids env)))%nat
  /\ (forall metrics,
        iter_err env = None ->
        extprom.published
          (Synced (metrics_of_out (fetch env h f metrics []))) !! NoMeta
        = Some (noMetas (sync_workers env h f).2))
  /\ (forall metrics filters,
        iter_err env = None ->
        (forall x, x ∈ iter_ids env -> x = id) ->
        out_err (filtered filters metrics (fetchMetadata env h f).1.1
                   (sync_workers env h f).2) = None ->
        res_err (result_of (fetch env h f metrics filters)) = None
        /\ res_partial (result_of (fetch env h f metrics filters))
           = Some (partial (sync_workers env h f).2)).
Proof.
  intros Hwf Hn Hv.
  destruct (sync_workers_start env h f id Hwf Hn)
    as (h0 & f0 & resp0 & Hs & Ha & Hn0 & Hd0 & Hp0 & He0 & Hc0 & _).
  destruct (workers_fold_vanished env id err (iter_ids env) h0 f0 resp0
              Hv Ha Hn0 Hd0) as (I1 & I2 & I3 & I4 & I5).
  destruct (workers_fold_spec env (iter_ids env) h0 f0 resp0) as (Hm & _).
  rewrite <- Hs in *. rewrite He0 in I5. rewrite Hc0 in I4. rewrite <- Hm in I2.
  cbn [length] in I5.
  split.
  { split; [|reflexivity].
    destruct Hv as (He & Hg & Hnf). by apply loadMeta_vanished. }
  split; [intros Hin; by rewrite I3, decide_True|].
  split; [exact I2|]. split; [lia|]. split; [lia|]. split.
  - intros metrics Hi.
    pose proof (fetchMetadata_cases env h f) as Hc.
    rewrite fetch_eq. unfold metrics_of_out. cbn [fst snd].
    destruct (sync_workers env h f) as [[h1 f1] resp1]. cbn [fst snd] in *.
    destruct Hc as [(e & Hi' & _)|[(_ & _ & ->)|(_ & _ & f2 & _ & ->)]];
      [congruence| |]; cbn [fst snd]; apply fetch_after_NoMeta_gauge.
  - intros metrics filters Hi Hall Ho.
    apply complete_sync_no_error; [done| |done].
    assert (filter (λ x, x <> id) (iter_ids env) = []) as Hnil.
    { clear -Hall. induction (iter_ids env) as [|x l IH]; [done|].
      rewrite filter_cons_False.
      - apply IH. intros y Hy. apply Hall. apply elem_of_cons. by right.
      - intros Hx. apply Hx, Hall. apply elem_of_cons. by left. }
    rewrite Hnil in I5. cbn [length] in I5.
    destruct (metaErrs (sync_workers env h f).2); [done|]. cbn [length] in I5. lia.
Qed.

End VanishedMeta.

Lemma vanished_meta_is_partial_witness :
  block.partial
    (block.sync_workers sync_examples.vanishing_block sync_examples.heap0
       sync_examples.fetcher0).2 !! 4%N
  = Some (Wrapf (Sentinel SyncMetaNotFound) "%v"
            [AErr (Foreign true "object not found")]).
Proof.
  refine (proj1 (proj2 (vanished_meta_is_partial sync_examples.vanishing_block
            sync_examples.heap0 sync_examples.fetcher0 4%N
            (Foreign true "object not found") _ _ _)) _).
  - unfold cache_spec.wf. vm_compute. reflexivity.
  - split; [vm_compute; reflexivity | intros d m; vm_compute; discriminate].
  - repeat split.
  - vm_compute. apply list_elem_of_singleton. reflexivity.
Defined.

(** ** A [meta.json] of another version *)

Section OtherVersion.
Import block cache_spec fetch_out.

(** C2, as the code has it.  For a block in no cache whose [meta.json]
    parses and carries a version that is not the recognised one, [loadMeta]
    returns an error that is neither [ErrorSyncMetaNotFound] nor
    [ErrorSyncMetaCorrupted].  The block is in neither map of the response,
    the partial map or the metas; its error is among the errors of the sync;
    and, the block being listed, [Fetch] returns an error and the cache is
    not replaced. *)
Theorem unknown_version_fails_sync
    env (h : gmap positive (gmap ulid.ULID Meta)) f id m :
  wf h f -> not_cached h f id -> other_version env id m ->
  ((loadMeta env h f id).2 = inl (version_error id m)
   /\ cause_is SyncMetaNotFound (version_error id m) = false
   /\ cause_is SyncMetaCorrupted (version_error id m) = false)
  /\ partial (sync_workers env h f).2 !! id = None
  /\ deref (sync_workers env h f).1.1 (metas (sync_workers env h f).2) !! id
     = None
  /\ (id ∈ iter_ids env ->
      version_error id m ∈ metaErrs (sync_workers env h f).2
      /\ forall metrics filters,
           res_err (result_of (fetch env h f metrics filters)) <> None
           /\ cached (fetcher_of (fetch env h f metrics filters)) = cached f).
Proof.
  intros Hwf Hn Hv.
  destruct (sync_workers_start env h f id Hwf Hn)
    as (h0 & f0 & resp0 & Hs & Ha & Hn0 & Hd0 & Hp0 & He0 & Hc0 & _).
  destruct (workers_fold_version env id m (iter_ids env) h0 f0 resp0
              Hv Ha Hn0 Hd0) as (I1 & I2 & I3 & I4 & I5).
  destruct (workers_fold_spec env (iter_ids env) h0 f0 resp0) as (Hm & _).
  rewrite <- Hs in *. rewrite <- Hm in I2. rewrite Hp0 in I3.
  split.
  { split; [|by split].
    destruct Hv as (He & Hg & Hver). by apply loadMeta_version. }
  split; [by rewrite I3|]. split; [exact I2|].
  intros Hin. specialize (I5 Hin). split; [exact I5|].
  intros metrics filters. apply incomplete_sync_error.
  intros Hnil. rewrite Hnil in I5. by apply elem_of_nil in I5.
Qed.

End OtherVersion.

Lemma unknown_version_fails_sync_witness :
  block.partial
    (block.sync_workers sync_examples.version2_block sync_examples.heap0
       sync_examples.fetcher0).2 !! 3%N
  = None.
Proof.
  refine (proj1 (proj2 (unknown_version_fails_sync sync_examples.version2_block
            sync_examples.heap0 sync_examples.fetcher0 3%N
            (examples.meta_of 3 2 None "") _ _ _))).
  - unfold cache_spec.wf. vm_compute. reflexivity.
  - split; [vm_compute; reflexivity | intros d m; vm_compute; discriminate].
  - repeat split. vm_compute. discriminate.
Defined.

(** C2, as stated, fails: the [meta.json] of block 3 parses and has
    version 2; the block is not in the partial map, and [Fetch], with no
    filter, returns an error on its account. *)
Lemma unknown_version_not_partial :
  let out := block.fetch sync_examples.version2_block sync_examples.heap0
               sync_examples.fetcher0 sync_examples.no_metrics [] in
  block.get_meta sync_examples.version2_block 3%N
  = inr (block.Parsed (examples.meta_of 3 2 None ""))
  /\ block.res_partial (fetch_out.result_of out) = Some ∅
  /\ block.res_err (fetch_out.result_of out)
     = Some (Wrapf
               (Multi [Errorf "unexpected meta file: %s version: %d"
                         [AStr "00000000000000000000000003/meta.json"; AInt 2]])
               "incomplete view" []).
Proof.
  split; [reflexivity|]. split; by vm_compute.
Qed.

(** ** The protocol on an example *)


Example begin_stages_the_descriptor :
  objstore.objects protocol_examples.begun
  = {[ "00000000000000000000000007/meta.json.temp" :=
         objstore.JSONMeta
           (examples.meta_of 7 1 (Some {[ "__org_id__" := "user-1" ]}) "upload") ]}.
Proof. by vm_compute. Qed.

Example begin_on_a_visible_block_conflicts :
  let committed :=
    (protocol.step examples.labels protocol_examples.with_index
       (protocol.Commit protocol_examples.commit_request "user-1" 7)).1 in
  http.status_of
    (protocol.step examples.labels committed
       (protocol.Begin protocol_examples.begin_request "user-1" 7)).2
  = Some http.StatusConflict.
Proof. by vm_compute. Qed.

Example meta_json_path_rejected :
  (compactor.UploadBlockFile protocol_examples.begun
     (protocol_examples.file_request "meta.json")).2
  = http.Replied http.StatusBadRequest "meta.json is not allowed" [].
Proof. by vm_compute. Qed.

Example non_digit_chunk_rejected :
  (compactor.UploadBlockFile protocol_examples.begun
     (protocol_examples.file_request "chunks/00A123")).2
  = http.Replied http.StatusBadRequest "invalid path: %q" [AStr "chunks/00A123"].
Proof. by vm_compute. Qed.

Example file_before_begin_rejected :
  (compactor.UploadBlockFile protocol_examples.empty_bucket
     (protocol_examples.file_request "chunks/000001")).2
  = http.Replied http.StatusBadRequest "upload of block %s not started yet"
      [AStr "00000000000000000000000007"].
Proof. by vm_compute. Qed.


(** ** The consistency-delay filter on an example *)

(** With a delay of thirty minutes, at millisecond 3 600 000: a block made
    ten minutes before is removed, unless the compactor made it; a block
    whose id is one second ahead of the clock is kept, the difference of the
    two [uint64]s wrapping around. *)
Example consistency_delay_filter :
  let S := {| metadata.BucketRepairSource := "bucket.repair";
              metadata.CompactorSource := "compactor";
              metadata.CompactorRepairSource := "compactor.repair" |} in
  let at_ms (t : N) : N := N.shiftl t 80 in
  let old := at_ms 3000000%N in
  let own := (at_ms 3000000%N + 1)%N in
  let ahead := at_ms 3601000%N in
  let metas : gmap N Meta :=
    {[ old := examples.meta_of old 1 None "receive";
       own := examples.meta_of own 1 None "compactor";
       ahead := examples.meta_of ahead 1 None "receive" ]} in
  let out := block.ConsistencyDelayMetaFilter_Filter S 3600000%Z
               (30 * job_examples.minute)%Z metas ∅ ∅ in
  block.out_metas out
  = {[ own := examples.meta_of own 1 None "compactor";
       ahead := examples.meta_of ahead 1 None "receive" ]}
  /\ block.out_synced out !! block.tooFreshMeta = Some 1%nat.
Proof. by vm_compute. Qed.

(** * Further properties *)

(** ** What [sanitizeMeta] accepts and what it leaves *)

Section SanitizeFacts.
Import compactor metadata.
Context (L : mimir_tsdb.ExternalLabels).

Lemma classify_Preserved l :
  classify L l = Preserved <->
  l = mimir_tsdb.TenantIDExternalLabel L
  \/ l = mimir_tsdb.CompactorShardIDExternalLabel L.
Proof.
  unfold classify.
  destruct (String.eqb_spec l (mimir_tsdb.TenantIDExternalLabel L));
  destruct (String.eqb_spec l (mimir_tsdb.CompactorShardIDExternalLabel L));
  cbn [orb]; try (split; [auto|done]).
  destruct (_ || _); split; first [done | by intros [?|?]].
Qed.

Lemma rejected_keys (m : gmap string string) l :
  l ∈ filter (λ l, is_rejected L l = true) (map_to_list m).*1
  <-> is_Some (m !! l) /\ is_rejected L l = true.
Proof.
  rewrite list_elem_of_filter, list_elem_of_fmap. split.
  - intros [Hr ([k v] & -> & Hkv)]. apply elem_of_map_to_list in Hkv.
    split; [by exists v | done].
  - intros [[v Hv] Hr]. split; [done|]. exists (l, v). split; [done|].
    by apply elem_of_map_to_list.
Qed.

(** X1.  When [sanitizeMeta] accepts a meta it leaves the block id it was given,
    the source [upload], the tenant label set to the tenant whatever the
    client sent, the compactor shard label if the client sent one, no other
    label, and the other fields as they were. *)
Theorem sanitizeMeta_accepted tenantID blockID meta meta' :
  sanitizeMeta L tenantID blockID meta = (meta', None) ->
  ULID meta' = blockID /\ Source meta' = "upload"
  /\ MinTime meta' = MinTime meta /\ MaxTime meta' = MaxTime meta
  /\ Version meta' = Version meta /\ Level meta' = Level meta
  /\ Sources meta' = Sources meta /\ Files meta' = Files meta
  /\ exists lbls,
       Labels meta' = Some lbls
       /\ forall l v,
            lbls !! l = Some v <->
            (l = mimir_tsdb.TenantIDExternalLabel L /\ v = tenantID)
            \/ (l <> mimir_tsdb.TenantIDExternalLabel L
                /\ l = mimir_tsdb.CompactorShardIDExternalLabel L
                /\ default ∅ (Labels meta) !! l = Some v).
Proof.
  intros H. apply sanitizeMeta_success in H as [-> Hrej].
  cbn [ULID Source MinTime MaxTime Version Level Sources Files Labels].
  repeat (split; [reflexivity|]).
  eexists. split; [reflexivity|]. intros l v.
  unfold sanitized_labels. rewrite map_lookup_filter_Some. cbn [fst].
  destruct (decide (l = mimir_tsdb.TenantIDExternalLabel L)) as [->|Hl].
  - rewrite lookup_insert_eq. split.
    + intros [[= <-] _]. by left.
    + intros [[_ ->]|[Hn _]]; [|done]. split; [done|apply is_unused_tenant].
  - rewrite lookup_insert_ne by done. split.
    + intros [Hv Hu]. right. split; [done|]. split; [|done].
      assert (is_rejected L l = false) as Hr.
      { apply Hrej. rewrite lookup_insert_ne by done. by exists v. }
      assert (classify L l = Preserved) as Hc.
      { unfold is_unused, is_rejected in *. by destruct (classify L l). }
      apply classify_Preserved in Hc as [?|?]; done.
    + intros [[? _]|(_ & Hs & Hv)]; [done|]. split; [done|].
      unfold is_unused.
      by rewrite (proj2 (classify_Preserved l) (or_intror Hs)).
Qed.

(** X2.  [sanitizeMeta] refuses a meta exactly when it carries a label that is
    neither preserved nor unused, and the message it returns lists each such
    label once and no other. *)
Theorem sanitizeMeta_rejected tenantID blockID meta :
  ((sanitizeMeta L tenantID blockID meta).2 = None <->
   forall l, is_Some (default ∅ (Labels meta) !! l) -> is_rejected L l = false)
  /\ forall e,
       (sanitizeMeta L tenantID blockID meta).2 = Some e ->
       exists rej,
         message e = ("unsupported external label(s): %s",
                      [AStr (strings_Join rej ",")])
         /\ NoDup rej
         /\ forall l, l ∈ rej <->
                      is_Some (default ∅ (Labels meta) !! l)
                      /\ is_rejected L l = true.
Proof.
  set (m0 := default ∅ (Labels meta)).
  set (m1 := <[mimir_tsdb.TenantIDExternalLabel L := tenantID]> m0).
  assert (forall l, is_Some (m1 !! l) /\ is_rejected L l = true
                    <-> is_Some (m0 !! l) /\ is_rejected L l = true) as Hkeys.
  { intros l. unfold m1.
    destruct (decide (l = mimir_tsdb.TenantIDExternalLabel L)) as [->|Hl].
    - unfold is_rejected. rewrite classify_tenant. split; intros [_ ?]; done.
    - by rewrite lookup_insert_ne. }
  unfold sanitizeMeta. fold m0. fold m1.
  destruct (0 <? length _)%nat eqn:E; cbn [snd].
  - split.
    + split; [done|]. intros Hall. exfalso.
      assert ((0 <? length (filter (λ l, is_rejected L l = true)
                 (map_to_list m1).*1))%nat = false) as E'.
      { apply rejected_none_keys. intros k Hk.
        destruct (is_rejected L k) eqn:Hr; [|done].
        destruct (proj1 (Hkeys k) (conj Hk Hr)) as [Hk0 _].
        rewrite <- Hr. by apply Hall. }
      congruence.
    + intros e [= <-]. eexists. split; [reflexivity|]. split.
      * apply NoDup_filter, NoDup_fst_map_to_list.
      * intros l. rewrite rejected_keys. apply Hkeys.
  - split; [|done]. split; [|done]. intros _ l Hl.
    destruct (is_rejected L l) eqn:Hr; [|done].
    pose proof (proj1 (rejected_none_keys L m1) E l) as Hn.
    rewrite <- Hr. apply Hn. by apply Hkeys.
Qed.

End SanitizeFacts.

Lemma sanitizeMeta_accepted_witness :
  let sent : gmap string string :=
    {[ "__org_id__" := "someone-else"; "__compactor_shard_id__" := "1_of_4";
       "__ingester_id__" := "ingester-1" ]} in
  let out := compactor.sanitizeMeta examples.labels "user-1" 7
               (examples.meta_of 9 1 (Some sent) "receive") in
  out.2 = None
  /\ metadata.ULID out.1 = 7%N /\ metadata.Source out.1 = "upload"
  /\ metadata.Labels out.1
     = Some {[ "__org_id__" := "user-1"; "__compactor_shard_id__" := "1_of_4" ]}.
Proof.
  intros sent out. split; [by vm_compute|].
  destruct (sanitizeMeta_accepted examples.labels "user-1" 7
              (examples.meta_of 9 1 (Some sent) "receive") out.1)
    as (H1 & H2 & _); [by vm_compute|].
  split; [exact H1|]. split; [exact H2|]. by vm_compute.
Defined.

Lemma sanitizeMeta_rejected_witness :
  let sent : gmap string string := {[ "cluster" := "eu"; "replica" := "a" ]} in
  let out := compactor.sanitizeMeta examples.labels "user-1" 7
               (examples.meta_of 7 1 (Some sent) "") in
  exists e rej,
    out.2 = Some e
    /\ compactor.message e
       = ("unsupported external label(s): %s", [AStr (strings_Join rej ",")])
    /\ "cluster" ∈ rej /\ "replica" ∈ rej.
Proof.
  intros sent out.
  assert (is_Some out.2) as [e E] by (vm_compute; eauto).
  destruct (proj2 (sanitizeMeta_rejected examples.labels "user-1" 7
                     (examples.meta_of 7 1 (Some sent) "")) e E)
    as (rej & Hm & _ & Hrej).
  exists e, rej. split; [exact E|]. split; [exact Hm|].
  split; apply Hrej.
  - split; [vm_compute; eauto | vm_compute; reflexivity].
  - split; [vm_compute; eauto | vm_compute; reflexivity].
Defined.

(** ** What the upload handlers do to the bucket *)

Section UploadEffects.
Import compactor objstore http upload_spec protocol handlers.
Context (L : mimir_tsdb.ExternalLabels).

Ltac handler_cases :=
  unfold uploadMeta, Exists, Get, Upload, Delete, called, fails;
  cbn [fst snd objects faults calls];
  repeat (case_bool_decide || case_match); simplify_eq;
  cbn [fst snd objects faults calls];
  rewrite <- ?app_assoc, ?calls_made_app, ?calls_made_refl.

Ltac no_fault Hf :=
  try match goal with
      | H : _ ∈ faults _ |- _ => rewrite Hf in H; by apply elem_of_nil in H
      end.

Lemma createBlockUpload_faults bkt r tenantID blockID :
  faults (createBlockUpload L bkt r tenantID blockID).1 = faults bkt.
Proof. unfold createBlockUpload. handler_cases; reflexivity. Qed.

Lemma UploadBlockFile_faults bkt r :
  faults (UploadBlockFile bkt r).1 = faults bkt.
Proof. unfold UploadBlockFile. handler_cases; reflexivity. Qed.

Lemma completeBlockUpload_faults bkt r tenantID blockID :
  faults (completeBlockUpload bkt r tenantID blockID).1 = faults bkt.
Proof. unfold completeBlockUpload. handler_cases; reflexivity. Qed.

Lemma Base_allowed_temp a p :
  allowed_path p -> path.Base (path.Join a p) <> "meta.json.temp".
Proof.
  intros (es & e & Hsp & Hn & He)%allowed_path_last.
  rewrite (Base_Join a p es e Hsp Hn).
  destruct He as [->|[Hl _]]; [done|]. intros ->. discriminate Hl.
Qed.

Lemma UploadBlockFile_temp bkt r id' :
  objects (UploadBlockFile bkt r).1 !! meta_json_temp id'
  = objects bkt !! meta_json_temp id'.
Proof.
  destruct (regexp.MatchString rePath (query_path r)) eqn:Er.
  - apply rePath_allowed in Er. apply UploadBlockFile_objects. intros E.
    apply (Base_allowed_temp (block r)) in Er. rewrite <- E in Er.
    unfold meta_json_temp in Er. by rewrite Base_meta_json_temp in Er.
  - rewrite UploadBlockFile_unchanged; [done|].
    intros Ha%rePath_allowed. congruence.
Qed.

Lemma createBlockUpload_success bkt r tenantID blockID meta meta' :
  faults bkt = [] -> ~ visible bkt blockID ->
  Body r = Some (JSONMeta meta) ->
  sanitizeMeta L tenantID blockID meta = (meta', None) ->
  (createBlockUpload L bkt r tenantID blockID).2 = WriteHeader StatusOK
  /\ objects (createBlockUpload L bkt r tenantID blockID).1
     = <[meta_json_temp blockID := JSONMeta meta']> (objects bkt).
Proof.
  unfold visible, meta_json_temp. intros Hf Hv Hb Hs. unfold createBlockUpload.
  rewrite Hb.
  handler_cases; no_fault Hf; try (by destruct Hv); done.
Qed.

Lemma createBlockUpload_conflict bkt r tenantID blockID :
  visible bkt blockID -> OpExists (meta_json blockID) ∉ faults bkt ->
  (createBlockUpload L bkt r tenantID blockID).2
  = Error "block already exists in object storage" StatusConflict
  /\ objects (createBlockUpload L bkt r tenantID blockID).1 = objects bkt.
Proof.
  unfold visible, meta_json. intros Hv Hf. unfold createBlockUpload.
  handler_cases; done.
Qed.

Lemma completeBlockUpload_success bkt r tenantID blockID meta :
  faults bkt = [] ->
  objects bkt !! meta_json_temp blockID = Some (JSONMeta meta) ->
  (completeBlockUpload bkt r tenantID blockID).2 = WriteHeader StatusOK
  /\ objects (completeBlockUpload bkt r tenantID blockID).1
     = delete (meta_json_temp blockID)
              (<[meta_json blockID := JSONMeta meta]> (objects bkt)).
Proof.
  unfold meta_json, meta_json_temp. intros Hf Ht. unfold completeBlockUpload.
  handler_cases; no_fault Hf; done.
Qed.

Lemma completeBlockUpload_unstaged bkt r tenantID blockID :
  objects bkt !! meta_json_temp blockID = None ->
  (completeBlockUpload bkt r tenantID blockID).2
  = Error "internal server error" StatusInternalServerError
  /\ objects (completeBlockUpload bkt r tenantID blockID).1 = objects bkt.
Proof.
  unfold meta_json_temp. intros Ht. unfold completeBlockUpload.
  handler_cases; done.
Qed.

Lemma files_keep_staged b0 (files : list Request) id' v :
  faults b0 = [] -> objects b0 !! meta_json_temp id' = v ->
  faults (foldl (λ b r, (UploadBlockFile b r).1) b0 files) = []
  /\ objects (foldl (λ b r, (UploadBlockFile b r).1) b0 files)
       !! meta_json_temp id' = v.
Proof.
  revert b0. induction files as [|f files IH]; intros b0 H1 H2; [done|].
  cbn [foldl]. apply IH.
  - by rewrite UploadBlockFile_faults.
  - by rewrite UploadBlockFile_temp.
Qed.

(** X3.  A begin that does not answer 200 leaves the objects of the bucket as they
    were; one that answers 200 was sent for a block that is not visible, with
    a body that decodes to a meta that [sanitizeMeta] accepts, and has stored
    the sanitised meta as the block's [meta.json.temp] and nothing else. *)
Theorem createBlockUpload_effect bkt r tenantID blockID :
  (status_of (createBlockUpload L bkt r tenantID blockID).2 <> Some StatusOK ->
   objects (createBlockUpload L bkt r tenantID blockID).1 = objects bkt)
  /\ (status_of (createBlockUpload L bkt r tenantID blockID).2 = Some StatusOK ->
      ~ visible bkt blockID
      /\ exists meta meta',
           Body r = Some (JSONMeta meta)
           /\ sanitizeMeta L tenantID blockID meta = (meta', None)
           /\ objects (createBlockUpload L bkt r tenantID blockID).1
              = <[meta_json_temp blockID := JSONMeta meta']> (objects bkt)).
Proof.
  unfold createBlockUpload, visible, meta_json_temp.
  handler_cases;
    (split; [intros Hst; try reflexivity|intros Hst; try discriminate Hst]).
  - by destruct Hst.
  - split; [assumption|]. eauto.
Qed.

(** X4.  A file request that does not answer 200 leaves the objects of the bucket
    as they were; one that answers 200 found the staged descriptor of its
    block, decodable, and has stored its body under the block's prefix at the
    path it named, and nothing else. *)
Theorem UploadBlockFile_effect bkt r :
  (status_of (UploadBlockFile bkt r).2 <> Some StatusOK ->
   objects (UploadBlockFile bkt r).1 = objects bkt)
  /\ (status_of (UploadBlockFile bkt r).2 = Some StatusOK ->
      exists body meta,
        Body r = Some body
        /\ objects bkt !! path.Join (block r) "meta.json.temp"
           = Some (JSONMeta meta)
        /\ objects (UploadBlockFile bkt r).1
           = <[path.Join (block r) (query_path r) := body]> (objects bkt)).
Proof.
  unfold UploadBlockFile.
  handler_cases;
    (split; [intros Hst; try reflexivity|intros Hst; try discriminate Hst]).
  - by destruct Hst.
  - eauto.
Qed.

(** X5.  A commit for a block whose staged descriptor is missing, or does not
    decode, answers 500, uploads nothing and leaves the objects of the bucket
    as they were. *)
Theorem completeBlockUpload_needs_begin bkt r tenantID blockID :
  (forall meta, objects bkt !! meta_json_temp blockID <> Some (JSONMeta meta)) ->
  status_of (completeBlockUpload bkt r tenantID blockID).2
  = Some StatusInternalServerError
  /\ objects (completeBlockUpload bkt r tenantID blockID).1 = objects bkt
  /\ uploads_of (calls_made bkt (completeBlockUpload bkt r tenantID blockID).1)
     = [].
Proof.
  unfold meta_json_temp. intros Ht. unfold completeBlockUpload.
  handler_cases; try (exfalso; by eapply Ht); done.
Qed.

(** X6.  When the bucket fails to delete the staged descriptor, a commit answers
    500 although it has stored [meta.json]: the block is visible and its
    [meta.json.temp] is still there. *)
Theorem completeBlockUpload_delete_fails bkt r tenantID blockID meta :
  objects bkt !! meta_json_temp blockID = Some (JSONMeta meta) ->
  OpGet (meta_json_temp blockID) ∉ faults bkt ->
  OpUpload (meta_json blockID) ∉ faults bkt ->
  OpDelete (meta_json_temp blockID) ∈ faults bkt ->
  status_of (completeBlockUpload bkt r tenantID blockID).2
  = Some StatusInternalServerError
  /\ objects (completeBlockUpload bkt r tenantID blockID).1
     = <[meta_json blockID := JSONMeta meta]> (objects bkt)
  /\ visible (completeBlockUpload bkt r tenantID blockID).1 blockID
  /\ objects (completeBlockUpload bkt r tenantID blockID).1
       !! meta_json_temp blockID = Some (JSONMeta meta).
Proof.
  intros Ht Hg Hu Hd.
  assert (status_of (completeBlockUpload bkt r tenantID blockID).2
          = Some StatusInternalServerError
          /\ objects (completeBlockUpload bkt r tenantID blockID).1
             = <[meta_json blockID := JSONMeta meta]> (objects bkt)) as [H1 H2].
  { revert Ht Hg Hu Hd. unfold meta_json, meta_json_temp.
    intros Ht Hg Hu Hd. unfold completeBlockUpload.
    handler_cases; done. }
  split; [exact H1|]. split; [exact H2|]. unfold visible.
  fold (meta_json blockID). rewrite H2. split.
  - rewrite lookup_insert_eq. by eexists.
  - rewrite lookup_insert_ne by apply meta_json_ne_temp. exact Ht.
Qed.

(** X7.  The round trip of the protocol on a bucket without faults: after a begin
    with a meta that [sanitizeMeta] accepts, for a block that is not visible,
    any file requests and a commit, the commit answers 200, the block's
    [meta.json] holds the sanitised meta and its [meta.json.temp] is gone. *)
Theorem upload_round_trip bkt rb rc tenantID blockID meta meta'
    (files : list Request) :
  faults bkt = [] -> ~ visible bkt blockID ->
  Body rb = Some (JSONMeta meta) ->
  sanitizeMeta L tenantID blockID meta = (meta', None) ->
  let begun := (createBlockUpload L bkt rb tenantID blockID).1 in
  let filled := foldl (λ b r, (UploadBlockFile b r).1) begun files in
  status_of (completeBlockUpload filled rc tenantID blockID).2 = Some StatusOK
  /\ objects (completeBlockUpload filled rc tenantID blockID).1
       !! meta_json blockID = Some (JSONMeta meta')
  /\ objects (completeBlockUpload filled rc tenantID blockID).1
       !! meta_json_temp blockID = None.
Proof.
  intros Hf Hv Hb Hs begun filled.
  destruct (createBlockUpload_success bkt rb tenantID blockID meta meta'
              Hf Hv Hb Hs) as [_ Hobj].
  assert (faults filled = [] /\
          objects filled !! meta_json_temp blockID = Some (JSONMeta meta'))
    as [Hf' Ht'].
  { apply files_keep_staged.
    - unfold begun. by rewrite createBlockUpload_faults.
    - unfold begun. rewrite Hobj. apply lookup_insert_eq. }
  destruct (completeBlockUpload_success filled rc tenantID blockID meta'
              Hf' Ht') as [-> ->].
  split; [reflexivity|]. split.
  - rewrite lookup_delete_ne by apply meta_json_temp_ne.
    apply lookup_insert_eq.
  - apply lookup_delete_eq.
Qed.

(** X8.  A commit cannot be repeated: after a commit that answered 200, a second
    commit of the same block answers 500 and leaves the objects of the bucket
    as the first left them. *)
Theorem completeBlockUpload_once bkt r r' tenantID tenantID' blockID :
  status_of (completeBlockUpload bkt r tenantID blockID).2 = Some StatusOK ->
  let done := (completeBlockUpload bkt r tenantID blockID).1 in
  status_of (completeBlockUpload done r' tenantID' blockID).2
  = Some StatusInternalServerError
  /\ objects (completeBlockUpload done r' tenantID' blockID).1 = objects done.
Proof.
  intros Hst done.
  destruct (completeBlockUpload_uploads bkt r tenantID blockID) as [_ H].
  destruct (H Hst) as (_ & meta & _ & Hobj).
  destruct (completeBlockUpload_unstaged done r' tenantID' blockID) as [-> ->].
  - unfold done. rewrite Hobj. apply lookup_delete_eq.
  - done.
Qed.

(** X9.  A completed block cannot be begun again: after a commit that answered
    200, a begin for the same block answers 409 and leaves the objects of the
    bucket as they were, unless the bucket fails to say whether [meta.json]
    exists. *)
Theorem createBlockUpload_after_commit bkt r r' tenantID tenantID' blockID :
  status_of (completeBlockUpload bkt r tenantID blockID).2 = Some StatusOK ->
  OpExists (meta_json blockID) ∉ faults bkt ->
  let done := (completeBlockUpload bkt r tenantID blockID).1 in
  (createBlockUpload L done r' tenantID' blockID).2
  = Error "block already exists in object storage" StatusConflict
  /\ objects (createBlockUpload L done r' tenantID' blockID).1 = objects done.
Proof.
  intros Hst Hf done.
  destruct (completeBlockUpload_uploads bkt r tenantID blockID) as [_ H].
  destruct (H Hst) as (_ & meta & _ & Hobj).
  apply createBlockUpload_conflict.
  - unfold visible, done. fold (meta_json blockID). rewrite Hobj.
    rewrite lookup_delete_ne by apply meta_json_temp_ne.
    rewrite lookup_insert_eq. by eexists.
  - unfold done. by rewrite completeBlockUpload_faults.
Qed.

(** X10.  [HandleBlockUpload] answers 400 without a call on the bucket when the
    block id is empty or does not parse or the request names no tenant; it
    never changes a [meta.json] unless [uploadComplete] is exactly [true];
    and the only keys it changes are the [meta.json] and the
    [meta.json.temp] of the block whose id it parsed. *)
Theorem HandleBlockUpload_effect (Parse : string -> option ulid.ULID)
    bkt r uploadComplete :
  (block r = "" \/ Parse (block r) = None \/ tenant r = None ->
   status_of (HandleBlockUpload L Parse bkt r uploadComplete).2
   = Some StatusBadRequest
   /\ (HandleBlockUpload L Parse bkt r uploadComplete).1 = bkt)
  /\ (uploadComplete <> "true" ->
      forall id',
        objects (HandleBlockUpload L Parse bkt r uploadComplete).1 !! meta_json id'
        = objects bkt !! meta_json id')
  /\ (forall k,
        objects (HandleBlockUpload L Parse bkt r uploadComplete).1 !! k
        <> objects bkt !! k ->
        exists blockID,
          Parse (block r) = Some blockID
          /\ (k = meta_json blockID \/ k = meta_json_temp blockID)).
Proof.
  unfold HandleBlockUpload.
  destruct (String.eqb_spec (block r) "") as [Eb|Eb].
  { cbn [fst snd]. split; [done|]. split; [done|]. by intros k []. }
  destruct (Parse (block r)) as [b|].
  2:{ cbn [fst snd]. split; [done|]. split; [done|]. by intros k []. }
  destruct (tenant r) as [t|].
  2:{ cbn [fst snd]. split; [done|]. split; [done|]. by intros k []. }
  split; [intros [?|[?|?]]; [by destruct Eb | discriminate | discriminate]|].
  destruct (String.eqb_spec uploadComplete "true") as [Eu|Eu].
  - split.
    { intros Hn. exfalso. exact (Hn Eu). }
    intros k Hk. exists b. split; [reflexivity|].
    destruct (decide (k = meta_json b)) as [H1|H1]; [left; exact H1|].
    destruct (decide (k = meta_json_temp b)) as [H2|H2]; [right; exact H2|].
    exfalso. apply Hk. apply completeBlockUpload_objects; assumption.
  - split.
    { intros _ id'. apply createBlockUpload_visible. }
    intros k Hk. exists b. split; [reflexivity|].
    destruct (decide (k = meta_json_temp b)) as [H2|H2]; [right; exact H2|].
    exfalso. apply Hk. apply createBlockUpload_objects; assumption.
Qed.

End UploadEffects.

Lemma createBlockUpload_effect_witness :
  let out := compactor.createBlockUpload examples.labels
               protocol_examples.empty_bucket protocol_examples.begin_request
               "user-1" 7 in
  http.status_of out.2 = Some http.StatusOK
  /\ ~ compactor.visible protocol_examples.empty_bucket 7.
Proof.
  intros out.
  assert (http.status_of out.2 = Some http.StatusOK) as H
    by (vm_compute; reflexivity).
  split; [exact H|].
  exact (proj1 (proj2 (createBlockUpload_effect examples.labels
                         protocol_examples.empty_bucket
                         protocol_examples.begin_request "user-1" 7%N) H)).
Defined.

Lemma UploadBlockFile_effect_witness :
  let r := protocol_examples.file_request "chunks/000001" in
  let out := compactor.UploadBlockFile protocol_examples.begun r in
  http.status_of out.2 = Some http.StatusOK
  /\ exists body meta,
       http.Body r = Some body
       /\ objstore.objects protocol_examples.begun
            !! path.Join (http.block r) "meta.json.temp"
          = Some (objstore.JSONMeta meta)
       /\ objstore.objects out.1
          = <[path.Join (http.block r) (http.query_path r) := body]>
              (objstore.objects protocol_examples.begun).
Proof.
  intros r out.
  assert (http.status_of out.2 = Some http.StatusOK) as H
    by (vm_compute; reflexivity).
  split; [exact H|].
  exact (proj2 (UploadBlockFile_effect protocol_examples.begun r) H).
Defined.

Lemma completeBlockUpload_needs_begin_witness :
  let out := compactor.completeBlockUpload protocol_examples.empty_bucket
               protocol_examples.commit_request "user-1" 7 in
  http.status_of out.2 = Some http.StatusInternalServerError
  /\ objstore.objects out.1 = objstore.objects protocol_examples.empty_bucket
  /\ compactor.uploads_of
       (upload_spec.calls_made protocol_examples.empty_bucket out.1) = [].
Proof.
  intros out.
  apply (completeBlockUpload_needs_begin protocol_examples.empty_bucket
           protocol_examples.commit_request "user-1" 7%N).
  intros meta H. vm_compute in H. discriminate H.
Defined.

Lemma completeBlockUpload_delete_fails_witness :
  let out := compactor.completeBlockUpload commit_examples.delete_fails
               protocol_examples.commit_request "user-1" 7 in
  http.status_of out.2 = Some http.StatusInternalServerError
  /\ compactor.visible out.1 7
  /\ is_Some (objstore.objects out.1 !! protocol.meta_json_temp 7).
Proof.
  intros out.
  destruct (completeBlockUpload_delete_fails commit_examples.delete_fails
              protocol_examples.commit_request "user-1" 7%N
              (examples.meta_of 7 1 (Some {[ "__org_id__" := "user-1" ]})
                 "upload"))
    as (H1 & _ & H3 & H4).
  - vm_compute. reflexivity.
  - intros H%list_elem_of_singleton. discriminate H.
  - intros H%list_elem_of_singleton. discriminate H.
  - apply list_elem_of_singleton. vm_compute. reflexivity.
  - split; [exact H1|]. split; [exact H3|]. eexists. exact H4.
Defined.

Lemma upload_round_trip_witness :
  let files := [protocol_examples.file_request "index";
                protocol_examples.file_request "chunks/000001";
                protocol_examples.file_request "meta.json"] in
  let begun := (compactor.createBlockUpload examples.labels
                  protocol_examples.empty_bucket
                  protocol_examples.begin_request "user-1" 7).1 in
  let filled := foldl (λ b r, (compactor.UploadBlockFile b r).1) begun files in
  let out := compactor.completeBlockUpload filled
               protocol_examples.commit_request "user-1" 7 in
  http.status_of out.2 = Some http.StatusOK
  /\ objstore.objects out.1 !! protocol.meta_json 7
     = Some (objstore.JSONMeta
               (examples.meta_of 7 1 (Some {[ "__org_id__" := "user-1" ]})
                  "upload"))
  /\ objstore.objects out.1 !! protocol.meta_json_temp 7 = None.
Proof.
  intros files begun filled out.
  apply (upload_round_trip examples.labels protocol_examples.empty_bucket
           protocol_examples.begin_request protocol_examples.commit_request
           "user-1" 7%N
           (examples.meta_of 7 1
              (Some {[ "__ingester_id__" := "ingester-1" ]}) "")
           (examples.meta_of 7 1 (Some {[ "__org_id__" := "user-1" ]})
              "upload")
           files).
  - reflexivity.
  - unfold compactor.visible. vm_compute. intros [x H]. discriminate H.
  - reflexivity.
  - vm_compute. reflexivity.
Defined.

Lemma completeBlockUpload_once_witness :
  let out := compactor.completeBlockUpload commit_examples.committed
               protocol_examples.commit_request "user-1" 7 in
  http.status_of out.2 = Some http.StatusInternalServerError
  /\ objstore.objects out.1 = objstore.objects commit_examples.committed.
Proof.
  intros out.
  apply (completeBlockUpload_once protocol_examples.with_index
           protocol_examples.commit_request protocol_examples.commit_request
           "user-1" "user-1" 7%N).
  vm_compute. reflexivity.
Defined.

Lemma createBlockUpload_after_commit_witness :
  let out := compactor.createBlockUpload examples.labels
               commit_examples.committed protocol_examples.begin_request
               "user-1" 7 in
  out.2 = http.Error "block already exists in object storage"
            http.StatusConflict
  /\ objstore.objects out.1 = objstore.objects commit_examples.committed.
Proof.
  intros out.
  apply (createBlockUpload_after_commit examples.labels
           protocol_examples.with_index
           protocol_examples.commit_request protocol_examples.begin_request
           "user-1" "user-1" 7%N).
  - vm_compute. reflexivity.
  - intros H. vm_compute in H. apply elem_of_nil in H. exact H.
Defined.

Lemma HandleBlockUpload_effect_witness :
  let r := {| http.block := "not-a-ulid"; http.query_path := "";
              http.tenant := Some "user-1"; http.Body := None;
              http.ContentLength := 0 |} in
  let out := handlers.HandleBlockUpload examples.labels commit_examples.parse7
               protocol_examples.with_index r "true" in
  http.status_of out.2 = Some http.StatusBadRequest
  /\ out.1 = protocol_examples.with_index.
Proof.
  intros r out.
  apply (proj1 (HandleBlockUpload_effect examples.labels
                  commit_examples.parse7 protocol_examples.with_index r
                  "true")).
  right. left. reflexivity.
Defined.

(** ** The consistency-delay filter *)

Section ConsistencyDelay.
Import block metadata filter_spec.

Lemma iter_Inc l n (b : gmap string nat) :
  default 0%nat (Nat.iter n (extprom.Inc l) b !! l)
  = (default 0%nat (b !! l) + n)%nat
  /\ forall l', l' <> l -> Nat.iter n (extprom.Inc l) b !! l' = b !! l'.
Proof.
  induction n as [|n [IH1 IH2]].
  - change (Nat.iter 0 (extprom.Inc l) b) with b. split; [symmetry; apply Nat.add_0_r | done].
  - rewrite Nat.iter_succ. unfold extprom.Inc at 1 3. split.
    + rewrite lookup_insert_eq. cbn [default from_option id]. rewrite IH1. lia.
    + intros l' Hl. rewrite lookup_insert_ne by congruence. by apply IH2.
Qed.

Lemma Time_bound (id : N) : (id < 2 ^ 128)%N -> (0 <= ulid.Time id < 2 ^ 48)%Z.
Proof.
  intros H. unfold ulid.Time. rewrite N.shiftr_div_pow2.
  assert (id / 2 ^ 80 < 2 ^ 48)%N as Hlt.
  { apply N.Div0.div_lt_upper_bound. change (2 ^ 80 * 2 ^ 48)%N with (2 ^ 128)%N.
    exact H. }
  split; [apply N2Z.is_nonneg|].
  change (2 ^ 48)%Z with (Z.of_N (2 ^ 48)). by apply N2Z.inj_lt.
Qed.

Lemma too_fresh_spec S now consistencyDelay id meta :
  (0 <= now < 2 ^ 48)%Z -> (0 <= consistencyDelay < 2 ^ 63)%Z ->
  (id < 2 ^ 128)%N ->
  too_fresh S now consistencyDelay id meta = false <->
  exempt S meta \/ (now < ulid.Time id)%Z
  \/ (Z.quot consistencyDelay 1000000 <= now - ulid.Time id)%Z.
Proof.
  intros Hn Hd Hid. pose proof (Time_bound id Hid) as Ht.
  unfold too_fresh, exempt, uint64.
  assert (0 <= Z.quot consistencyDelay 1000000 < 2 ^ 63 / 1000000 + 1)%Z as Hq.
  { rewrite Z.quot_div_nonneg by lia. split; [apply Z.div_pos; lia|].
    assert (consistencyDelay / 1000000 <= 2 ^ 63 / 1000000)%Z
      by (apply Z.div_le_mono; lia). lia. }
  assert (2 ^ 63 / 1000000 + 1 < 2 ^ 64 - 2 ^ 48)%Z as Hc by (by vm_compute).
  rewrite (Z.mod_small (Z.quot _ _)) by lia.
  destruct (String.eqb_spec (Source meta) (BucketRepairSource S));
  destruct (String.eqb_spec (Source meta) (CompactorSource S));
  destruct (String.eqb_spec (Source meta) (CompactorRepairSource S));
  rewrite ?andb_false_r; cbn [negb andb]; try (split; [auto|done]).
  rewrite !andb_true_r, Z.ltb_ge.
  destruct (Z.lt_ge_cases now (ulid.Time id)) as [Hlt|Hge].
  - replace ((now - ulid.Time id) mod 2 ^ 64)%Z
      with (2 ^ 64 + (now - ulid.Time id))%Z.
    + split; [auto|]. intros _. lia.
    + symmetry. rewrite <- (Z.mod_add _ 1) by lia.
      rewrite Z.mod_small; lia.
  - rewrite Z.mod_small by lia. split; [auto|].
    intros [[?|[?|?]]|[?|?]]; done || lia.
Qed.

(** X12.  The consistency-delay filter never fails and leaves the [modified]
    gauges alone.  With the clock and the ids in the range of timestamps and
    a delay that is not negative, it keeps a block exactly when its source is
    one of the three exempt ones, or its id is ahead of the clock, or it is at
    least as old as the delay, counted in whole milliseconds; and the
    [too-fresh] gauge grows by the number of blocks it removed. *)
Theorem ConsistencyDelayMetaFilter_keeps S now consistencyDelay
    (metas : gmap ulid.ULID Meta) (synced modified : gmap string nat) :
  (0 <= now < 2 ^ 48)%Z -> (0 <= consistencyDelay < 2 ^ 63)%Z ->
  (forall id, is_Some (metas !! id) -> (id < 2 ^ 128)%N) ->
  let out := ConsistencyDelayMetaFilter_Filter S now consistencyDelay
               metas synced modified in
  out_err out = None /\ out_modified out = modified
  /\ (forall id meta,
        out_metas out !! id = Some meta <->
        metas !! id = Some meta
        /\ (exempt S meta \/ (now < ulid.Time id)%Z
            \/ (Z.quot consistencyDelay 1000000 <= now - ulid.Time id)%Z))
  /\ (default 0 (out_synced out !! tooFreshMeta)
      = default 0 (synced !! tooFreshMeta)
        + (size metas - size (out_metas out)))%nat
  /\ (forall l, l <> tooFreshMeta -> out_synced out !! l = synced !! l).
Proof.
  intros Hn Hd Hids out. unfold out, ConsistencyDelayMetaFilter_Filter.
  cbn [out_err out_modified out_metas out_synced].
  split; [reflexivity|]. split; [reflexivity|]. split; [|split].
  - intros id meta. rewrite map_lookup_filter_Some. cbn [fst snd].
    split; intros [Hm Hk]; (split; [exact Hm|]).
    + apply (too_fresh_spec S now consistencyDelay id meta); eauto.
    + apply (too_fresh_spec S now consistencyDelay id meta); eauto.
  - destruct (iter_Inc tooFreshMeta
                (size (filter (λ kv : N * Meta,
                   too_fresh S now consistencyDelay kv.1 kv.2 = true) metas))
                synced) as [-> _].
    f_equal.
    set (P := λ kv : N * Meta, too_fresh S now consistencyDelay kv.1 kv.2 = false).
    assert (filter (λ kv : N * Meta,
              too_fresh S now consistencyDelay kv.1 kv.2 = true) metas
            = filter (λ kv, ~ P kv) metas) as ->.
    { apply map_filter_ext. intros i x _. unfold P.
      destruct (too_fresh _ _ _ _ _); split; done. }
    assert (size metas
            = (size (filter P metas) + size (filter (λ kv, ~ P kv) metas))%nat)
      as Hs.
    { rewrite <- map_size_disj_union by apply map_disjoint_filter_complement.
      f_equal. symmetry. apply map_filter_union_complement. }
    lia.
  - intros l Hl. by apply iter_Inc.
Qed.

End ConsistencyDelay.

(** ** The deletion-mark filter and the filter chain *)

Section FilterChain.
Import block metadata filter_spec.

Lemma probe_metas env now f st id x :
  sh_metas (probe env now f st x).1 !! id
  = if decide (id = x) then
      (if expired env now f id then None else sh_metas st.1 !! id)
    else sh_metas st.1 !! id.
Proof.
  destruct st as [sh e]. unfold probe, expired. cbn [fst].
  destruct (decide (id = x)) as [->|Hne].
  - repeat case_match; cbn [fst sh_metas]; simplify_eq;
      rewrite ?lookup_delete_eq; reflexivity.
  - repeat case_match; cbn [fst sh_metas]; simplify_eq;
      rewrite ?lookup_delete_ne by congruence; reflexivity.
Qed.


Lemma worker_fold_metas env now f ids st id :
  sh_metas (foldl (probe env now f) st ids).1 !! id
  = if decide (id ∈ ids) then
      (if expired env now f id then None else sh_metas st.1 !! id)
    else sh_metas st.1 !! id.
Proof.
  revert st. induction ids as [|x ids IH]; intros st; cbn [foldl].
  - by rewrite decide_False by apply not_elem_of_nil.
  - rewrite IH, probe_metas.
    destruct (decide (id = x)) as [->|Hne].
    + rewrite (decide_True (P := x ∈ x :: ids)) by (apply elem_of_cons; by left).
      destruct (decide (x ∈ ids)); by destruct (expired env now f x).
    + destruct (decide (id ∈ ids)) as [Hin|Hin].
      * by rewrite decide_True by (apply elem_of_cons; by right).
      * rewrite decide_False; [done|]. by intros [?|?]%elem_of_cons.
Qed.


Lemma workers_metas env now f w sh id :
  sh_metas (workers env now f sh w).1 !! id
  = if decide (id ∈ concat w) then
      (if expired env now f id then None else sh_metas sh !! id)
    else sh_metas sh !! id.
Proof.
  revert sh. induction w as [|ids w IH]; intros sh; cbn [workers].
  - by rewrite decide_False by apply not_elem_of_nil.
  - unfold worker.
    pose proof (worker_fold_metas env now f ids (sh, None) id) as Hm.
    destruct (foldl (probe env now f) (sh, None) ids) as [sh' e].
    specialize (IH sh').
    destruct (workers env now f sh' w) as [sh'' errs].
    cbn [fst snd concat] in *. rewrite IH, Hm.
    destruct (decide (id ∈ (ids ++ concat w)%list)) as [Ha|Ha].
    + apply elem_of_app in Ha.
      destruct (decide (id ∈ concat w)), (decide (id ∈ ids));
        try (by destruct (expired env now f id)); exfalso; tauto.
    + destruct (decide (id ∈ concat w)) as [Hc|Hc];
        [exfalso; apply Ha, elem_of_app; by right|].
      destruct (decide (id ∈ ids)) as [Hi|Hi];
        [exfalso; apply Ha, elem_of_app; by left|].
      reflexivity.
Qed.


Lemma Filter_out env now sch f metas synced modified :
  let sh := (workers env now f
               {| marks := ∅; sh_metas := metas; sh_synced := synced |}
               (work sch)).1 in
  out_metas (IgnoreDeletionMarkFilter_Filter env now sch f metas synced
               modified).2 = sh_metas sh
  /\ out_synced (IgnoreDeletionMarkFilter_Filter env now sch f metas synced
                   modified).2 = sh_synced sh
  /\ out_modified (IgnoreDeletionMarkFilter_Filter env now sch f metas synced
                     modified).2 = modified.
Proof.
  unfold IgnoreDeletionMarkFilter_Filter.
  destruct (workers env now f _ (work sch)) as [sh errs]. cbn [fst].
  by destruct (first_error _).
Qed.


Lemma standard_filter_subseteq flt (m : gmap ulid.ULID Meta) synced modified :
  standard_filter flt -> out_metas (flt m synced modified) ⊆ m.
Proof.
  intros [S now d|env now sch f].
  - unfold ConsistencyDelayMetaFilter_Filter. cbn [out_metas].
    apply map_filter_subseteq.
  - unfold deletion_mark_filter.
    destruct (Filter_out env now sch f m synced modified) as (-> & _).
    apply map_subseteq_spec. intros id x. rewrite workers_metas.
    cbn [sh_metas]. repeat case_match; done.
Qed.

(** X14.  A chain of filters runs as its parts run one after the other: the second
    part starts from what the first left, and does not run when the first
    returned an error. *)
Theorem run_filters_app (fs1 fs2 : list MetadataFilter)
    (m : gmap ulid.ULID Meta) (synced modified : gmap string nat) :
  run_filters (fs1 ++ fs2) m synced modified
  = match out_err (run_filters fs1 m synced modified) with
    | Some _ => run_filters fs1 m synced modified
    | None =>
        run_filters fs2 (out_metas (run_filters fs1 m synced modified))
          (out_synced (run_filters fs1 m synced modified))
          (out_modified (run_filters fs1 m synced modified))
    end.
Proof.
  revert m synced modified.
  induction fs1 as [|flt fs1 IH]; intros m synced modified.
  - reflexivity.
  - cbn [app run_filters].
    destruct (out_err (flt m synced modified)) as [err|] eqn:E.
    + by rewrite E.
    + apply IH.
Qed.

(** X15.  A chain made of consistency-delay and deletion-mark filters only removes
    blocks: whatever it leaves was in the map it was given, with the same
    meta. *)
Theorem run_filters_only_removes (filters : list MetadataFilter)
    (m : gmap ulid.ULID Meta) (synced modified : gmap string nat) :
  Forall standard_filter filters ->
  out_metas (run_filters filters m synced modified) ⊆ m.
Proof.
  intros H. revert m synced modified.
  induction H as [|flt fs Hf _ IH]; intros m synced modified;
    cbn [run_filters].
  - done.
  - pose proof (standard_filter_subseteq flt m synced modified Hf) as Hs.
    destruct (out_err (flt m synced modified)); [exact Hs|].
    etrans; [apply IH | exact Hs].
Qed.

End FilterChain.

(** ** [ParseRelabelConfig] *)

Section RelabelConfig.
Import relabel_config.
Context {Config : Type} (Action : Config -> string).



End RelabelConfig.

(** ** The counters and the gauges of [fetch] *)

Section FetchMetrics.
Import block cache_spec fetch_out.

Lemma workers_fold_syncs env ids h f resp :
  syncs (foldl (worker_step env) (h, f, resp) ids).1.2 = syncs f.
Proof.
  revert h f resp. induction ids as [|id ids IH]; intros h f resp; cbn [foldl].
  - reflexivity.
  - pose proof (loadMeta_fetcher env h f id) as (_ & Hs & _).
    assert (syncs (worker_step env (h, f, resp) id).1.2 = syncs f) as Hw.
    { unfold worker_step.
      destruct (loadMeta env h f id) as [f' [err|m]]; cbn [fst] in Hs;
        repeat case_match; exact Hs. }
    destruct (worker_step env (h, f, resp) id) as [[h' f'] resp'].
    cbn [fst snd] in Hw. rewrite IH. exact Hw.
Qed.

Lemma fetchMetadata_syncs env (h : Heap) f :
  syncs (fetchMetadata env h f).1.2 = S (syncs f).
Proof.
  unfold fetchMetadata, sync_workers, make.
  match goal with |- context [foldl _ (?h0, ?f0, ?r0) _] =>
    pose proof (workers_fold_syncs env (iter_ids env) h0 f0 r0) as Hs;
    destruct (foldl (worker_step env) (h0, f0, r0) (iter_ids env))
      as [[h1 f1] resp1]
  end.
  cbn [fst snd syncs] in *.
  destruct (iter_err env); [exact Hs|].
  destruct (0 <? length (metaErrs resp1))%nat; [exact Hs|].
  cbn [fst snd]. unfold cleanup_dirs, with_dir.
  repeat case_match; exact Hs.
Qed.

Lemma fetch_after_counters v (h : Heap) metrics filters :
  Syncs (fetch_after v h metrics filters).1.2 = Syncs metrics
  /\ SyncFailures (fetch_after v h metrics filters).1.2
     = (SyncFailures metrics
        + match res_err (fetch_after v h metrics filters).2 with
          | Some _ => 1 | None => 0 end)%nat
  /\ (res_err (fetch_after v h metrics filters).2 = None ->
      is_Some (res_metas (fetch_after v h metrics filters).2)
      /\ is_Some (res_partial (fetch_after v h metrics filters).2))
  /\ (res_metas (fetch_after v h metrics filters).2 = None
      <-> res_partial (fetch_after v h metrics filters).2 = None).
Proof.
  unfold fetch_after, make, failed.
  destruct v as [err|resp]; cbn [fst snd Syncs SyncFailures res_err res_metas
                                 res_partial].
  { repeat split; try done; lia. }
  destruct (out_err _);
    cbn [fst snd Syncs SyncFailures res_err res_metas res_partial].
  { repeat split; try done; lia. }
  destruct (0 <? length (metaErrs resp))%nat;
    cbn [fst snd Syncs SyncFailures res_err res_metas res_partial];
    repeat split; try done; try lia; eauto.
Qed.

Lemma fetch_after_gauges v (h : Heap) metrics filters :
  (forall a,
     res_metas (fetch_after v h metrics filters).2 = Some a ->
     extprom.published (Synced (fetch_after v h metrics filters).1.2)
       !! LoadedMeta
     = Some (size (deref (fetch_after v h metrics filters).1.1 a)))
  /\ (res_metas (fetch_after v h metrics filters).2 = None ->
      extprom.published (Synced (fetch_after v h metrics filters).1.2)
      = extprom.published (Synced metrics)
      /\ extprom.published (Modified (fetch_after v h metrics filters).1.2)
         = extprom.published (Modified metrics)).
Proof.
  unfold fetch_after, make, failed.
  destruct v as [err|resp]; cbn [fst snd res_metas Synced Modified].
  { split; [discriminate|done]. }
  destruct (out_err _); cbn [fst snd res_metas Synced Modified].
  { split; [discriminate|done]. }
  destruct (0 <? length (metaErrs resp))%nat;
    cbn [fst snd res_metas Synced Modified extprom.published extprom.Submit
         extprom.with_tx extprom.tx];
    (split; [|discriminate]); intros a [= <-];
    rewrite !deref_insert_eq; unfold extprom.Set_; apply lookup_insert_eq.
Qed.

(** X17.  Every call of [fetch] counts one sync, on the fetcher's counter when it
    runs the sync itself and on the caller's metrics; it counts one failure
    exactly when it returns an error.  When it returns no error it returns
    both maps, and it returns the two maps together or neither. *)
Theorem fetch_counters env (h : gmap positive (gmap ulid.ULID Meta)) f metrics
    filters :
  syncs (fetcher_of (fetch env h f metrics filters)) = S (syncs f)
  /\ Syncs (metrics_of_out (fetch env h f metrics filters)) = S (Syncs metrics)
  /\ SyncFailures (metrics_of_out (fetch env h f metrics filters))
     = (SyncFailures metrics
        + match res_err (result_of (fetch env h f metrics filters)) with
          | Some _ => 1 | None => 0 end)%nat
  /\ (res_err (result_of (fetch env h f metrics filters)) = None ->
      is_Some (res_metas (result_of (fetch env h f metrics filters)))
      /\ is_Some (res_partial (result_of (fetch env h f metrics filters))))
  /\ (res_metas (result_of (fetch env h f metrics filters)) = None
      <-> res_partial (result_of (fetch env h f metrics filters)) = None).
Proof.
  rewrite fetch_eq. unfold fetcher_of, metrics_of_out, result_of.
  cbn [fst snd].
  split; [apply fetchMetadata_syncs|].
  destruct (fetch_after_counters (fetchMetadata env h f).2
              (fetchMetadata env h f).1.1 (begin_fetch metrics) filters)
    as (H1 & H2 & H3 & H4).
  split; [exact H1|]. split; [exact H2|]. split; [exact H3 | exact H4].
Qed.

(** X18.  The gauges a reader sees change only when [fetch] returns a map: then
    the [loaded] gauge is the number of blocks in the returned map; when it
    returns no map, the readers see every gauge as it was before the call. *)
Theorem fetch_gauges env (h : gmap positive (gmap ulid.ULID Meta)) f metrics
    filters :
  (forall a,
     res_metas (result_of (fetch env h f metrics filters)) = Some a ->
     extprom.published (Synced (metrics_of_out (fetch env h f metrics filters)))
       !! LoadedMeta
     = Some (size (deref (heap_of (fetch env h f metrics filters)) a)))
  /\ (res_metas (result_of (fetch env h f metrics filters)) = None ->
      extprom.published (Synced (metrics_of_out (fetch env h f metrics filters)))
      = extprom.published (Synced metrics)
      /\ extprom.published
           (Modified (metrics_of_out (fetch env h f metrics filters)))
         = extprom.published (Modified metrics)).
Proof.
  rewrite fetch_eq. unfold heap_of, metrics_of_out, result_of.
  cbn [fst snd].
  apply (fetch_after_gauges (fetchMetadata env h f).2
           (fetchMetadata env h f).1.1 (begin_fetch metrics) filters).
Qed.

End FetchMetrics.

Lemma ConsistencyDelayMetaFilter_keeps_witness :
  let S := {| metadata.BucketRepairSource := "bucket.repair";
              metadata.CompactorSource := "compactor";
              metadata.CompactorRepairSource := "compactor.repair" |} in
  let old := N.shiftl 3000000 80 in
  let ahead := N.shiftl 3601000 80 in
  let metas : gmap N Meta :=
    {[ old := examples.meta_of old 1 None "receive";
       ahead := examples.meta_of ahead 1 None "receive" ]} in
  let out := block.ConsistencyDelayMetaFilter_Filter S 3600000%Z
               (30 * job_examples.minute)%Z metas ∅ ∅ in
  block.out_metas out !! ahead = Some (examples.meta_of ahead 1 None "receive")
  /\ default 0%nat (block.out_synced out !! block.tooFreshMeta)
     = (0 + (size metas - size (block.out_metas out)))%nat.
Proof.
  intros S old ahead metas out.
  assert (map_Forall (λ id _, (id < 2 ^ 128)%N) metas) as Hids.
  { unfold metas. repeat (apply map_Forall_insert_2; [reflexivity|]).
    apply map_Forall_empty. }
  destruct (ConsistencyDelayMetaFilter_keeps S 3600000%Z
              (30 * job_examples.minute)%Z metas ∅ ∅)
    as (_ & _ & Hk & Hg & _).
  - split; [discriminate | reflexivity].
  - split; [discriminate | reflexivity].
  - intros id [m Hm]. exact (Hids id m Hm).
  - split; [|exact Hg].
    apply Hk. split; [by vm_compute|]. right. left. by vm_compute.
Defined.

Lemma run_filters_only_removes_witness :
  let S := {| metadata.BucketRepairSource := "bucket.repair";
              metadata.CompactorSource := "compactor";
              metadata.CompactorRepairSource := "compactor.repair" |} in
  let chain :=
    [block.ConsistencyDelayMetaFilter_Filter S 3600000%Z 0%Z;
     block.deletion_mark_filter mark_examples.env mark_examples.now
       mark_examples.one_worker mark_examples.new_filter] in
  block.out_metas (block.run_filters chain mark_examples.two_metas ∅ ∅)
  ⊆ mark_examples.two_metas.
Proof.
  intros S chain.
  apply (run_filters_only_removes chain mark_examples.two_metas ∅ ∅).
  repeat constructor.
Defined.

(** The selector accepts [keep] and [hashmod] and refuses [replace]. *)
Example ParseRelabelConfig_selector :
  relabel_config.ParseRelabelConfig (λ a : string, a)
    (inr ["keep"; "hashmod"])
    (Some relabel_config.SelectorSupportedRelabelActions)
  = inr ["keep"; "hashmod"]
  /\ relabel_config.ParseRelabelConfig (λ a : string, a)
       (inr ["keep"; "replace"; "labelmap"])
       (Some relabel_config.SelectorSupportedRelabelActions)
     = inl (Errorf "unsupported relabel action: %v" [AStr "replace"])
  /\ relabel_config.ParseRelabelConfig (λ a : string, a)
       (inr ["keep"; "replace"; "labelmap"]) None
     = inr ["keep"; "replace"; "labelmap"].
Proof. split; [|split]; vm_compute; reflexivity. Qed.

(** ** What a sync makes of the listed blocks *)

Section SyncAccounting.
Import block cache_spec.

(** One step of a worker, by the outcome of [loadMeta]. *)
Lemma worker_step_loaded env (h : Heap) f resp id f' m :
  loadMeta env h f id = (f', inr m) ->
  worker_step env (h, f, resp) id
  = (<[metas resp := <[id := m]> (deref h (metas resp))]> h, f', resp).
Proof. intros E. unfold worker_step. by rewrite E. Qed.

Lemma worker_step_failed env (h : Heap) f resp id f' err :
  loadMeta env h f id = (f', inl err) ->
  exists resp',
    worker_step env (h, f, resp) id = (h, f', resp')
    /\ metas resp' = metas resp
    /\ ((partial resp' = <[id := err]> (partial resp)
         /\ metaErrs resp' = metaErrs resp
         /\ (noMetas resp' + corruptedMetas resp'
             = S (noMetas resp + corruptedMetas resp))%nat
         /\ (cause_is SyncMetaNotFound err = true
             \/ cause_is SyncMetaCorrupted err = true))
        \/ (partial resp' = partial resp
            /\ metaErrs resp' = (metaErrs resp ++ [err])%list
            /\ noMetas resp' = noMetas resp
            /\ corruptedMetas resp' = corruptedMetas resp
            /\ cause_is SyncMetaNotFound err = false
            /\ cause_is SyncMetaCorrupted err = false)).
Proof.
  intros E. unfold worker_step. rewrite E.
  destruct (cause_is SyncMetaNotFound err) eqn:E1;
    [|destruct (cause_is SyncMetaCorrupted err) eqn:E2];
    eexists; (split; [reflexivity|]); cbn [metas partial metaErrs noMetas
                                           corruptedMetas];
    (split; [reflexivity|]).
  - left. repeat split; auto.
  - left. repeat split; auto; lia.
  - right. repeat split; auto.
Qed.

Lemma sync_workers_eq env (h : Heap) f :
  sync_workers env h f
  = foldl (worker_step env)
      (<[fresh (dom h) := ∅]> h,
       {| cacheDir := cacheDir f; syncs := S (syncs f); cached := cached f |},
       {| metas := fresh (dom h); partial := ∅; metaErrs := [];
          noMetas := 0; corruptedMetas := 0 |})
      (iter_ids env).
Proof. reflexivity. Qed.

(** The response a sync returns is the one the workers made, and its map is
    as they left it. *)
Lemma fetchMetadata_response env (h : Heap) f resp :
  (fetchMetadata env h f).2 = inr resp ->
  resp = (sync_workers env h f).2
  /\ iter_err env = None
  /\ deref (fetchMetadata env h f).1.1 (metas resp)
     = deref (sync_workers env h f).1.1 (metas resp).
Proof.
  pose proof (sync_workers_spec env h f) as (S1 & _ & _ & S4).
  pose proof (fetchMetadata_cases env h f) as Hc.
  destruct (sync_workers env h f) as [[h0 f0] resp0]. cbn [fst snd] in *.
  destruct Hc as [(err & Hi & ->)|[(Hi & He & ->)|(Hi & He & f1 & Hf1 & ->)]];
    cbn [fst snd]; [discriminate| |]; intros [= <-].
  - done.
  - split; [done|]. split; [done|]. apply deref_insert_ne.
    intros E. apply (is_fresh (dom h0)). rewrite E, S1, S4. set_solver.
Qed.

Lemma workers_fold_accounts env ids :
  forall (h : Heap) f resp seen,
    NoDup (seen ++ ids) ->
    (forall id, is_Some (deref h (metas resp) !! id)
                \/ is_Some (partial resp !! id) -> id ∈ seen) ->
    (forall id, deref h (metas resp) !! id = None
                \/ partial resp !! id = None) ->
    (size (deref h (metas resp)) + size (partial resp)
     + length (metaErrs resp) = length seen)%nat ->
    (noMetas resp + corruptedMetas resp = size (partial resp))%nat ->
    (forall id,
       is_Some (deref (foldl (worker_step env) (h, f, resp) ids).1.1
                  (metas resp) !! id)
       \/ is_Some (partial (foldl (worker_step env) (h, f, resp) ids).2 !! id)
       -> id ∈ (seen ++ ids)%list)
    /\ (forall id,
          deref (foldl (worker_step env) (h, f, resp) ids).1.1
            (metas resp) !! id = None
          \/ partial (foldl (worker_step env) (h, f, resp) ids).2 !! id = None)
    /\ (size (deref (foldl (worker_step env) (h, f, resp) ids).1.1 (metas resp))
        + size (partial (foldl (worker_step env) (h, f, resp) ids).2)
        + length (metaErrs (foldl (worker_step env) (h, f, resp) ids).2)
        = length (seen ++ ids))%nat
    /\ (noMetas (foldl (worker_step env) (h, f, resp) ids).2
        + corruptedMetas (foldl (worker_step env) (h, f, resp) ids).2
        = size (partial (foldl (worker_step env) (h, f, resp) ids).2))%nat.
Proof.
  induction ids as [|x ids IH]; intros h f resp seen Hnd Hk Hdj Hs Hn;
    cbn [foldl].
  - rewrite app_nil_r. done.
  - rewrite cons_middle, app_assoc in Hnd |- *.
    assert (x ∉ seen) as Hx.
    { apply NoDup_app in Hnd as [Hnd _]. apply NoDup_app in Hnd as (_ & Hd & _).
      intros Hin. apply (Hd x Hin). by apply list_elem_of_singleton. }
    assert (deref h (metas resp) !! x = None) as HMx.
    { destruct (deref h (metas resp) !! x) eqn:E; [|done].
      destruct Hx. apply Hk. left. by eexists. }
    assert (partial resp !! x = None) as HPx.
    { destruct (partial resp !! x) eqn:E; [|done].
      destruct Hx. apply Hk. right. by eexists. }
    destruct (loadMeta env h f x) as [f' [err|m]] eqn:El.
    + destruct (worker_step_failed env h f resp x f' err El)
        as (resp' & -> & Hm & Hcase).
      rewrite <- Hm. apply IH; [exact Hnd| | | |]; rewrite ?Hm.
      * intros id Hid. apply elem_of_app.
        destruct Hcase as [(Hp & _)|(Hp & _)]; rewrite Hp in Hid.
        -- destruct (decide (id = x)) as [->|Hne];
             [right; by apply list_elem_of_singleton|].
           rewrite lookup_insert_ne in Hid by congruence. left. by apply Hk.
        -- left. by apply Hk.
      * intros id. destruct Hcase as [(Hp & _)|(Hp & _)]; rewrite Hp;
          [|apply Hdj].
        destruct (decide (id = x)) as [->|Hne]; [by left|].
        rewrite lookup_insert_ne by congruence. apply Hdj.
      * rewrite length_app. cbn [length].
        destruct Hcase as [(Hp & He & _)|(Hp & He & _)]; rewrite Hp, He.
        -- rewrite map_size_insert_None by exact HPx. lia.
        -- rewrite length_app. cbn [length]. lia.
      * destruct Hcase as [(Hp & He & Hc & _)|(Hp & He & H1 & H2 & _)];
          rewrite Hp.
        -- rewrite map_size_insert_None by exact HPx. lia.
        -- lia.
    + rewrite (worker_step_loaded env h f resp x f' m El).
      assert (deref (<[metas resp := <[x := m]> (deref h (metas resp))]> h)
                (metas resp) = <[x := m]> (deref h (metas resp))) as HM
        by apply deref_insert_eq.
      apply IH; [exact Hnd| | | |]; rewrite ?HM.
      * intros id Hid. apply elem_of_app.
        destruct (decide (id = x)) as [->|Hne];
          [right; by apply list_elem_of_singleton|].
        rewrite lookup_insert_ne in Hid by congruence. left. by apply Hk.
      * intros id. destruct (decide (id = x)) as [->|Hne]; [by right|].
        rewrite lookup_insert_ne by congruence. apply Hdj.
      * rewrite length_app. cbn [length].
        rewrite map_size_insert_None by exact HMx. lia.
      * exact Hn.
Qed.

(** X19.  When the bucket lists no block twice and the sync returns a response,
    every listed block is counted once: the map of the response and the
    partial map hold listed blocks only, no block is in both, and their sizes
    and the number of errors of the sync add up to the number of listed
    blocks.  The counters of blocks without and with a corrupted [meta.json]
    add up to the size of the partial map. *)
Theorem fetchMetadata_accounts env
    (h : gmap positive (gmap ulid.ULID Meta)) f resp :
  NoDup (iter_ids env) ->
  (fetchMetadata env h f).2 = inr resp ->
  (forall id,
     is_Some (deref (fetchMetadata env h f).1.1 (metas resp) !! id)
     \/ is_Some (partial resp !! id) -> id ∈ iter_ids env)
  /\ (forall id,
        deref (fetchMetadata env h f).1.1 (metas resp) !! id = None
        \/ partial resp !! id = None)
  /\ (size (deref (fetchMetadata env h f).1.1 (metas resp))
      + size (partial resp) + length (metaErrs resp)
      = length (iter_ids env))%nat
  /\ (noMetas resp + corruptedMetas resp = size (partial resp))%nat.
Proof.
  intros Hnd Hr.
  destruct (fetchMetadata_response env h f resp Hr) as (-> & _ & ->).
  pose proof (sync_workers_spec env h f) as (S1 & _).
  rewrite S1. rewrite sync_workers_eq.
  pose proof (workers_fold_accounts env (iter_ids env)
                (<[fresh (dom h) := ∅]> h)
                {| cacheDir := cacheDir f; syncs := S (syncs f);
                   cached := cached f |}
                {| metas := fresh (dom h); partial := ∅; metaErrs := [];
                   noMetas := 0; corruptedMetas := 0 |} []) as H.
  cbn [metas partial metaErrs noMetas corruptedMetas app length] in H.
  rewrite deref_insert_eq in H. apply H.
  - exact Hnd.
  - intros id [[? Hx]|[? Hx]]; by rewrite lookup_empty in Hx.
  - intros id. left. apply lookup_empty.
  - by rewrite !map_size_empty.
  - by rewrite map_size_empty.
Qed.

Lemma workers_fold_classifies env ids :
  forall (h : Heap) f resp seen,
    (forall id err, partial resp !! id = Some err ->
       cause_is SyncMetaNotFound err = true
       \/ cause_is SyncMetaCorrupted err = true) ->
    (forall err, err ∈ metaErrs resp ->
       cause_is SyncMetaNotFound err = false
       /\ cause_is SyncMetaCorrupted err = false) ->
    (forall id, id ∈ seen ->
       is_Some (deref h (metas resp) !! id) \/ is_Some (partial resp !! id)
       \/ metaErrs resp <> []) ->
    (forall id err,
       partial (foldl (worker_step env) (h, f, resp) ids).2 !! id = Some err ->
       cause_is SyncMetaNotFound err = true
       \/ cause_is SyncMetaCorrupted err = true)
    /\ (forall err,
          err ∈ metaErrs (foldl (worker_step env) (h, f, resp) ids).2 ->
          cause_is SyncMetaNotFound err = false
          /\ cause_is SyncMetaCorrupted err = false)
    /\ (forall id, id ∈ (seen ++ ids)%list ->
          is_Some (deref (foldl (worker_step env) (h, f, resp) ids).1.1
                     (metas resp) !! id)
          \/ is_Some (partial (foldl (worker_step env) (h, f, resp) ids).2 !! id)
          \/ metaErrs (foldl (worker_step env) (h, f, resp) ids).2 <> []).
Proof.
  induction ids as [|x ids IH]; intros h f resp seen Hp He Hs; cbn [foldl].
  - rewrite app_nil_r. done.
  - rewrite cons_middle, app_assoc.
    destruct (loadMeta env h f x) as [f' [err|m]] eqn:El.
    + destruct (worker_step_failed env h f resp x f' err El)
        as (resp' & -> & Hm & Hcase).
      rewrite <- Hm. apply IH; rewrite ?Hm.
      * intros id e. destruct Hcase as [(Hq & _ & _ & Hc)|(Hq & _)]; rewrite Hq;
          [|apply Hp].
        destruct (decide (id = x)) as [->|Hne].
        -- rewrite lookup_insert_eq. by intros [= <-].
        -- rewrite lookup_insert_ne by congruence. apply Hp.
      * intros e. destruct Hcase as [(_ & Hq & _)|(_ & Hq & _ & _ & H1 & H2)];
          rewrite Hq; [apply He|].
        intros [Hin|Hx%list_elem_of_singleton]%elem_of_app;
          [by apply He|by subst e].
      * intros id [Hin|Hx%list_elem_of_singleton]%elem_of_app;
          [|subst id].
        -- destruct (Hs id Hin) as [HM|[HP|HE]]; [by left| |].
           ++ destruct Hcase as [(Hq & _)|(Hq & _)]; rewrite Hq; [|by auto].
              right. left. destruct (decide (id = x)) as [->|Hne].
              ** rewrite lookup_insert_eq. by eexists.
              ** by rewrite lookup_insert_ne by congruence.
           ++ right. right.
              destruct Hcase as [(_ & Hq & _)|(_ & Hq & _)]; rewrite Hq;
                [done|]. by destruct (metaErrs resp).
        -- right. destruct Hcase as [(Hq & _)|(_ & Hq & _)]; rewrite Hq.
           ++ left. rewrite lookup_insert_eq. by eexists.
           ++ right. by destruct (metaErrs resp).
    + rewrite (worker_step_loaded env h f resp x f' m El).
      assert (deref (<[metas resp := <[x := m]> (deref h (metas resp))]> h)
                (metas resp) = <[x := m]> (deref h (metas resp))) as HM
        by apply deref_insert_eq.
      apply IH; rewrite ?HM; [exact Hp | exact He |].
      intros id [Hin|Hx%list_elem_of_singleton]%elem_of_app; [|subst id].
      * destruct (Hs id Hin) as [HM'|[HP|HE]]; [|by auto|by auto].
        left. destruct (decide (id = x)) as [->|Hne].
        -- rewrite lookup_insert_eq. by eexists.
        -- by rewrite lookup_insert_ne by congruence.
      * left. rewrite lookup_insert_eq. by eexists.
Qed.

(** X20.  In the response of a sync, every error of the partial map has the cause
    [ErrorSyncMetaNotFound] or [ErrorSyncMetaCorrupted] and no error of the
    sync has one of them; and when the sync met no error, every listed block
    is in the map of the response or in the partial map. *)
Theorem fetchMetadata_classifies env
    (h : gmap positive (gmap ulid.ULID Meta)) f resp :
  (fetchMetadata env h f).2 = inr resp ->
  (forall id err, partial resp !! id = Some err ->
     cause_is SyncMetaNotFound err = true
     \/ cause_is SyncMetaCorrupted err = true)
  /\ (forall err, err ∈ metaErrs resp ->
        cause_is SyncMetaNotFound err = false
        /\ cause_is SyncMetaCorrupted err = false)
  /\ (metaErrs resp = [] ->
      forall id, id ∈ iter_ids env ->
        is_Some (deref (fetchMetadata env h f).1.1 (metas resp) !! id)
        \/ is_Some (partial resp !! id)).
Proof.
  intros Hr.
  destruct (fetchMetadata_response env h f resp Hr) as (-> & _ & ->).
  pose proof (sync_workers_spec env h f) as (S1 & _).
  rewrite S1. rewrite sync_workers_eq.
  pose proof (workers_fold_classifies env (iter_ids env)
                (<[fresh (dom h) := ∅]> h)
                {| cacheDir := cacheDir f; syncs := S (syncs f);
                   cached := cached f |}
                {| metas := fresh (dom h); partial := ∅; metaErrs := [];
                   noMetas := 0; corruptedMetas := 0 |} []) as H.
  cbn [metas partial metaErrs noMetas corruptedMetas app] in H.
  destruct H as (H1 & H2 & H3).
  - intros id err Hx. by rewrite lookup_empty in Hx.
  - by intros err Hx%elem_of_nil.
  - by intros id Hx%elem_of_nil.
  - split; [exact H1|]. split; [exact H2|].
    intros He id Hin. destruct (H3 id Hin) as [?|[?|?]]; auto. done.
Qed.

End SyncAccounting.

(** ** The memory cache and the disk cache during a sync *)

Section SyncCaches.
Import block cache_spec.

Lemma loadMeta_hit env (h : Heap) f id m :
  exists_meta env id = inr true -> deref h (cached f) !! id = Some m ->
  loadMeta env h f id = (f, inr m).
Proof. intros He Hc. unfold loadMeta. by rewrite He, Hc. Qed.

Lemma loadMeta_gone env (h : Heap) f id :
  exists_meta env id = inr false ->
  loadMeta env h f id = (f, inl (Sentinel SyncMetaNotFound)).
Proof. intros He. unfold loadMeta. by rewrite He. Qed.

(** A worker's step leaves the cache as it is. *)
Lemma worker_step_cache env (h : Heap) f resp x :
  cached f <> metas resp ->
  metas (worker_step env (h, f, resp) x).2 = metas resp
  /\ cached (worker_step env (h, f, resp) x).1.2 = cached f
  /\ deref (worker_step env (h, f, resp) x).1.1 (cached f)
     = deref h (cached f).
Proof.
  intros Hne.
  pose proof (worker_step_spec env h f resp x) as (H1 & H2 & H3 & _).
  split; [exact H1|]. split; [exact H2|]. apply deref_old. by apply H3.
Qed.

(** A worker's step for a block leaves the other blocks where they are. *)
Lemma worker_step_others env (h : Heap) f resp x id :
  x <> id ->
  deref (worker_step env (h, f, resp) x).1.1 (metas resp) !! id
  = deref h (metas resp) !! id
  /\ partial (worker_step env (h, f, resp) x).2 !! id = partial resp !! id.
Proof.
  intros Hne. destruct (loadMeta env h f x) as [f' [err|m]] eqn:El.
  - destruct (worker_step_failed env h f resp x f' err El)
      as (resp' & Hw & Hm & Hcase). rewrite Hw. cbn [fst snd].
    split; [reflexivity|].
    destruct Hcase as [(Hp & _)|(Hp & _)]; rewrite Hp; [|reflexivity].
    by rewrite lookup_insert_ne.
  - rewrite (worker_step_loaded env h f resp x f' m El). cbn [fst snd].
    rewrite deref_insert_eq. by rewrite lookup_insert_ne.
Qed.

Lemma workers_fold_hit env id m ids :
  exists_meta env id = inr true ->
  forall (h : Heap) f resp,
    cached f <> metas resp ->
    deref h (cached f) !! id = Some m ->
    id ∈ ids \/ deref h (metas resp) !! id = Some m ->
    deref (foldl (worker_step env) (h, f, resp) ids).1.1 (metas resp) !! id
    = Some m.
Proof.
  intros He. induction ids as [|x ids IH]; intros h f resp Hne Hc Hin;
    cbn [foldl].
  - destruct Hin as [Hin|Hin]; [by apply elem_of_nil in Hin | exact Hin].
  - destruct (worker_step_cache env h f resp x Hne) as (Hm & Hcf & Hch).
    assert (id ∈ ids
            \/ deref (worker_step env (h, f, resp) x).1.1 (metas resp) !! id
               = Some m) as Hin'.
    { destruct (decide (x = id)) as [->|Hx].
      - right. rewrite (worker_step_loaded env h f resp id f m)
          by (by apply loadMeta_hit).
        cbn [fst]. rewrite deref_insert_eq. apply lookup_insert_eq.
      - destruct Hin as [[?|Hin]%elem_of_cons|Hin]; [congruence|by left|].
        right. by rewrite (proj1 (worker_step_others env h f resp x id Hx)). }
    destruct (worker_step env (h, f, resp) x) as [[h1 f1] resp1].
    cbn [fst snd] in *. rewrite <- Hm. apply IH; rewrite ?Hm, ?Hcf, ?Hch; done.
Qed.

Lemma workers_fold_gone env id ids :
  exists_meta env id = inr false ->
  forall (h : Heap) f resp,
    deref (foldl (worker_step env) (h, f, resp) ids).1.1 (metas resp) !! id
    = deref h (metas resp) !! id
    /\ partial (foldl (worker_step env) (h, f, resp) ids).2 !! id
       = if decide (id ∈ ids) then Some (Sentinel SyncMetaNotFound)
         else partial resp !! id.
Proof.
  intros He. induction ids as [|x ids IH]; intros h f resp; cbn [foldl].
  - by rewrite decide_False by apply not_elem_of_nil.
  - assert (metas (worker_step env (h, f, resp) x).2 = metas resp) as Hm
      by apply (worker_step_spec env h f resp x).
    assert (deref (worker_step env (h, f, resp) x).1.1 (metas resp) !! id
            = deref h (metas resp) !! id
            /\ partial (worker_step env (h, f, resp) x).2 !! id
               = if decide (x = id) then Some (Sentinel SyncMetaNotFound)
                 else partial resp !! id) as [H1 H2].
    { destruct (decide (x = id)) as [->|Hx];
        [|by apply worker_step_others].
      destruct (worker_step_failed env h f resp id f (Sentinel SyncMetaNotFound)
                  (loadMeta_gone env h f id He))
        as (resp' & Hw & _ & [(Hp & _)|(_ & _ & _ & _ & Hc & _)]);
        [|discriminate Hc].
      rewrite Hw. cbn [fst snd]. rewrite Hp.
      split; [reflexivity | apply lookup_insert_eq]. }
    destruct (worker_step env (h, f, resp) x) as [[h1 f1] resp1].
    cbn [fst snd] in *. destruct (IH h1 f1 resp1) as [I1 I2].
    rewrite Hm in I1. rewrite I1, I2, H1, H2. split; [reflexivity|].
    destruct (decide (x = id)) as [->|Hx].
    + rewrite (decide_True (P := id ∈ id :: ids)) by (apply elem_of_cons; by left).
      by destruct (decide (id ∈ ids)).
    + destruct (decide (id ∈ ids)) as [Hin|Hin].
      * by rewrite decide_True by (apply elem_of_cons; by right).
      * rewrite decide_False; [done|]. intros [?|?]%elem_of_cons; congruence.
Qed.

(** X21.  A listed block that is in the memory cache is served from the cache,
    whatever the bucket would return for its [meta.json], as long as
    [Exists] finds the file; when [Exists] does not find it, the block is
    partial, with the error [ErrorSyncMetaNotFound], in spite of the cache. *)
Theorem fetchMetadata_uses_cache env
    (h : gmap positive (gmap ulid.ULID Meta)) f resp id m :
  wf h f -> deref h (cached f) !! id = Some m -> id ∈ iter_ids env ->
  (fetchMetadata env h f).2 = inr resp ->
  (exists_meta env id = inr true ->
   deref (fetchMetadata env h f).1.1 (metas resp) !! id = Some m)
  /\ (exists_meta env id = inr false ->
      deref (fetchMetadata env h f).1.1 (metas resp) !! id = None
      /\ partial resp !! id = Some (Sentinel SyncMetaNotFound)).
Proof.
  intros Hwf Hc Hin Hr.
  destruct (fetchMetadata_response env h f resp Hr) as (-> & _ & ->).
  pose proof (sync_workers_spec env h f) as (S1 & _).
  rewrite S1. rewrite sync_workers_eq.
  assert (cached f <> fresh (dom h)) as Hne by (by apply fresh_ne).
  split; intros He.
  - apply (workers_fold_hit env id m (iter_ids env) He); cbn [cached metas].
    + exact Hne.
    + by rewrite deref_insert_ne by congruence.
    + by left.
  - destruct (workers_fold_gone env id (iter_ids env) He
                (<[fresh (dom h) := ∅]> h)
                {| cacheDir := cacheDir f; syncs := S (syncs f);
                   cached := cached f |}
                {| metas := fresh (dom h); partial := ∅; metaErrs := [];
                   noMetas := 0; corruptedMetas := 0 |}) as [H1 H2].
    cbn [metas partial] in H1, H2. rewrite H1, H2, deref_insert_eq.
    by rewrite lookup_empty, decide_True.
Qed.

(** What [loadMeta] does to the directory of the disk cache when writes and
    removals work for the block. *)
Lemma loadMeta_disk env (h : Heap) f id d :
  cacheDir f = Some d -> disk_ok env id = true ->
  (forall m, deref h (cached f) !! id = Some m -> d !! id = Some (DirMeta m)) ->
  exists d',
    cacheDir (loadMeta env h f id).1 = Some d'
    /\ (forall k, k <> id -> d' !! k = d !! k)
    /\ (forall m, (loadMeta env h f id).2 = inr m -> d' !! id = Some (DirMeta m))
    /\ (forall m, d !! id = Some (DirMeta m) -> d' !! id = Some (DirMeta m)).
Proof.
  intros Hd Hok Hc.
  unfold loadMeta, load_from_dir, save_to_dir, with_dir. rewrite Hd, Hok.
  repeat case_match; simplify_eq; cbn [fst snd cacheDir] in *; simplify_eq;
    eexists; (split; [first [reflexivity | eassumption]|]);
    (split; [intros k Hk;
             rewrite ?lookup_insert_ne, ?lookup_delete_ne by congruence;
             reflexivity|]);
    (split; [intros m' Hm'; simplify_eq;
             rewrite ?lookup_insert_eq; first [reflexivity | by auto]|]);
    intros m' Hm'; simplify_eq; done.
Qed.

Lemma workers_fold_disk env ids :
  (forall id, disk_ok env id = true) ->
  forall (h : Heap) f resp d,
    cached f <> metas resp -> cacheDir f = Some d ->
    (forall id m, deref h (cached f) !! id = Some m ->
                  d !! id = Some (DirMeta m)) ->
    (forall id m, deref h (metas resp) !! id = Some m ->
                  d !! id = Some (DirMeta m)) ->
    exists d',
      cacheDir (foldl (worker_step env) (h, f, resp) ids).1.2 = Some d'
      /\ (forall id m, deref h (cached f) !! id = Some m ->
                       d' !! id = Some (DirMeta m))
      /\ (forall id m,
            deref (foldl (worker_step env) (h, f, resp) ids).1.1 (metas resp)
              !! id = Some m ->
            d' !! id = Some (DirMeta m)).
Proof.
  intros Hok. induction ids as [|x ids IH]; intros h f resp d Hne Hd Hc Hm;
    cbn [foldl].
  - exists d. done.
  - destruct (loadMeta_disk env h f x d Hd (Hok x) (λ m, Hc x m))
      as (d1 & Hd1 & Hother & Hload & Hsame).
    assert (forall id m, d !! id = Some (DirMeta m) ->
                         d1 !! id = Some (DirMeta m)) as Hkeep.
    { intros id m Hid. destruct (decide (id = x)) as [->|Hx].
      - by apply Hsame.
      - by rewrite Hother. }
    destruct (worker_step_cache env h f resp x Hne) as (Hms & Hcf & Hch).
    assert (cacheDir (worker_step env (h, f, resp) x).1.2 = Some d1
            /\ forall id m,
                 deref (worker_step env (h, f, resp) x).1.1 (metas resp) !! id
                 = Some m -> d1 !! id = Some (DirMeta m)) as [Hd1' Hm1].
    { destruct (loadMeta env h f x) as [f' [err|m0]] eqn:El;
        cbn [fst snd] in Hd1, Hload.
      - destruct (worker_step_failed env h f resp x f' err El)
          as (resp' & Hw & _). rewrite Hw. cbn [fst snd].
        split; [exact Hd1|]. intros id m Hid. by apply Hkeep, Hm.
      - rewrite (worker_step_loaded env h f resp x f' m0 El). cbn [fst snd].
        split; [exact Hd1|]. intros id m. rewrite deref_insert_eq.
        destruct (decide (id = x)) as [->|Hx].
        + rewrite lookup_insert_eq. intros [= <-]. by apply Hload.
        + rewrite lookup_insert_ne by congruence. intros Hid.
          by apply Hkeep, Hm. }
    destruct (worker_step env (h, f, resp) x) as [[h1 f1] resp1].
    cbn [fst snd] in *.
    destruct (IH h1 f1 resp1 d1) as (d' & Hd' & Hc' & Hm').
    + by rewrite Hcf, Hms.
    + exact Hd1'.
    + intros id m. rewrite Hcf, Hch. intros Hid. by apply Hkeep, Hc.
    + intros id m. rewrite Hms. apply Hm1.
    + exists d'. split; [exact Hd'|]. split.
      * intros id m Hid. apply Hc'. by rewrite Hcf, Hch.
      * intros id m. rewrite <- Hms. apply Hm'.
Qed.

(** X22.  With a cache directory in which writes and removals work, a sync keeps
    the disk cache in step with the memory cache: if every meta of the memory
    cache was on disk before the sync, so it is after it; and after a sync
    that met no error, when the cache directory can be listed, the disk cache
    holds the metas of the memory cache and no other directory. *)
Theorem disk_cache_mirrors env
    (h : gmap positive (gmap ulid.ULID Meta)) f d :
  wf h f -> cacheDir f = Some d ->
  (forall id, disk_ok env id = true) ->
  (forall id m, deref h (cached f) !! id = Some m ->
                d !! id = Some (DirMeta m)) ->
  exists d',
    cacheDir (fetchMetadata env h f).1.2 = Some d'
    /\ (forall id m,
          deref (fetchMetadata env h f).1.1 (cached (fetchMetadata env h f).1.2)
            !! id = Some m ->
          d' !! id = Some (DirMeta m))
    /\ (readdir_ok env = true ->
        forall resp,
          (fetchMetadata env h f).2 = inr resp -> metaErrs resp = [] ->
          d' = DirMeta <$>
                 deref (fetchMetadata env h f).1.1
                       (cached (fetchMetadata env h f).1.2)).
Proof.
  intros Hwf Hd Hok Hc.
  pose proof (sync_workers_spec env h f) as (S1 & S2 & S3 & S4).
  assert (cached f <> fresh (dom h)) as Hne by (by apply fresh_ne).
  destruct (workers_fold_disk env (iter_ids env) Hok
              (<[fresh (dom h) := ∅]> h)
              {| cacheDir := cacheDir f; syncs := S (syncs f);
                 cached := cached f |}
              {| metas := fresh (dom h); partial := ∅; metaErrs := [];
                 noMetas := 0; corruptedMetas := 0 |} d)
    as (d0 & Hd0 & Hc0 & Hm0); cbn [cached metas cacheDir].
  { exact Hne. }
  { exact Hd. }
  { intros id m. rewrite deref_insert_ne by (apply not_eq_sym, Hne). apply Hc. }
  { intros id m. rewrite deref_insert_eq, lookup_empty. discriminate. }
  rewrite <- sync_workers_eq in Hd0, Hm0.
  assert (forall id m, deref h (cached f) !! id = Some m ->
                       d0 !! id = Some (DirMeta m)) as Hc1.
  { intros id m Hid. apply Hc0. by rewrite deref_insert_ne by (apply not_eq_sym, Hne). }
  clear Hc0. unfold fetchMetadata.
  destruct (sync_workers env h f) as [[h0 f0] resp0]. cbn [fst snd] in *.
  assert (deref h0 (cached f) = deref h (cached f)) as Hold
    by (apply deref_old, S3, Hwf).
  destruct (iter_err env) as [err|]; cbn [fst snd].
  { exists d0. split; [exact Hd0|]. split; [|discriminate].
    intros id m. rewrite S2, Hold. apply Hc1. }
  destruct (metaErrs resp0) as [|e errs] eqn:Ee;
    cbn [length Nat.ltb Nat.leb fst snd].
  2:{ exists d0. split; [exact Hd0|]. split.
      - intros id m. rewrite S2, Hold. apply Hc1.
      - intros _ resp [= <-]. by rewrite Ee. }
  unfold make, cleanup_dirs, with_dir. cbn [fst snd cacheDir cached].
  rewrite Hd0.
  assert (deref (<[fresh (dom h0) := deref h0 (metas resp0)]> h0)
            (metas resp0) = deref h0 (metas resp0)) as HM.
  { apply deref_insert_ne. intros E. apply (is_fresh (dom h0)).
    rewrite E, S1, S4. set_solver. }
  rewrite HM, S1. cbn [metas] in Hm0.
  destruct (readdir_ok env); cbn [cacheDir cached]; rewrite !deref_insert_eq.
  - eexists. split; [reflexivity|]. split.
    + intros id m Hid. apply map_lookup_filter_Some. split; [by apply Hm0|].
      left. by eexists.
    + intros _ resp _ _. apply map_eq. intros id. rewrite lookup_fmap.
      destruct (deref h0 (fresh (dom h)) !! id) as [m|] eqn:Em; cbn.
      * apply map_lookup_filter_Some. split; [by apply Hm0|].
        left. cbn [fst]. rewrite Em. by eexists.
      * apply map_lookup_filter_None. right. intros x _ [[? Hx]|Hx];
          cbn [fst] in Hx.
        -- rewrite Em in Hx. discriminate.
        -- rewrite Hok in Hx. discriminate.
  - exists d0. split; [reflexivity|]. split; [exact Hm0 | discriminate].
Qed.

End SyncCaches.

Lemma fetchMetadata_accounts_witness :
  let out := block.fetchMetadata cache_examples.mixed_bucket
               sync_examples.heap0 sync_examples.fetcher0 in
  let resp := (block.sync_workers cache_examples.mixed_bucket
                 sync_examples.heap0 sync_examples.fetcher0).2 in
  out.2 = inr resp
  /\ (size (block.deref out.1.1 (block.metas resp))
      + size (block.partial resp) + length (block.metaErrs resp) = 4)%nat
  /\ (block.noMetas resp + block.corruptedMetas resp
      = size (block.partial resp))%nat.
Proof.
  intros out resp.
  assert (out.2 = inr resp) as Hr by (vm_compute; reflexivity).
  split; [exact Hr|].
  destruct (fetchMetadata_accounts cache_examples.mixed_bucket
              sync_examples.heap0 sync_examples.fetcher0 resp)
    as (_ & _ & Hs & Hn).
  - repeat constructor; vm_compute; intros H;
      repeat (apply elem_of_cons in H as [H|H]; [discriminate H|]);
      by apply elem_of_nil in H.
  - exact Hr.
  - split; [exact Hs | exact Hn].
Defined.

Lemma fetchMetadata_classifies_witness :
  let resp := (block.sync_workers cache_examples.mixed_bucket
                 sync_examples.heap0 sync_examples.fetcher0).2 in
  is_Some (block.partial resp !! 2%N) /\ is_Some (block.partial resp !! 3%N)
  /\ forall err, err ∈ block.metaErrs resp ->
       cause_is SyncMetaNotFound err = false
       /\ cause_is SyncMetaCorrupted err = false.
Proof.
  intros resp.
  split; [vm_compute; eauto|]. split; [vm_compute; eauto|].
  apply (fetchMetadata_classifies cache_examples.mixed_bucket
           sync_examples.heap0 sync_examples.fetcher0 resp).
  vm_compute. reflexivity.
Defined.

Lemma fetchMetadata_uses_cache_witness :
  let out := block.fetchMetadata cache_examples.bucket_down
               cache_examples.synced_heap cache_examples.synced_fetcher in
  let resp := (block.sync_workers cache_examples.bucket_down
                 cache_examples.synced_heap cache_examples.synced_fetcher).2 in
  block.deref out.1.1 (block.metas resp) !! 1%N = Some (sync_examples.good 1).
Proof.
  intros out resp.
  apply (fetchMetadata_uses_cache cache_examples.bucket_down
           cache_examples.synced_heap cache_examples.synced_fetcher resp
           1%N (sync_examples.good 1)).
  - unfold cache_spec.wf. apply elem_of_dom. vm_compute. eauto.
  - vm_compute. reflexivity.
  - apply list_elem_of_singleton. reflexivity.
  - vm_compute. reflexivity.
  - reflexivity.
Defined.

Lemma disk_cache_mirrors_witness :
  let out := block.fetchMetadata sync_examples.marked_block
               cache_examples.dir_heap cache_examples.dir_fetcher in
  exists d',
    block.cacheDir out.1.2 = Some d'
    /\ d' !! 1%N = Some (block.DirMeta (sync_examples.good 1)).
Proof.
  intros out.
  destruct (disk_cache_mirrors sync_examples.marked_block
              cache_examples.dir_heap cache_examples.dir_fetcher ∅)
    as (d' & Hd & Hm & _).
  - unfold cache_spec.wf. apply elem_of_dom. vm_compute. eauto.
  - reflexivity.
  - intros id. reflexivity.
  - intros id m H. vm_compute in H. discriminate H.
  - exists d'. split; [exact Hd|]. apply Hm. vm_compute. reflexivity.
Defined.

(** ** Two callers of [fetch] that share one response *)

Section SharedResponse.
Import block cache_spec.

Lemma fetch_after_dom resp (h : Heap) metrics filters :
  dom (fetch_after (inr resp) h metrics filters).1.1
  = dom h ∪ {[fresh (dom h)]}.
Proof.
  rewrite (proj1 (fetch_after_response resp h metrics filters)).
  rewrite !dom_insert_L. set_solver.
Qed.

(** X24.  Two callers that are handed the same response each get a map of their
    own: the two maps are at different addresses, the filters of the second
    caller start from the map of the response as the sync left it, whatever
    the filters of the first removed, and they change neither the map the
    first caller got nor the map of the response. *)
Theorem shared_response_is_copied resp
    (h : gmap positive (gmap ulid.ULID Meta))
    metrics1 metrics2 filters1 filters2 a1 a2 :
  metas resp ∈ dom h ->
  res_metas (fetch_shared (inr resp) h metrics1 filters1).2 = Some a1 ->
  res_metas (fetch_shared (inr resp)
               (fetch_shared (inr resp) h metrics1 filters1).1.1
               metrics2 filters2).2 = Some a2 ->
  a1 <> a2
  /\ deref (fetch_shared (inr resp)
              (fetch_shared (inr resp) h metrics1 filters1).1.1
              metrics2 filters2).1.1 a1
     = deref (fetch_shared (inr resp) h metrics1 filters1).1.1 a1
  /\ deref (fetch_shared (inr resp)
              (fetch_shared (inr resp) h metrics1 filters1).1.1
              metrics2 filters2).1.1 a2
     = out_metas (filtered filters2 metrics2 h resp)
  /\ deref (fetch_shared (inr resp)
              (fetch_shared (inr resp) h metrics1 filters1).1.1
              metrics2 filters2).1.1 (metas resp)
     = deref h (metas resp).
Proof.
  unfold fetch_shared, filtered, synced_before_filters. intros Hin H1 H2.
  pose proof (fetch_after_dom resp h (begin_fetch metrics1) filters1) as Hdom.
  destruct (fetch_after_returned _ h _ filters1 a1 H1) as (r1 & Hr1 & -> & _).
  set (h1 := (fetch_after (inr resp) h (begin_fetch metrics1) filters1).1.1)
    in *.
  destruct (fetch_after_returned _ h1 _ filters2 a2 H2)
    as (r2 & Hr2 & -> & Hd2).
  injection Hr2 as <-.
  assert (fresh (dom h) ∈ dom h1) as Ha1 by (rewrite Hdom; set_solver).
  assert (metas resp ∈ dom h1) as Hm1 by (rewrite Hdom; set_solver).
  assert (deref h1 (metas resp) = deref h (metas resp)) as Hresp.
  { apply deref_old. by apply fetch_after_old. }
  split; [by apply fresh_ne|]. split; [|split].
  - apply deref_old. by apply fetch_after_old.
  - rewrite Hd2, Hresp. reflexivity.
  - rewrite <- Hresp. apply deref_old. by apply fetch_after_old.
Qed.

End SharedResponse.

Lemma shared_response_is_copied_witness :
  let resp := (block.sync_workers sync_examples.marked_block
                 sync_examples.heap0 sync_examples.fetcher0).2 in
  let h := cache_examples.synced_heap in
  let first := block.fetch_shared (inr resp) h sync_examples.no_metrics
                 [sync_examples.mark_filter sync_examples.marked_block] in
  let second := block.fetch_shared (inr resp) first.1.1
                  sync_examples.no_metrics [] in
  exists a1 a2,
    block.res_metas first.2 = Some a1 /\ block.res_metas second.2 = Some a2
    /\ a1 <> a2
    /\ block.deref second.1.1 a1 = ∅
    /\ block.deref second.1.1 a2 = {[ 1%N := sync_examples.good 1 ]}.
Proof.
  intros resp h first second.
  assert (is_Some (block.res_metas first.2)) as [a1 H1] by (vm_compute; eauto).
  assert (is_Some (block.res_metas second.2)) as [a2 H2] by (vm_compute; eauto).
  exists a1, a2. split; [exact H1|]. split; [exact H2|].
  destruct (shared_response_is_copied resp h sync_examples.no_metrics
              sync_examples.no_metrics
              [sync_examples.mark_filter sync_examples.marked_block] []
              a1 a2) as (Hne & Hd1 & Hd2 & _).
  - apply elem_of_dom. vm_compute. eauto.
  - exact H1.
  - exact H2.
  - split; [exact Hne|]. split.
    + fold first in Hd1. fold second in Hd1. rewrite Hd1.
      vm_compute in H1. injection H1 as <-. vm_compute. reflexivity.
    + fold first in Hd2. fold second in Hd2. rewrite Hd2.
      vm_compute. reflexivity.
Defined.

Lemma no_commit_no_visibility_witness :
  let steps :=
    [protocol.Begin protocol_examples.begin_request "user-1" 7;
     protocol.File (protocol_examples.file_request "index");
     protocol.File (protocol_examples.file_request "meta.json");
     protocol.Begin protocol_examples.begin_request "user-1" 7] in
  objstore.objects
    (foldl (λ b s, (protocol.step examples.labels b s).1)
           protocol_examples.empty_bucket steps)
    !! protocol.meta_json 7
  = objstore.objects protocol_examples.empty_bucket !! protocol.meta_json 7.
Proof.
  intros steps.
  apply (no_commit_no_visibility examples.labels
           protocol_examples.empty_bucket steps 7%N).
  repeat constructor; discriminate.
Defined.

(** ** The version of the metas a sync returns *)

Section VersionInvariant.
Import block cache_spec version_spec metadata.

Lemma loadMeta_v1 env (h : Heap) f id :
  metas_v1 (deref h (cached f)) -> disk_v1 f ->
  disk_v1 (loadMeta env h f id).1
  /\ forall m, (loadMeta env h f id).2 = inr m -> Version m = TSDBVersion1.
Proof.
  intros Hc Hd. unfold disk_v1 in *.
  unfold loadMeta, load_from_dir, save_to_dir, with_dir.
  repeat case_match; simplify_eq; cbn [fst snd cacheDir] in *; simplify_eq;
    (split;
     [intros d' k m' Hd' Hk; simplify_eq;
      try (destruct (decide (k = id)) as [->|Hne];
           [rewrite ?lookup_insert_eq, ?lookup_delete_eq in Hk
           |rewrite ?lookup_insert_ne, ?lookup_delete_ne in Hk by congruence]);
      simplify_eq; eauto
     |intros m' Hm'; simplify_eq; eauto]).
  all: try match goal with
           | H : negb (_ =? _)%Z = false |- _ =>
               apply negb_false_iff, Z.eqb_eq in H; exact H
           end.
Qed.

Lemma workers_fold_v1 env ids :
  forall (h : Heap) f resp,
    cached f <> metas resp ->
    metas_v1 (deref h (cached f)) -> disk_v1 f ->
    metas_v1 (deref h (metas resp)) ->
    disk_v1 (foldl (worker_step env) (h, f, resp) ids).1.2
    /\ metas_v1 (deref (foldl (worker_step env) (h, f, resp) ids).1.1
                   (metas resp)).
Proof.
  induction ids as [|x ids IH]; intros h f resp Hne Hc Hd Hm; cbn [foldl].
  - done.
  - destruct (loadMeta_v1 env h f x Hc Hd) as [Hd1 Hload].
    destruct (worker_step_cache env h f resp x Hne) as (Hms & Hcf & Hch).
    assert (disk_v1 (worker_step env (h, f, resp) x).1.2
            /\ metas_v1 (deref (worker_step env (h, f, resp) x).1.1
                           (metas resp))) as [Hd1' Hm1].
    { destruct (loadMeta env h f x) as [f' [err|m0]] eqn:El;
        cbn [fst snd] in Hd1, Hload.
      - destruct (worker_step_failed env h f resp x f' err El)
          as (resp' & Hw & _). rewrite Hw. cbn [fst snd]. by split.
      - rewrite (worker_step_loaded env h f resp x f' m0 El). cbn [fst snd].
        split; [exact Hd1|]. rewrite deref_insert_eq. intros id m.
        destruct (decide (id = x)) as [->|Hx].
        + rewrite lookup_insert_eq. intros [= <-]. by apply Hload.
        + rewrite lookup_insert_ne by congruence. apply Hm. }
    destruct (worker_step env (h, f, resp) x) as [[h1 f1] resp1].
    cbn [fst snd] in *. rewrite <- Hms. apply IH.
    + by rewrite Hcf, Hms.
    + by rewrite Hcf, Hch.
    + exact Hd1'.
    + by rewrite Hms.
Qed.

(** X23.  A sync keeps the version of the cached metas: if every meta of the
    memory cache and every meta that can be read from the disk cache has
    version 1, the same holds after the sync, and every meta of the map of
    the response has version 1. *)
Theorem fetchMetadata_keeps_version env
    (h : gmap positive (gmap ulid.ULID Meta)) f :
  wf h f -> metas_v1 (deref h (cached f)) -> disk_v1 f ->
  metas_v1 (deref (fetchMetadata env h f).1.1
              (cached (fetchMetadata env h f).1.2))
  /\ disk_v1 (fetchMetadata env h f).1.2
  /\ forall resp,
       (fetchMetadata env h f).2 = inr resp ->
       metas_v1 (deref (fetchMetadata env h f).1.1 (metas resp)).
Proof.
  intros Hwf Hc Hd.
  pose proof (sync_workers_spec env h f) as (S1 & S2 & S3 & S4).
  assert (cached f <> fresh (dom h)) as Hne by (by apply fresh_ne).
  destruct (workers_fold_v1 env (iter_ids env)
              (<[fresh (dom h) := ∅]> h)
              {| cacheDir := cacheDir f; syncs := S (syncs f);
                 cached := cached f |}
              {| metas := fresh (dom h); partial := ∅; metaErrs := [];
                 noMetas := 0; corruptedMetas := 0 |})
    as (Hd0 & Hm0); cbn [cached metas cacheDir].
  { exact Hne. }
  { by rewrite deref_insert_ne by (apply not_eq_sym, Hne). }
  { exact Hd. }
  { rewrite deref_insert_eq. intros id m Hx. by rewrite lookup_empty in Hx. }
  rewrite <- sync_workers_eq in Hd0, Hm0. cbn [metas] in Hm0.
  unfold fetchMetadata.
  destruct (sync_workers env h f) as [[h0 f0] resp0]. cbn [fst snd] in *.
  assert (deref h0 (cached f) = deref h (cached f)) as Hold
    by (apply deref_old, S3, Hwf).
  destruct (iter_err env) as [err|]; cbn [fst snd].
  { rewrite S2, Hold. split; [exact Hc|]. split; [exact Hd0 | discriminate]. }
  destruct (metaErrs resp0) as [|e errs] eqn:Ee;
    cbn [length Nat.ltb Nat.leb fst snd].
  2:{ rewrite S2, Hold. split; [exact Hc|]. split; [exact Hd0|].
      intros resp [= <-]. by rewrite S1. }
  unfold make. cbn [fst snd].
  assert (deref (<[fresh (dom h0) := deref h0 (metas resp0)]> h0)
            (metas resp0) = deref h0 (metas resp0)) as HM.
  { apply deref_insert_ne. intros E. apply (is_fresh (dom h0)).
    rewrite E, S1, S4. set_solver. }
  rewrite cleanup_dirs_cached. cbn [cached]. rewrite deref_insert_eq.
  split; [by rewrite S1|]. split.
  - unfold cleanup_dirs, with_dir, disk_v1 in *. cbn [cacheDir].
    intros d id m. repeat case_match; cbn [cacheDir]; intros; simplify_eq;
      eauto.
    match goal with
    | H : filter _ _ !! _ = Some _ |- _ =>
        apply map_lookup_filter_Some in H as [H _]; eauto
    end.
  - intros resp [= <-]. by rewrite HM, S1.
Qed.

End VersionInvariant.

Lemma fetchMetadata_keeps_version_witness :
  let out := block.fetchMetadata cache_examples.mixed_bucket
               cache_examples.dir_heap cache_examples.dir_fetcher in
  version_spec.metas_v1 (block.deref out.1.1 (block.cached out.1.2))
  /\ version_spec.disk_v1 out.1.2.
Proof.
  intros out.
  destruct (fetchMetadata_keeps_version cache_examples.mixed_bucket
              cache_examples.dir_heap cache_examples.dir_fetcher)
    as (H1 & H2 & _).
  - unfold cache_spec.wf. apply elem_of_dom. vm_compute. eauto.
  - intros id m H. vm_compute in H. discriminate H.
  - intros d id m [= <-] H. rewrite lookup_empty in H. discriminate H.
  - split; [exact H1 | exact H2].
Defined.
